(** * OERC-S kernel: canonical encoding, object identifiers and verification

    A shallow embedding of the TypeScript kernel (crypto.ts, canonical.ts,
    verify.ts, types.ts, conformance.ts and the issue-intent and emit-frame
    commands of cli.ts), followed by the properties proved about it.

    Conventions of the embedding.
    - A JavaScript string is its sequence of UTF-16 code units.
    - A JSON number is an integer ([Z]); fractional numbers are outside the
      embedding, and so are integers from 10^21 on, which the engine writes
      with an exponent. The two zeros of JavaScript are one number, as they
      are for [===] and for [JSON.stringify].
    - A JavaScript object is the list of its own properties in creation
      order, with pairwise distinct keys.
    - The body of a signed object is kept as the JSON value it is, and read
      with JavaScript's property reads; [Sigset] and [Signature] are the
      records of types.ts, where a sigset may lack its [threshold] and
      hold [null] in place of a signature.
    - A call either returns or throws ([outcome]); a conversion of a JSON
      value to a string or a number throws where the engine's does.
    - What the kernel imports from the @noble libraries and from the
      engine's locale, number and date code is a field of [Env]. Reading
      the wall clock, [new Date()], is a step of its own ([clocked]). *)

From Stdlib Require Import List ZArith NArith Bool Lia String Ascii.
From Stdlib Require Import DecimalString Permutation Sorted.
From Stdlib Require Import DecimalZ DecimalPos.
Import ListNotations.
Local Open Scope list_scope.
Set Warnings "-register-all".

(** ** JavaScript strings *)

Module JsString.

(** A string value: UTF-16 code units, each below 65536. *)
Definition t := list N.

(** String literals of the source, all ASCII. *)
Definition lit (s : string) : t := map N_of_ascii (list_ascii_of_string s).

Fixpoint eqb (a b : t) : bool :=
  match a, b with
  | [], [] => true
  | x :: a', y :: b' => N.eqb x y && eqb a' b'
  | _, _ => false
  end.

(** The order of [<] on strings, which the default [Array.prototype.sort]
    uses: lexicographic on code units, a proper prefix first. *)
Fixpoint compare (a b : t) : comparison :=
  match a, b with
  | [], [] => Eq
  | [], _ :: _ => Lt
  | _ :: _, [] => Gt
  | x :: a', y :: b' =>
      match N.compare x y with
      | Eq => compare a' b'
      | c => c
      end
  end.

Definition leb (a b : t) : bool :=
  match compare a b with Gt => false | _ => true end.

Definition is_high_surrogate (c : N) : bool := (55296 <=? c)%N && (c <=? 56319)%N.
Definition is_low_surrogate (c : N) : bool := (56320 <=? c)%N && (c <=? 57343)%N.

(** UTF-8 bytes of one code point. *)
Definition utf8_code_point (c : N) : list N :=
  if (c <? 128)%N then [c]
  else if (c <? 2048)%N then [192 + c / 64; 128 + c mod 64]%N
  else if (c <? 65536)%N then
    [224 + c / 4096; 128 + (c / 64) mod 64; 128 + c mod 64]%N
  else
    [240 + c / 262144; 128 + (c / 4096) mod 64; 128 + (c / 64) mod 64;
     128 + c mod 64]%N.

(** [new TextEncoder().encode(s)]: a surrogate pair is one code point, a
    lone surrogate is encoded as U+FFFD. *)
Fixpoint utf8 (s : t) : list N :=
  match s with
  | [] => []
  | c :: rest =>
      if is_high_surrogate c then
        match rest with
        | d :: rest' =>
            if is_low_surrogate d then
              utf8_code_point (65536 + (c - 55296) * 1024 + (d - 56320))%N
                ++ utf8 rest'
            else utf8_code_point 65533 ++ utf8 rest
        | [] => utf8_code_point 65533
        end
      else if is_low_surrogate c then utf8_code_point 65533 ++ utf8 rest
      else utf8_code_point c ++ utf8 rest
  end.

(** Lexicographic order on byte sequences. *)
Definition utf8_leb (a b : t) : bool := leb (utf8 a) (utf8 b).

Fixpoint join (sep : t) (parts : list t) : t :=
  match parts with
  | [] => []
  | [p] => p
  | p :: rest => p ++ sep ++ join sep rest
  end.

Fixpoint starts_with (prefix s : t) : bool :=
  match prefix, s with
  | [], _ => true
  | x :: p', y :: s' => N.eqb x y && starts_with p' s'
  | _ :: _, [] => false
  end.

(** [s.includes(needle)]. *)
Fixpoint includes (s needle : t) : bool :=
  starts_with needle s ||
  match s with
  | [] => false
  | _ :: s' => includes s' needle
  end.

Definition hex_digit (n : N) : N :=
  if (n <? 10)%N then (48 + n)%N else (87 + n)%N.

(** ASCII letters only: the part of [toLowerCase] and [toUpperCase] that
    does not depend on the engine's Unicode tables. *)
Definition ascii_lower (s : t) : t :=
  map (fun c => if (65 <=? c)%N && (c <=? 90)%N then (c + 32)%N else c) s.
Definition ascii_upper (s : t) : t :=
  map (fun c => if (97 <=? c)%N && (c <=? 122)%N then (c - 32)%N else c) s.

(** [Number.prototype.toString] on an integer below 10^21 in absolute
    value, where it writes every digit. *)
Definition of_Z (n : Z) : t := lit (NilZero.string_of_int (Z.to_int n)).

End JsString.

Definition jsstring : Type := JsString.t.
Definition js : string -> jsstring := JsString.lit.

(** ** JSON values and JavaScript objects *)

(** A value as [JSON.parse] yields it. A property read that finds nothing
    gives [undefined], written [None] in an [option value]. *)
Inductive value : Type :=
| VNull
| VBool (b : bool)
| VNum (n : Z)
| VStr (s : jsstring)
| VArr (items : list value)
| VObj (props : list (jsstring * value)).

Module Obj.

(** The own properties of an object, in creation order. *)
Definition t (A : Type) : Type := list (jsstring * A).

Definition keys {A} (o : t A) : list jsstring := map fst o.

Fixpoint lookup {A} (k : jsstring) (o : t A) : option A :=
  match o with
  | [] => None
  | (k', v) :: rest => if JsString.eqb k k' then Some v else lookup k rest
  end.

(** [o[k] = v] on an ordinary data property: an existing property keeps
    its place, a new one is created last. *)
Fixpoint set {A} (k : jsstring) (v : A) (o : t A) : t A :=
  match o with
  | [] => [(k, v)]
  | (k', v') :: rest =>
      if JsString.eqb k k' then (k, v) :: rest else (k', v') :: set k v rest
  end.

Definition is_digit (c : N) : bool := (48 <=? c)%N && (c <=? 57)%N.

Definition digits_value (k : jsstring) : N :=
  fold_left (fun acc c => (10 * acc + (c - 48))%N) k 0%N.

(** An array index: the canonical decimal form of an integer below
    2^32 - 1. *)
Definition array_index (k : jsstring) : option N :=
  match k with
  | [] => None
  | c :: rest =>
      if forallb is_digit k
         && (negb (N.eqb c 48) || match rest with [] => true | _ => false end)
         && (List.length k <=? 10)%nat
         && (digits_value k <? 4294967295)%N
      then Some (digits_value k)
      else None
  end.

Definition is_array_index (k : jsstring) : bool :=
  match array_index k with Some _ => true | None => false end.

Fixpoint insert_index (k : jsstring) (l : list jsstring) : list jsstring :=
  match l with
  | [] => [k]
  | h :: rest =>
      if (digits_value k <=? digits_value h)%N then k :: l
      else h :: insert_index k rest
  end.

(** [OrdinaryOwnPropertyKeys]: array indices in ascending numeric order,
    then the other string keys in creation order. [Object.keys] and
    [JSON.stringify] both enumerate in this order. *)
Definition OwnPropertyKeys {A} (o : t A) : list jsstring :=
  fold_right insert_index [] (filter is_array_index (keys o))
    ++ filter (fun k => negb (is_array_index k)) (keys o).

End Obj.

(** ** Exceptions and the clock *)

Inductive exn : Type :=
| Error (message : jsstring)
| TypeError.

Inductive outcome (A : Type) : Type :=
| Return (a : A)
| Throw (e : exn).
Arguments Return {A} a.
Arguments Throw {A} e.

Definition bind {A B} (m : outcome A) (k : A -> outcome B) : outcome B :=
  match m with
  | Return a => k a
  | Throw e => Throw e
  end.

Notation "x <- m ;; k" := (bind m (fun x => k))
  (at level 61, m at next level, right associativity).

Definition returns {A} (m : outcome A) : bool :=
  match m with Return _ => true | Throw _ => false end.

(** A call that may read the wall clock: it ends without reading it, or it
    reaches [new Date()] and goes on with the time value read. *)
Inductive clocked (A : Type) : Type :=
| Unread (m : outcome A)
| NewDate (k : Z -> outcome A).
Arguments Unread {A} m.
Arguments NewDate {A} k.

(** The call when the clock, if it is read, shows [now]. *)
Definition at_time {A} (now : Z) (c : clocked A) : outcome A :=
  match c with
  | Unread m => m
  | NewDate k => k now
  end.

(** A step that reads no clock, followed by the rest of the call. *)
Definition bind_clocked {A B} (m : outcome A) (k : A -> clocked B) : clocked B :=
  match m with
  | Return a => k a
  | Throw e => Unread (Throw e)
  end.

Notation "x <~ m ;; k" := (bind_clocked m (fun x => k))
  (at level 61, m at next level, right associativity).

Module Js.

Fixpoint insert (k : jsstring) (l : list jsstring) : list jsstring :=
  match l with
  | [] => [k]
  | h :: rest => if JsString.leb k h then k :: l else h :: insert k rest
  end.

(** [keys.sort()] with the default comparator, on strings. *)
Definition sort (l : list jsstring) : list jsstring := fold_right insert [] l.

(** Falsy values: [undefined], [null], [false], [0] and the empty string. *)
Definition truthy (v : option value) : bool :=
  match v with
  | None | Some VNull => false
  | Some (VBool b) => b
  | Some (VNum n) => negb (Z.eqb n 0)
  | Some (VStr s) => match s with [] => false | _ => true end
  | Some (VArr _) | Some (VObj _) => true
  end.

(** [a === b]. Two objects or arrays are equal only when they are the same
    reference; values read from different places of parsed JSON never are. *)
Definition strict_eq (a b : option value) : bool :=
  match a, b with
  | None, None => true
  | Some VNull, Some VNull => true
  | Some (VBool x), Some (VBool y) => Bool.eqb x y
  | Some (VNum x), Some (VNum y) => Z.eqb x y
  | Some (VStr x), Some (VStr y) => JsString.eqb x y
  | _, _ => false
  end.

(** A read of property [k], for the names the kernel reads: none of them
    is an array index or a built-in member. *)
Definition prop (v : value) (k : jsstring) : option value :=
  match v with
  | VObj o => Obj.lookup k o
  | _ => None
  end.

(** [String(v)], as a template literal applies it. An object is converted
    by its [toString]: that of [Object.prototype], unless the object has an
    own property of that name. In parsed JSON such a property is no
    function, so the conversion turns to [valueOf], which gives no
    primitive either, and throws a [TypeError]. An array joins the
    conversions of its items, [null] giving the empty string. *)
Fixpoint ToString (v : value) : outcome jsstring :=
  match v with
  | VNull => Return (js "null")
  | VBool true => Return (js "true")
  | VBool false => Return (js "false")
  | VNum n => Return (JsString.of_Z n)
  | VStr s => Return s
  | VArr items =>
      parts <-
        (fix each (l : list value) : outcome (list jsstring) :=
           match l with
           | [] => Return []
           | x :: rest =>
               part <- match x with VNull => Return [] | _ => ToString x end ;;
               parts <- each rest ;;
               Return (part :: parts)
           end) items ;;
      Return (JsString.join (js ",") parts)
  | VObj props =>
      match Obj.lookup (js "toString") props with
      | Some _ => Throw TypeError
      | None => Return (js "[object Object]")
      end
  end.

(** A substitution of a template literal. *)
Definition template (v : option value) : outcome jsstring :=
  match v with
  | None => Return (js "undefined")
  | Some x => ToString x
  end.

End Js.

(** ** canonical.ts: deterministic JSON *)

Module Canonical.

Definition hex4 (c : N) : jsstring :=
  [JsString.hex_digit ((c / 4096) mod 16); JsString.hex_digit ((c / 256) mod 16);
   JsString.hex_digit ((c / 16) mod 16); JsString.hex_digit (c mod 16)].

Definition UnicodeEscape (c : N) : jsstring := js "\u" ++ hex4 c.

(** The body of [QuoteJSONString]: the short escapes, [\uXXXX] for the
    other control characters and for lone surrogates, everything else
    as it is. Code unit 34 is the double quote, 92 the backslash. *)
Fixpoint quote_units (s : jsstring) : jsstring :=
  match s with
  | [] => []
  | c :: rest =>
      if N.eqb c 8 then js "\b" ++ quote_units rest
      else if N.eqb c 9 then js "\t" ++ quote_units rest
      else if N.eqb c 10 then js "\n" ++ quote_units rest
      else if N.eqb c 12 then js "\f" ++ quote_units rest
      else if N.eqb c 13 then js "\r" ++ quote_units rest
      else if N.eqb c 34 then [92; 34]%N ++ quote_units rest
      else if N.eqb c 92 then [92; 92]%N ++ quote_units rest
      else if (c <? 32)%N then UnicodeEscape c ++ quote_units rest
      else if JsString.is_high_surrogate c then
        match rest with
        | d :: rest' =>
            if JsString.is_low_surrogate d then c :: d :: quote_units rest'
            else UnicodeEscape c ++ quote_units rest
        | [] => UnicodeEscape c
        end
      else if JsString.is_low_surrogate c then UnicodeEscape c ++ quote_units rest
      else c :: quote_units rest
  end.

Definition QuoteJSONString (s : jsstring) : jsstring :=
  [34%N] ++ quote_units s ++ [34%N].

(** [sorted[k] = v] on the object literal [{}]: the key [__proto__] reaches
    the accessor of [Object.prototype] and creates no own property. *)
Definition assign {A} (sorted : Obj.t A) (k : jsstring) (v : A) : Obj.t A :=
  if JsString.eqb k (js "__proto__") then sorted else Obj.set k v sorted.

(** [sortedReplacer] on an object: the keys sorted, then copied one by one
    into a fresh object. The values are copied untouched, so the function
    is polymorphic in them. A value read back from a key of [Object.keys]
    is never [undefined] for parsed JSON. *)
Definition sortedReplacer {A} (value : Obj.t A) : Obj.t A :=
  let keys := Js.sort (Obj.OwnPropertyKeys value) in
  fold_left
    (fun sorted k =>
       match Obj.lookup k value with
       | Some v => assign sorted k v
       | None => sorted
       end)
    keys [].

(** [SerializeJSONObject] without indentation, on the already serialized
    property values. *)
Definition SerializeJSONObject (o : Obj.t jsstring) : jsstring :=
  js "{"
    ++ JsString.join (js ",")
         (flat_map
            (fun k =>
               match Obj.lookup k o with
               | Some s => [QuoteJSONString k ++ js ":" ++ s]
               | None => []
               end)
            (Obj.OwnPropertyKeys o))
    ++ js "}".

Definition SerializeJSONArray (items : list jsstring) : jsstring :=
  js "[" ++ JsString.join (js ",") items ++ js "]".

(** [JSON.stringify(v, sortedReplacer)]. The engine calls the replacer on
    an object and then serialises the properties of what it returns; here
    the properties are serialised first and the replacer orders the
    results, which is the same by [sortedReplacer_map] below and keeps the
    recursion structural. *)
Fixpoint SerializeJSONProperty (v : value) : jsstring :=
  match v with
  | VNull => js "null"
  | VBool true => js "true"
  | VBool false => js "false"
  | VNum n => JsString.of_Z n
  | VStr s => QuoteJSONString s
  | VArr items => SerializeJSONArray (map SerializeJSONProperty items)
  | VObj props =>
      SerializeJSONObject
        (sortedReplacer
           (map (fun kv => (fst kv, SerializeJSONProperty (snd kv))) props))
  end.

Definition toCanonical (obj : value) : jsstring := SerializeJSONProperty obj.

Definition canonicalEqual (a b : value) : bool :=
  JsString.eqb (toCanonical a) (toCanonical b).

End Canonical.

(** ** The environment of the kernel *)

(** What the kernel calls and does not define: the @noble hash, hex and
    signature functions and the engine's case mapping, number parsing and
    date parsing. [hexToBytes] is [None] when the library throws, and
    [ed25519_verify sig msg pub] is [false] also then, since
    [verifySignature] catches both. In the two parsers [None] stands for
    [NaN]. *)
Record Env : Type := {
  blake3 : list N -> list N;
  hexToBytes : jsstring -> option (list N);
  ed25519_verify : list N -> list N -> list N -> bool;
  toLowerCase : jsstring -> jsstring;
  StringToNumber : jsstring -> option Z;
  Date_parse : jsstring -> option Z
}.

(** ** crypto.ts *)

Section Kernel.

Context (env : Env).

Definition OERC_S_DOMAIN : jsstring := js "OERC-S:v1:".

(** [hex.toLowerCase().replace(/^0x/, '')]. *)
Definition normalizeHex (hex : jsstring) : jsstring :=
  match toLowerCase env hex with
  | 48%N :: 120%N :: rest => rest
  | s => s
  end.

Definition hexToUint8Array (hex : jsstring) : option (list N) :=
  hexToBytes env (normalizeHex hex).

Definition bytesToHex (bytes : list N) : jsstring :=
  flat_map (fun b => [JsString.hex_digit (b / 16); JsString.hex_digit (b mod 16)]) bytes.

Definition uint8ArrayToHex (bytes : list N) : jsstring := bytesToHex bytes.

Definition createSigningMessage (message : list N) (suiteId : jsstring) : list N :=
  JsString.utf8 (OERC_S_DOMAIN ++ suiteId ++ js ":") ++ message.

Definition computeBlake3 (data : jsstring) : jsstring :=
  uint8ArrayToHex (blake3 env (JsString.utf8 data)).

(** [verifySignature]: the suite test is outside the [try] block, so an
    unsupported suite throws; everything after it answers [false] on
    failure. *)
Definition verifySignature (pubkey message sig suiteId : jsstring) : outcome bool :=
  if negb (JsString.eqb suiteId (js "ed25519-blake3")) then
    Throw (Error (js "Unsupported suite: " ++ suiteId
                    ++ js ". Only ed25519-blake3 is currently supported."))
  else
    Return
      match hexToUint8Array pubkey with
      | None => false
      | Some pubKeyBytes =>
          if negb (Nat.eqb (List.length pubKeyBytes) 32) then false
          else
            match hexToUint8Array sig with
            | None => false
            | Some sigBytes =>
                if negb (Nat.eqb (List.length sigBytes) 64) then false
                else
                  let messageBytes := JsString.utf8 message in
                  let signingMessage := createSigningMessage messageBytes suiteId in
                  let messageHash := blake3 env signingMessage in
                  ed25519_verify env sigBytes messageHash pubKeyBytes
            end
      end.

(** ** canonical.ts: object ids *)

Definition computeObjectId (obj : value) : jsstring :=
  computeBlake3 (Canonical.toCanonical obj).

Definition computeCanonicalId (obj : value) : jsstring :=
  computeBlake3 (Canonical.toCanonical obj).

End Kernel.

(** ** types.ts *)

Module Signature.
Record t : Type := {
  pubkey : jsstring;
  sig : jsstring;
  suite_id : jsstring;
  signed_at : option jsstring
}.
End Signature.

(** A sigset as the verifier meets it: [threshold] is a number, or
    [undefined] when the JSON gives none ([None]), and an entry of
    [signatures] is a signature or [null] ([None]). *)
Module Sigset.
Record t : Type := {
  threshold : option Z;
  signatures : list (option Signature.t)
}.
End Sigset.

(** A signed object as the verifier reads it: [Intent], [Collapse] and
    [Segment] carry [sigset], [Frame] carries [signature]; a property that is
    missing is [None]. The body stays the JSON object it is, because the id
    and the signature cover all of it. *)
Module SignedObject.
Record t : Type := {
  object_type : jsstring;
  body : option value;
  sigset : option Sigset.t;
  signature : option Signature.t
}.
End SignedObject.

Definition Intent : Type := SignedObject.t.
Definition Frame : Type := SignedObject.t.
Definition Collapse : Type := SignedObject.t.
Definition Segment : Type := SignedObject.t.

Module VerificationResult.
Record t : Type := {
  valid : bool;
  errors : list jsstring;
  warnings : option (list jsstring)
}.
End VerificationResult.

Definition isIntent (obj : SignedObject.t) : bool :=
  JsString.eqb (SignedObject.object_type obj) (js "intent").
Definition isFrame (obj : SignedObject.t) : bool :=
  JsString.eqb (SignedObject.object_type obj) (js "frame").
Definition isCollapse (obj : SignedObject.t) : bool :=
  JsString.eqb (SignedObject.object_type obj) (js "collapse").
Definition isSegment (obj : SignedObject.t) : bool :=
  JsString.eqb (SignedObject.object_type obj) (js "segment").
Definition isSignedObject (obj : SignedObject.t) : bool :=
  isIntent obj || isFrame obj || isCollapse obj || isSegment obj.

(** ** verify.ts *)

Module SigsetResult.
Record t : Type := {
  valid : bool;
  validCount : Z;
  errors : list jsstring
}.
End SigsetResult.

Section Verify.

Context (env : Env).

(** [errors.push(msg)] under a condition. *)
Definition push_when (c : bool) (errors : list jsstring) (msg : jsstring) : list jsstring :=
  if c then errors ++ [msg] else errors.

(** The same for a message that is a template literal over JSON values: it
    is evaluated only when the condition holds, and a conversion in it may
    throw. *)
Definition push_template (c : bool) (errors : list jsstring) (msg : outcome jsstring)
    : outcome (list jsstring) :=
  if c then (text <- msg ;; Return (errors ++ [text])) else Return errors.

Definition nonempty {A} (l : list A) : bool :=
  match l with [] => false | _ => true end.

(** [base.k] where [base] may be [undefined] or [null]. *)
Definition Get (base : option value) (k : jsstring) : outcome (option value) :=
  match base with
  | None | Some VNull => Throw TypeError
  | Some v => Return (Js.prop v k)
  end.

(** [v.toLowerCase()]: only a string has the method. *)
Definition call_toLowerCase (v : option value) : outcome jsstring :=
  match v with
  | Some (VStr s) => Return (toLowerCase env s)
  | _ => Throw TypeError
  end.

(** [ToNumber]; [None] is [NaN]. An object or an array is first converted
    to a primitive, which for parsed JSON is the string [ToString] gives,
    or its [TypeError]. *)
Definition ToNumber (v : option value) : outcome (option Z) :=
  match v with
  | None => Return None
  | Some VNull => Return (Some 0%Z)
  | Some (VBool b) => Return (Some (if b then 1 else 0)%Z)
  | Some (VNum n) => Return (Some n)
  | Some x => s <- Js.ToString x ;; Return (StringToNumber env s)
  end.

(** [n < v] for a number [n]. *)
Definition number_lt (n : Z) (v : option value) : outcome bool :=
  m <- ToNumber v ;;
  Return match m with
         | Some m => (n <? m)%Z
         | None => false
         end.

(** The time value of [new Date(v)]; [None] is an invalid date. *)
Definition new_Date (v : value) : outcome (option Z) :=
  match v with
  | VStr s => Return (Date_parse env s)
  | VNum n => Return (if (Z.abs n <=? 8640000000000000)%Z then Some n else None)
  | VBool b => Return (Some (if b then 1 else 0)%Z)
  | VNull => Return (Some 0%Z)
  | VArr _ | VObj _ => s <- Js.ToString v ;; Return (Date_parse env s)
  end.

(** [expiresAt < now] on two dates: false when [expiresAt] is invalid. *)
Definition date_before (expiresAt : option Z) (now : Z) : bool :=
  match expiresAt with
  | Some t => (t <? now)%Z
  | None => false
  end.

(** [validCount >= threshold] and [validCount < threshold]: with a
    threshold that is [undefined] both are false. *)
Definition reaches (validCount : Z) (threshold : option Z) : bool :=
  match threshold with
  | Some t => (t <=? validCount)%Z
  | None => false
  end.

Definition falls_short (validCount : Z) (threshold : option Z) : bool :=
  match threshold with
  | Some t => (validCount <? t)%Z
  | None => false
  end.

(** A [Set<string>]: [has] and [add]. *)
Definition Set_has (s : list jsstring) (x : jsstring) : bool :=
  existsb (JsString.eqb x) s.
Definition Set_add (s : list jsstring) (x : jsstring) : list jsstring :=
  if Set_has s x then s else s ++ [x].

Definition extractBodyForSigning (body : value) : jsstring :=
  Canonical.toCanonical body.

Definition success (warnings : option (list jsstring)) : VerificationResult.t :=
  {| VerificationResult.valid := true;
     VerificationResult.errors := [];
     VerificationResult.warnings := warnings |}.

Definition failure (errors : list jsstring) : VerificationResult.t :=
  {| VerificationResult.valid := false;
     VerificationResult.errors := errors;
     VerificationResult.warnings := None |}.

(** [warnings.length > 0 ? warnings : undefined]. *)
Definition some_warnings (warnings : list jsstring) : option (list jsstring) :=
  if nonempty warnings then Some warnings else None.

(** The loop of [verifySigset] from index [i] on. An entry that is [null]
    is passed over: [if (!sig) continue]. *)
Fixpoint verifySigset_loop (message : jsstring)
    (authorizedPubkeys : option (list jsstring)) (i : Z)
    (sigs : list (option Signature.t)) (errors : list jsstring) (validCount : Z)
    : outcome (list jsstring * Z) :=
  match sigs with
  | [] => Return (errors, validCount)
  | None :: rest =>
      verifySigset_loop message authorizedPubkeys (i + 1) rest errors validCount
  | Some sig :: rest =>
      let unauthorized :=
        match authorizedPubkeys with
        | Some set => negb (Set_has set (toLowerCase env (Signature.pubkey sig)))
        | None => false
        end in
      if unauthorized then
        verifySigset_loop message authorizedPubkeys (i + 1) rest
          (errors ++ [js "Signature " ++ JsString.of_Z i ++ js ": signer "
                        ++ Signature.pubkey sig ++ js " is not authorized"])
          validCount
      else
        isValid <- verifySignature env (Signature.pubkey sig) message
                     (Signature.sig sig) (Signature.suite_id sig) ;;
        if isValid then
          verifySigset_loop message authorizedPubkeys (i + 1) rest errors
            (validCount + 1)
        else
          verifySigset_loop message authorizedPubkeys (i + 1) rest
            (errors ++ [js "Signature " ++ JsString.of_Z i
                          ++ js ": invalid signature from " ++ Signature.pubkey sig])
            validCount
  end.

Definition Threshold_not_met (validCount : Z) (threshold : option Z) : jsstring :=
  js "Threshold not met: " ++ JsString.of_Z validCount
    ++ js " valid signatures, need "
    ++ match threshold with
       | Some t => JsString.of_Z t
       | None => js "undefined"
       end.

Definition verifySigset (sigset : Sigset.t) (message : jsstring)
    (authorizedPubkeys : option (list jsstring)) : outcome SigsetResult.t :=
  r <- verifySigset_loop message authorizedPubkeys 0 (Sigset.signatures sigset) [] 0 ;;
  let '(errors, validCount) := r in
  let valid := reaches validCount (Sigset.threshold sigset) in
  let errors :=
    push_when (negb valid && falls_short validCount (Sigset.threshold sigset)) errors
      (Threshold_not_met validCount (Sigset.threshold sigset)) in
  Return {| SigsetResult.valid := valid;
            SigsetResult.validCount := validCount;
            SigsetResult.errors := errors |}.

(** [for (const signer of signers) set.add(signer.pubkey.toLowerCase())]. *)
Fixpoint add_signers (signers : list value) (set : list jsstring)
    : outcome (list jsstring) :=
  match signers with
  | [] => Return set
  | signer :: rest =>
      pubkey <- Get (Some signer) (js "pubkey") ;;
      lower <- call_toLowerCase pubkey ;;
      add_signers rest (Set_add set lower)
  end.

(** The set built from [policy.authorized_signers]. A truthy value that is
    no array ends in a [TypeError]: it is not iterable, or it is a string
    whose characters have no [pubkey]. *)
Definition authorized_set (policy : option value) : outcome (list jsstring) :=
  signers <- Get policy (js "authorized_signers") ;;
  if Js.truthy signers then
    match signers with
    | Some (VArr items) => add_signers items []
    | _ => Throw TypeError
    end
  else Return [].

(** The messages that quote a JSON value of the body. *)
Definition id_mismatch (body : value) (computedId : jsstring) : outcome jsstring :=
  id <- Js.template (Js.prop body (js "id")) ;;
  Return (js "ID mismatch: body.id is " ++ id ++ js ", computed ID is " ++ computedId).

Definition min_signers_not_met (validCount : Z) (min_signers : option value)
    : outcome jsstring :=
  need <- Js.template min_signers ;;
  Return (js "Policy min_signers not met: " ++ JsString.of_Z validCount
            ++ js " valid, need " ++ need).

Definition Intent_has_expired (expires_at : option value) : outcome jsstring :=
  at_ <- Js.template expires_at ;;
  Return (js "Intent has expired at " ++ at_).

Definition pubkey_not_executor (pubkey : jsstring) (executor : option value)
    : outcome jsstring :=
  name <- Js.template executor ;;
  Return (js "Signature pubkey " ++ pubkey ++ js " does not match executor " ++ name).

Definition Frame_intent_mismatch (body : value) (intent_body_id : option value)
    : outcome jsstring :=
  intent_id <- Js.template (Js.prop body (js "intent_id")) ;;
  id <- Js.template intent_body_id ;;
  Return (js "Frame intent_id " ++ intent_id ++ js " does not match intent " ++ id).

Definition executor_not_authorized (executor : option value) : outcome jsstring :=
  name <- Js.template executor ;;
  Return (js "Executor " ++ name ++ js " is not in intent's authorized_signers").

Definition frame_count_mismatch (frame_count : option value) (length : Z)
    : outcome jsstring :=
  count <- Js.template frame_count ;;
  Return (js "Summary frame_count (" ++ count
            ++ js ") does not match frame_ids length ("
            ++ JsString.of_Z length ++ js ")").

Definition frame_not_provided (frameId : value) : outcome jsstring :=
  id <- Js.ToString frameId ;;
  Return (js "Frame " ++ id ++ js " referenced in collapse but not provided").

Definition frame_of_other_intent (frame_id frame_intent_id intent_id : option value)
    : outcome jsstring :=
  id <- Js.template frame_id ;;
  has <- Js.template frame_intent_id ;;
  expected <- Js.template intent_id ;;
  Return (js "Frame " ++ id ++ js " has intent_id " ++ has ++ js ", expected "
            ++ expected).

Definition Invalid_object_type (expected got : jsstring) : jsstring :=
  js "Invalid object_type: expected '" ++ expected ++ js "', got '" ++ got ++ js "'".

(** [verifyIntent(intent)], up to its one look at the clock. *)
Definition verifyIntent_clocked (intent : Intent) : clocked VerificationResult.t :=
  let errors : list jsstring := [] in
  let warnings : list jsstring := [] in
  if negb (JsString.eqb (SignedObject.object_type intent) (js "intent")) then
    Unread (Return (failure (errors ++ [Invalid_object_type (js "intent")
                                          (SignedObject.object_type intent)])))
  else
  match SignedObject.body intent with
  | None => Unread (Return (failure (errors ++ [js "Missing body"])))
  | Some body =>
  if negb (Js.truthy (Some body)) then
    Unread (Return (failure (errors ++ [js "Missing body"])))
  else
  let errors := push_when (negb (Js.truthy (Js.prop body (js "id")))) errors
                  (js "Missing body.id") in
  let errors := push_when (negb (Js.truthy (Js.prop body (js "version")))) errors
                  (js "Missing body.version") in
  let errors := push_when (negb (Js.truthy (Js.prop body (js "policy")))) errors
                  (js "Missing body.policy") in
  if nonempty errors then Unread (Return (failure errors)) else
  let computedId := computeObjectId env body in
  errors <~
    push_template
      (negb (Js.strict_eq (Js.prop body (js "id")) (Some (VStr computedId))))
      errors (id_mismatch body computedId) ;;
  let policy := Js.prop body (js "policy") in
  authorizedPubkeys <~ authorized_set policy ;;
  match SignedObject.sigset intent with
  | None => Unread (Return (failure (errors ++ [js "Missing sigset"])))
  | Some sigset =>
  let bodyCanonical := extractBodyForSigning body in
  sigResult <~ verifySigset sigset bodyCanonical (Some authorizedPubkeys) ;;
  let errors :=
    if negb (SigsetResult.valid sigResult)
    then errors ++ SigsetResult.errors sigResult else errors in
  min_signers <~ Get policy (js "min_signers") ;;
  too_few <~ (if Js.truthy min_signers
              then number_lt (SigsetResult.validCount sigResult) min_signers
              else Return false) ;;
  errors <~
    push_template too_few errors
      (min_signers_not_met (SigsetResult.validCount sigResult) min_signers) ;;
  expires_at <~ Get policy (js "expires_at") ;;
  let finish (warnings : list jsstring) : outcome VerificationResult.t :=
    if nonempty errors then Return (failure errors)
    else Return (success (some_warnings warnings)) in
  match expires_at with
  | Some e =>
      if Js.truthy expires_at then
        expiresAt <~ new_Date e ;;
        NewDate
          (fun now =>
             warnings <-
               push_template (date_before expiresAt now) warnings
                 (Intent_has_expired expires_at) ;;
             finish warnings)
      else Unread (finish warnings)
  | None => Unread (finish warnings)
  end
  end
  end.

(** [verifyIntent] when the clock shows [now]. *)
Definition verifyIntent (now : Z) (intent : Intent) : outcome VerificationResult.t :=
  at_time now (verifyIntent_clocked intent).

(** [verifyFrame(frame, intent?)]. *)
Definition verifyFrame (frame : Frame) (intent : option Intent)
    : outcome VerificationResult.t :=
  let errors : list jsstring := [] in
  let warnings : list jsstring := [] in
  if negb (JsString.eqb (SignedObject.object_type frame) (js "frame")) then
    Return (failure (errors ++ [Invalid_object_type (js "frame")
                                  (SignedObject.object_type frame)]))
  else
  match SignedObject.body frame with
  | None => Return (failure (errors ++ [js "Missing body"]))
  | Some body =>
  if negb (Js.truthy (Some body)) then
    Return (failure (errors ++ [js "Missing body"]))
  else
  let errors := push_when (negb (Js.truthy (Js.prop body (js "id")))) errors
                  (js "Missing body.id") in
  let errors := push_when (negb (Js.truthy (Js.prop body (js "intent_id")))) errors
                  (js "Missing body.intent_id") in
  let errors :=
    push_when
      (match Js.prop body (js "sequence") with Some (VNum _) => false | _ => true end)
      errors (js "Missing or invalid body.sequence") in
  let errors := push_when (negb (Js.truthy (Js.prop body (js "executor")))) errors
                  (js "Missing body.executor") in
  if nonempty errors then Return (failure errors) else
  let computedId := computeObjectId env body in
  errors <-
    push_template
      (negb (Js.strict_eq (Js.prop body (js "id")) (Some (VStr computedId))))
      errors (id_mismatch body computedId) ;;
  match SignedObject.signature frame with
  | None => Return (failure (errors ++ [js "Missing signature"]))
  | Some signature =>
  let bodyCanonical := extractBodyForSigning body in
  sigValid <- verifySignature env (Signature.pubkey signature) bodyCanonical
                (Signature.sig signature) (Signature.suite_id signature) ;;
  let errors := push_when (negb sigValid) errors (js "Invalid executor signature") in
  let executor := Js.prop body (js "executor") in
  executor_lower <- call_toLowerCase executor ;;
  errors <-
    push_template
      (negb (JsString.eqb (toLowerCase env (Signature.pubkey signature)) executor_lower))
      errors (pubkey_not_executor (Signature.pubkey signature) executor) ;;
  r <- match intent with
       | Some intent =>
           intent_body_id <- Get (SignedObject.body intent) (js "id") ;;
           errors <-
             push_template
               (negb (Js.strict_eq (Js.prop body (js "intent_id")) intent_body_id))
               errors (Frame_intent_mismatch body intent_body_id) ;;
           policy <- Get (SignedObject.body intent) (js "policy") ;;
           authorizedPubkeys <- authorized_set policy ;;
           executor_lower <- call_toLowerCase executor ;;
           warnings <-
             push_template (negb (Set_has authorizedPubkeys executor_lower)) warnings
               (executor_not_authorized executor) ;;
           Return (errors, warnings)
       | None => Return (errors, warnings)
       end ;;
  let '(errors, warnings) := r in
  if nonempty errors then Return (failure errors)
  else Return (success (some_warnings warnings))
  end
  end.

(** [new Set(frames.map((f) => f.body.id))]; membership is [===] on what
    the kernel stores there. *)
Fixpoint frame_ids_of (frames : list Frame) : outcome (list (option value)) :=
  match frames with
  | [] => Return []
  | f :: rest =>
      id <- Get (SignedObject.body f) (js "id") ;;
      ids <- frame_ids_of rest ;;
      Return (id :: ids)
  end.

Definition IdSet_has (s : list (option value)) (x : option value) : bool :=
  existsb (Js.strict_eq x) s.

(** The loop over [body.frame_ids] in [verifyCollapse]. *)
Fixpoint check_frame_ids (frameIdSet : list (option value)) (frame_ids : list value)
    (warnings : list jsstring) : outcome (list jsstring) :=
  match frame_ids with
  | [] => Return warnings
  | frameId :: rest =>
      warnings <-
        push_template (negb (IdSet_has frameIdSet (Some frameId))) warnings
          (frame_not_provided frameId) ;;
      check_frame_ids frameIdSet rest warnings
  end.

(** The second loop over [frames] in [verifyCollapse]. *)
Fixpoint check_frames_intent (collapse_body : value) (frames : list Frame)
    (errors : list jsstring) : outcome (list jsstring) :=
  match frames with
  | [] => Return errors
  | frame :: rest =>
      frame_intent_id <- Get (SignedObject.body frame) (js "intent_id") ;;
      errors <-
        (if negb (Js.strict_eq frame_intent_id (Js.prop collapse_body (js "intent_id")))
         then
           frame_id <- Get (SignedObject.body frame) (js "id") ;;
           text <- frame_of_other_intent frame_id frame_intent_id
                     (Js.prop collapse_body (js "intent_id")) ;;
           Return (errors ++ [text])
         else Return errors) ;;
      check_frames_intent collapse_body rest errors
  end.

(** [verifyCollapse(collapse, frames?)]. *)
Definition verifyCollapse (collapse : Collapse) (frames : option (list Frame))
    : outcome VerificationResult.t :=
  let errors : list jsstring := [] in
  let warnings : list jsstring := [] in
  if negb (JsString.eqb (SignedObject.object_type collapse) (js "collapse")) then
    Return (failure (errors ++ [Invalid_object_type (js "collapse")
                                  (SignedObject.object_type collapse)]))
  else
  match SignedObject.body collapse with
  | None => Return (failure (errors ++ [js "Missing body"]))
  | Some body =>
  if negb (Js.truthy (Some body)) then
    Return (failure (errors ++ [js "Missing body"]))
  else
  let errors := push_when (negb (Js.truthy (Js.prop body (js "id")))) errors
                  (js "Missing body.id") in
  let errors := push_when (negb (Js.truthy (Js.prop body (js "intent_id")))) errors
                  (js "Missing body.intent_id") in
  let errors :=
    push_when
      (match Js.prop body (js "frame_ids") with Some (VArr _) => false | _ => true end)
      errors (js "Missing or invalid body.frame_ids") in
  if nonempty errors then Return (failure errors) else
  let computedId := computeObjectId env body in
  errors <-
    push_template
      (negb (Js.strict_eq (Js.prop body (js "id")) (Some (VStr computedId))))
      errors (id_mismatch body computedId) ;;
  match SignedObject.sigset collapse with
  | None => Return (failure (errors ++ [js "Missing sigset"]))
  | Some sigset =>
  let bodyCanonical := extractBodyForSigning body in
  sigResult <- verifySigset sigset bodyCanonical None ;;
  let errors :=
    if negb (SigsetResult.valid sigResult)
    then errors ++ SigsetResult.errors sigResult else errors in
  let frame_ids :=
    match Js.prop body (js "frame_ids") with Some (VArr ids) => ids | _ => [] end in
  let summary := Js.prop body (js "summary") in
  warnings <-
    (if negb (Js.truthy summary) then Return (warnings ++ [js "Missing body.summary"])
     else
       frame_count <- Get summary (js "frame_count") ;;
       push_template
         (negb (Js.strict_eq frame_count (Some (VNum (Z.of_nat (List.length frame_ids))))))
         warnings
         (frame_count_mismatch frame_count (Z.of_nat (List.length frame_ids)))) ;;
  r <- match frames with
       | Some ((_ :: _) as frames) =>
           frameIdSet <- frame_ids_of frames ;;
           warnings <- check_frame_ids frameIdSet frame_ids warnings ;;
           errors <- check_frames_intent body frames errors ;;
           Return (errors, warnings)
       | _ => Return (errors, warnings)
       end ;;
  let '(errors, warnings) := r in
  if nonempty errors then Return (failure errors)
  else Return (success (some_warnings warnings))
  end
  end.

(** [verifySegment]. *)
Definition verifySegment (segment : Segment) : outcome VerificationResult.t :=
  let errors : list jsstring := [] in
  if negb (JsString.eqb (SignedObject.object_type segment) (js "segment")) then
    Return (failure (errors ++ [Invalid_object_type (js "segment")
                                  (SignedObject.object_type segment)]))
  else
  match SignedObject.body segment with
  | None => Return (failure (errors ++ [js "Missing body"]))
  | Some body =>
  if negb (Js.truthy (Some body)) then
    Return (failure (errors ++ [js "Missing body"]))
  else
  let computedId := computeObjectId env body in
  errors <-
    push_template
      (negb (Js.strict_eq (Js.prop body (js "id")) (Some (VStr computedId))))
      errors (id_mismatch body computedId) ;;
  match SignedObject.sigset segment with
  | None => Return (failure (errors ++ [js "Missing sigset"]))
  | Some sigset =>
  let bodyCanonical := extractBodyForSigning body in
  sigResult <- verifySigset sigset bodyCanonical None ;;
  let errors :=
    if negb (SigsetResult.valid sigResult)
    then errors ++ SigsetResult.errors sigResult else errors in
  if nonempty errors then Return (failure errors)
  else Return (success None)
  end
  end.

(** [verify]: dispatch on [object_type]. *)
Definition verify (now : Z) (obj : SignedObject.t) : outcome VerificationResult.t :=
  if isIntent obj then verifyIntent now obj
  else if isFrame obj then verifyFrame obj None
  else if isCollapse obj then verifyCollapse obj None
  else if isSegment obj then verifySegment obj
  else Return (failure [js "Unknown object type"]).

Definition verifySingleSignature (signature : Signature.t) (message : jsstring)
    : outcome VerificationResult.t :=
  valid <- verifySignature env (Signature.pubkey signature) message
             (Signature.sig signature) (Signature.suite_id signature) ;;
  if valid then Return (success None) else Return (failure [js "Invalid signature"]).

(** ** cli.ts: how the commands derive an id *)

(** [issue-intent] and [emit-frame]:
    [if (!body.id) { body.id = computeObjectId(body); }]. *)
Definition assign_id_if_missing (body : Obj.t value) : Obj.t value :=
  if negb (Js.truthy (Obj.lookup (js "id") body)) then
    Obj.set (js "id") (VStr (computeObjectId env (VObj body))) body
  else body.

(** [issue-intent] on a bare body: the id is assigned when missing, the
    canonical body is signed and the signed Intent asks for one signature.
    [signMessage] stands for the call of that name with the private key
    and the suite fixed, [signed_at] for the time stamp taken. *)
Definition issue_intent (signMessage : jsstring -> jsstring) (publicKey : jsstring)
    (signed_at : jsstring) (body : Obj.t value) : Intent :=
  let body := assign_id_if_missing body in
  let bodyCanonical := Canonical.toCanonical (VObj body) in
  let sig := signMessage bodyCanonical in
  let signature :=
    {| Signature.pubkey := publicKey;
       Signature.sig := sig;
       Signature.suite_id := js "ed25519-blake3";
       Signature.signed_at := Some signed_at |} in
  {| SignedObject.object_type := js "intent";
     SignedObject.body := Some (VObj body);
     SignedObject.sigset :=
       Some {| Sigset.threshold := Some 1%Z; Sigset.signatures := [Some signature] |};
     SignedObject.signature := None |}.

(** [collapse]: the body is built with [id: ''] and then
    [collapseBody.id = computeObjectId(collapseBody)]. *)
Definition assign_collapse_id (collapseBody : Obj.t value) : Obj.t value :=
  Obj.set (js "id") (VStr (computeObjectId env (VObj collapseBody))) collapseBody.

End Verify.

(** ** Concrete environments

    Executable stand-ins for the imported functions, used where a statement
    is evaluated on an input. The digest is a parameter; the signature check
    accepts exactly the signature made of the public key followed by the
    message hash. *)

Module Sim.

Fixpoint bytes_eqb (a b : list N) : bool :=
  match a, b with
  | [], [] => true
  | x :: a', y :: b' => N.eqb x y && bytes_eqb a' b'
  | _, _ => false
  end.

Definition accepts (sig msg pub : list N) : bool := bytes_eqb sig (pub ++ msg).

Definition asciiToBase16 (c : N) : option N :=
  if (48 <=? c)%N && (c <=? 57)%N then Some (c - 48)%N
  else if (65 <=? c)%N && (c <=? 70)%N then Some (c - 55)%N
  else if (97 <=? c)%N && (c <=? 102)%N then Some (c - 87)%N
  else None.

(** Hex decoding that fails on an odd length and on a character that is no
    hex digit. *)
Fixpoint hex_decode (hex : jsstring) : option (list N) :=
  match hex with
  | [] => Some []
  | [_] => None
  | c1 :: c2 :: rest =>
      match asciiToBase16 c1, asciiToBase16 c2, hex_decode rest with
      | Some n1, Some n2, Some bytes => Some ((n1 * 16 + n2)%N :: bytes)
      | _, _, _ => None
      end
  end.

(** A digest that is the same for every message: 32 zero bytes. *)
Definition zero_digest (_ : list N) : list N := repeat 0%N 32.

(** A digest that tells messages of different lengths apart: the length in
    the first four bytes, then zeros. *)
Definition length_digest (m : list N) : list N :=
  let n := N.of_nat (List.length m) in
  [(n / 16777216) mod 256; (n / 65536) mod 256; (n / 256) mod 256; n mod 256]%N
    ++ repeat 0%N 28.

Definition decimal (s : jsstring) : option Z :=
  match s with
  | [] => Some 0%Z
  | _ => if forallb Obj.is_digit s then Some (Z.of_N (Obj.digits_value s)) else None
  end.

Definition days_from_civil (y m d : Z) : Z :=
  let y := if (m <=? 2)%Z then (y - 1)%Z else y in
  let era := (y / 400)%Z in
  let yoe := (y - era * 400)%Z in
  let doy := ((153 * (if (2 <? m)%Z then m - 3 else m + 9) + 2) / 5 + d - 1)%Z in
  let doe := (yoe * 365 + yoe / 4 - yoe / 100 + doy)%Z in
  (era * 146097 + doe - 719468)%Z.

(** [Date.parse] on the form [YYYY-MM-DDTHH:MM:SSZ]; [NaN] otherwise. *)
Definition iso_date (s : jsstring) : option Z :=
  match s with
  | [y1; y2; y3; y4; 45; m1; m2; 45; d1; d2; 84; h1; h2; 58; i1; i2; 58; s1; s2; 90]%N =>
      if forallb Obj.is_digit [y1; y2; y3; y4; m1; m2; d1; d2; h1; h2; i1; i2; s1; s2]
      then
        (let num := fun l : jsstring => Z.of_N (Obj.digits_value l) in
         Some ((((days_from_civil (num [y1; y2; y3; y4]) (num [m1; m2]) (num [d1; d2]) * 24
                  + num [h1; h2]) * 60 + num [i1; i2]) * 60 + num [s1; s2]) * 1000)%Z)
      else None
  | _ => None
  end.

(** The signature [accepts] takes for [pubkey] on [message]: what
    [signMessage] returns in this environment. *)
Definition sign (digest : list N -> list N) (pubkey message : jsstring) : jsstring :=
  pubkey ++ bytesToHex
              (digest (createSigningMessage (JsString.utf8 message) (js "ed25519-blake3"))).

Definition env (digest : list N -> list N) : Env :=
  {| blake3 := digest;
     hexToBytes := hex_decode;
     ed25519_verify := accepts;
     toLowerCase := JsString.ascii_lower;
     StringToNumber := decimal;
     Date_parse := iso_date |}.

End Sim.

(** * Vocabulary of the statements *)

(** A returned result is consistent when its [valid] flag says exactly
    that the error list is empty. A call that throws returns no result. *)
Definition consistent (m : outcome VerificationResult.t) : Prop :=
  match m with
  | Return r => VerificationResult.valid r = true <-> VerificationResult.errors r = []
  | Throw _ => True
  end.

(** A signer passes the authorization test of [verifySigset]: no set was
    supplied, or the lower-cased public key is in it. *)
Definition signer_authorized (env : Env) (authorizedPubkeys : option (list jsstring))
    (sig : Signature.t) : bool :=
  match authorizedPubkeys with
  | Some set => Set_has set (toLowerCase env (Signature.pubkey sig))
  | None => true
  end.

Definition supported_suite (sig : Signature.t) : bool :=
  JsString.eqb (Signature.suite_id sig) (js "ed25519-blake3").

Definition Unsupported_suite (suiteId : jsstring) : exn :=
  Error (js "Unsupported suite: " ++ suiteId
           ++ js ". Only ed25519-blake3 is currently supported.").

(** The entries of [signatures] that are signatures, not [null]. *)
Definition present (sigs : list (option Signature.t)) : list Signature.t :=
  flat_map (fun entry => match entry with Some sig => [sig] | None => [] end) sigs.

(** The sigset with one more signature at the end. *)
Definition with_signature (sigset : Sigset.t) (sig : Signature.t) : Sigset.t :=
  {| Sigset.threshold := Sigset.threshold sigset;
     Sigset.signatures := Sigset.signatures sigset ++ [Some sig] |}.



(** The conversion of [v] throws: [v] is an object with an own [toString]
    property, or an array that holds one. *)
Definition unconvertible (v : option value) : Prop :=
  Js.template v = Throw TypeError.

(** What a caller acts on: the flag and the error list of a returned
    result, or the exception. *)
Definition verdict (m : outcome VerificationResult.t) : outcome (bool * list jsstring) :=
  match m with
  | Return r => Return (VerificationResult.valid r, VerificationResult.errors r)
  | Throw e => Throw e
  end.

(** The error list of a returned result stays within [M]. *)
Definition errors_within (M : list jsstring) (m : outcome VerificationResult.t) : Prop :=
  match m with
  | Return r => incl (VerificationResult.errors r) M
  | Throw _ => True
  end.

(** The text of a message, when its conversions return. *)
Definition said (msg : outcome jsstring) : list jsstring :=
  match msg with
  | Return text => [text]
  | Throw _ => []
  end.

(** Every error message [verifyFrame] can put in its result for this frame
    and this parent Intent. *)
Definition frame_messages (env : Env) (frame : Frame) (intent : option Intent)
    : list jsstring :=
  [Invalid_object_type (js "frame") (SignedObject.object_type frame);
   js "Missing body";
   js "Missing body.id";
   js "Missing body.intent_id";
   js "Missing or invalid body.sequence";
   js "Missing body.executor";
   js "Missing signature";
   js "Invalid executor signature"]
  ++ match SignedObject.body frame with
     | Some body =>
         said (id_mismatch body (computeObjectId env body))
         ++ match SignedObject.signature frame with
            | Some signature =>
                said (pubkey_not_executor (Signature.pubkey signature)
                        (Js.prop body (js "executor")))
            | None => []
            end
         ++ match intent with
            | Some intent =>
                match SignedObject.body intent with
                | Some intent_body =>
                    said (Frame_intent_mismatch body (Js.prop intent_body (js "id")))
                | None => []
                end
            | None => []
            end
     | None => []
     end.

(** [code] is reported: the call returned [valid = false] and some error
    message includes [code]. *)
Definition rejected_with (code : jsstring) (m : outcome VerificationResult.t) : bool :=
  match m with
  | Return r =>
      negb (VerificationResult.valid r)
      && existsb (fun e => JsString.includes e code) (VerificationResult.errors r)
  | Throw _ => false
  end.

Definition has_unit (c : N) (s : jsstring) : bool := existsb (N.eqb c) s.

(** The segments of a frame, read where the spec's data model puts them;
    the kernel's [FrameBody] has no such property and [verifyFrame] never
    reads one. *)
Definition segments_of (frame : Frame) : list value :=
  match SignedObject.body frame with
  | Some body =>
      match Js.prop body (js "segments") with
      | Some (VArr segments) => segments
      | _ => []
      end
  | None => []
  end.

(** The spec's path-continuity condition fails somewhere: two consecutive
    segments with [to_pubkey] different from the next [from_pubkey]. *)
Fixpoint discontinuous (segments : list value) : bool :=
  match segments with
  | [] => false
  | s1 :: rest =>
      match rest with
      | [] => false
      | s2 :: _ =>
          negb (Js.strict_eq (Js.prop s1 (js "to_pubkey")) (Js.prop s2 (js "from_pubkey")))
          || discontinuous rest
      end
  end.

(** The sum of the segments' [energy_partial]. *)
Definition energy_total (segments : list value) : Z :=
  fold_right
    (fun s acc =>
       match Js.prop s (js "energy_partial") with
       | Some (VNum n) => (n + acc)%Z
       | _ => acc
       end)
    0%Z segments.

Definition max_energy_of (intent : Intent) : option Z :=
  match SignedObject.body intent with
  | Some body =>
      match Js.prop body (js "max_energy") with
      | Some (VNum n) => Some n
      | _ => None
      end
  | None => None
  end.

(** Two values are the same JSON: equal scalars, arrays that agree item by
    item, and objects that hold the same properties in any order, with the
    same JSON under each key, at every depth. The keys of an object are
    pairwise distinct. *)
Inductive same_json : value -> value -> Prop :=
| same_null : same_json VNull VNull
| same_bool (b : bool) : same_json (VBool b) (VBool b)
| same_num (n : Z) : same_json (VNum n) (VNum n)
| same_str (s : jsstring) : same_json (VStr s) (VStr s)
| same_arr (items1 items2 : list value) :
    Forall2 same_json items1 items2 ->
    same_json (VArr items1) (VArr items2)
| same_obj (props1 props1' props2 : list (jsstring * value)) :
    NoDup (Obj.keys props1) ->
    Permutation props1 props1' ->
    Forall2 (fun p q => fst p = fst q /\ same_json (snd p) (snd q)) props1' props2 ->
    same_json (VObj props1) (VObj props2).

(** Induction on values that reaches inside arrays and objects. *)
Section ValueInd.
Variable P : value -> Prop.
Hypothesis Hnull : P VNull.
Hypothesis Hbool : forall b, P (VBool b).
Hypothesis Hnum : forall n, P (VNum n).
Hypothesis Hstr : forall s, P (VStr s).
Hypothesis Harr : forall items, Forall P items -> P (VArr items).
Hypothesis Hobj : forall props, Forall (fun kv => P (snd kv)) props -> P (VObj props).

Fixpoint value_nested_ind (v : value) : P v :=
  match v with
  | VNull => Hnull
  | VBool b => Hbool b
  | VNum n => Hnum n
  | VStr s => Hstr s
  | VArr items =>
      Harr items
        ((fix go (l : list value) : Forall P l :=
            match l with
            | [] => Forall_nil P
            | x :: l' => Forall_cons x (value_nested_ind x) (go l')
            end) items)
  | VObj props =>
      Hobj props
        ((fix go (l : list (jsstring * value)) : Forall (fun kv => P (snd kv)) l :=
            match l with
            | [] => Forall_nil _
            | kv :: l' => Forall_cons kv (value_nested_ind (snd kv)) (go l')
            end) props)
  end.
End ValueInd.

(** The keys of an object in the order its canonical form writes them. *)
Definition emitted_keys {A} (o : Obj.t A) : list jsstring :=
  Obj.OwnPropertyKeys (Canonical.sortedReplacer o).

(** Each key is at most the next one in the order of their UTF-8 bytes. *)
Fixpoint utf8_ordered (keys : list jsstring) : bool :=
  match keys with
  | [] => true
  | k1 :: rest =>
      match rest with
      | [] => true
      | k2 :: _ => JsString.utf8_leb k1 k2 && utf8_ordered rest
      end
  end.

Definition is_ascii (k : jsstring) : bool := forallb (fun c => (c <? 128)%N) k.

(** A key that [sortedReplacer] and the engine treat as an ordinary
    string key: ASCII, no array index, not [__proto__]. *)
Definition plain_key (k : jsstring) : bool :=
  is_ascii k && negb (Obj.is_array_index k) && negb (JsString.eqb k (js "__proto__")).

(** Adjacent keys are in [leb] order. *)
Fixpoint leb_ordered (keys : list jsstring) : bool :=
  match keys with
  | [] => true
  | k1 :: rest =>
      match rest with
      | [] => true
      | k2 :: _ => JsString.leb k1 k2 && leb_ordered rest
      end
  end.

(** ** Sample data *)

Module Ex.

Definition alice : jsstring :=
  js "aa000000000000000000000000000000000000000000000000000000000000bb".

Definition zeros64 : jsstring :=
  js "0000000000000000000000000000000000000000000000000000000000000000".

(** The environment whose digest is constant: every object then has the
    id [zeros64], and a signature is the public key followed by it. *)
Definition env0 : Env := Sim.env Sim.zero_digest.

Definition env_len : Env := Sim.env Sim.length_digest.

Definition sig_alice : Signature.t :=
  {| Signature.pubkey := alice;
     Signature.sig := alice ++ zeros64;
     Signature.suite_id := js "ed25519-blake3";
     Signature.signed_at := None |}.

(** The same signer under the other suite of [SuiteId]. *)
Definition sig_alice_secp : Signature.t :=
  {| Signature.pubkey := alice;
     Signature.sig := alice ++ zeros64;
     Signature.suite_id := js "secp256k1-keccak256";
     Signature.signed_at := None |}.

Definition one_of_two : Sigset.t :=
  {| Sigset.threshold := Some 2%Z; Sigset.signatures := [Some sig_alice] |}.

Definition one_of_two_result : SigsetResult.t :=
  {| SigsetResult.valid := false;
     SigsetResult.validCount := 1;
     SigsetResult.errors := [js "Threshold not met: 1 valid signatures, need 2"] |}.

Definition policy_alice : value :=
  VObj [(js "min_signers", VNum 1);
        (js "threshold_weight", VNum 1);
        (js "authorized_signers",
          VArr [VObj [(js "pubkey", VStr alice); (js "weight", VNum 1)]]);
        (js "expires_at", VStr (js "2025-01-01T00:00:00Z"))].

Definition policy_nobody : value :=
  VObj [(js "min_signers", VNum 1);
        (js "threshold_weight", VNum 1);
        (js "authorized_signers", VArr [])].

Definition intent_body (policy : value) : value :=
  VObj [(js "version", VStr (js "1.0.0"));
        (js "id", VStr zeros64);
        (js "description", VStr (js "transfer"));
        (js "policy", policy);
        (js "constraints", VArr []);
        (js "payload", VObj []);
        (js "created_at", VStr (js "2024-12-31T00:00:00Z"))].

Definition intent (policy : value) (sigs : list Signature.t) : Intent :=
  {| SignedObject.object_type := js "intent";
     SignedObject.body := Some (intent_body policy);
     SignedObject.sigset :=
       Some {| Sigset.threshold := Some 1%Z; Sigset.signatures := map Some sigs |};
     SignedObject.signature := None |}.


Definition bob : jsstring :=
  js "b0b0000000000000000000000000000000000000000000000000000000000000".
Definition carol : jsstring :=
  js "ca40100000000000000000000000000000000000000000000000000000000000".
Definition dave : jsstring :=
  js "da7e000000000000000000000000000000000000000000000000000000000000".

Definition segment (index : Z) (from to : jsstring) (energy : Z) : value :=
  VObj [(js "index", VNum index);
        (js "from_pubkey", VStr from);
        (js "to_pubkey", VStr to);
        (js "energy_partial", VNum energy)].

(** [(alice -> bob), (carol -> dave)]: the path breaks between the two. *)
Definition broken_path : list value :=
  [segment 0 alice bob 500000000; segment 1 carol dave 495000000].

(** A chained path whose energies add up to 1,200,000,000. *)
Definition over_budget : list value :=
  [segment 0 alice bob 600000000; segment 1 bob carol 600000000].

Definition frame_body (segments : list value) : value :=
  VObj [(js "version", VStr (js "1.0.0"));
        (js "id", VStr zeros64);
        (js "intent_id", VStr zeros64);
        (js "sequence", VNum 1);
        (js "prev_frame_id", VNull);
        (js "executor", VStr alice);
        (js "executed_at", VStr (js "2025-01-01T00:10:00Z"));
        (js "status", VStr (js "completed"));
        (js "metrics", VArr []);
        (js "payload", VObj []);
        (js "segments", VArr segments)].

Definition frame (segments : list value) : Frame :=
  {| SignedObject.object_type := js "frame";
     SignedObject.body := Some (frame_body segments);
     SignedObject.sigset := None;
     SignedObject.signature := Some sig_alice |}.

(** The parent Intent, with the [max_energy] the spec gives an Intent. *)
Definition parent (max_energy : Z) : Intent :=
  {| SignedObject.object_type := js "intent";
     SignedObject.body :=
       Some (VObj [(js "version", VStr (js "1.0.0"));
                   (js "id", VStr zeros64);
                   (js "max_energy", VNum max_energy);
                   (js "policy", policy_alice)]);
     SignedObject.sigset :=
       Some {| Sigset.threshold := Some 1%Z; Sigset.signatures := [Some sig_alice] |};
     SignedObject.signature := None |}.

(** The same JSON written with the properties in two orders, at three
    depths. *)
Definition nested_a : value :=
  VObj [(js "b", VNum 1);
        (js "a", VObj [(js "y", VArr [VNull; VObj [(js "q", VNum 2); (js "p", VBool true)]]);
                       (js "x", VStr (js "s"))])].

Definition nested_b : value :=
  VObj [(js "a", VObj [(js "x", VStr (js "s"));
                       (js "y", VArr [VNull; VObj [(js "p", VBool true); (js "q", VNum 2)]])]);
        (js "b", VNum 1)].

(** U+FF5E, one code unit, UTF-8 [EF BD 9E]. *)
Definition fullwidth_tilde : jsstring := [65374%N].

(** U+1F600, the surrogate pair [D83D DE00], UTF-8 [F0 9F 98 80]. *)
Definition grinning_face : jsstring := [55357%N; 56832%N].

Definition astral_keys : Obj.t value :=
  [(fullwidth_tilde, VNum 1); (grinning_face, VNum 2)].

Definition numeric_keys : Obj.t value :=
  [(js "10", VNum 1); (js "9", VNum 2)].

(** An Intent body as handed to [issue-intent], without an id. *)
Definition unsigned_body : Obj.t value :=
  [(js "version", VStr (js "1.0.0"));
   (js "description", VStr (js "transfer"));
   (js "policy", policy_alice);
   (js "constraints", VArr []);
   (js "payload", VObj []);
   (js "created_at", VStr (js "2024-12-31T00:00:00Z"))].

Definition issued : Intent :=
  issue_intent env_len (Sim.sign Sim.length_digest alice) alice
    (js "2024-12-31T00:00:01.000Z") unsigned_body.

End Ex.

(** * Further parts of the kernel *)

(** ** crypto.ts: signing *)

(** The signing half of what crypto.ts imports: [ed25519.sign(hash, key)],
    [ed25519.getPublicKey(key)] and the exception [hexToBytes] throws on
    an input it rejects. [signMessage] and [derivePublicKey] catch
    nothing, so here the library functions return or throw. *)
Record Noble : Type := {
  ed25519_sign : list N -> list N -> outcome (list N);
  ed25519_getPublicKey : list N -> outcome (list N);
  hexToBytes_error : jsstring -> exn
}.

Section Signing.

Context (env : Env) (noble : Noble).

(** [hexToUint8Array] where its exception is not caught. *)
Definition hexToUint8Array_throwing (hex : jsstring) : outcome (list N) :=
  match hexToUint8Array env hex with
  | Some bytes => Return bytes
  | None => Throw (hexToBytes_error noble (normalizeHex env hex))
  end.

(** [signMessage] on a string message. *)
Definition signMessage (privateKey message suiteId : jsstring) : outcome jsstring :=
  if negb (JsString.eqb suiteId (js "ed25519-blake3")) then
    Throw (Error (js "Unsupported suite: " ++ suiteId
                    ++ js ". Only ed25519-blake3 is currently supported."))
  else
    privKeyBytes <- hexToUint8Array_throwing privateKey ;;
    if negb (Nat.eqb (List.length privKeyBytes) 32) then
      Throw (Error (js "Invalid private key length: expected 32 bytes, got "
                      ++ JsString.of_Z (Z.of_nat (List.length privKeyBytes))))
    else
      let messageBytes := JsString.utf8 message in
      let signingMessage := createSigningMessage messageBytes suiteId in
      let messageHash := blake3 env signingMessage in
      signature <- ed25519_sign noble messageHash privKeyBytes ;;
      Return (uint8ArrayToHex signature).

Definition derivePublicKey (privateKey : jsstring) : outcome jsstring :=
  privKeyBytes <- hexToUint8Array_throwing privateKey ;;
  publicKey <- ed25519_getPublicKey noble privKeyBytes ;;
  Return (uint8ArrayToHex publicKey).

(** One item of [verifySignatureBatch]. *)
Record BatchItem : Type := {
  item_pubkey : jsstring;
  item_message : jsstring;
  item_sig : jsstring;
  item_suiteId : jsstring
}.

(** [items.map(...)]: the items are verified from left to right and the
    first exception leaves the call. *)
Fixpoint verifySignatureBatch (items : list BatchItem) : outcome (list bool) :=
  match items with
  | [] => Return []
  | item :: rest =>
      b <- verifySignature env (item_pubkey item) (item_message item)
             (item_sig item) (item_suiteId item) ;;
      bs <- verifySignatureBatch rest ;;
      Return (b :: bs)
  end.

(** ** cli.ts: emit-frame *)

(** The body [emit-frame] works on: the [body] of an input that carries
    [object_type: 'frame'], else the input itself. The operator [in] throws
    on a primitive. *)
Definition frame_body_of (input : value) : outcome (option value) :=
  match input with
  | VObj props =>
      if Js.strict_eq (Obj.lookup (js "object_type") props) (Some (VStr (js "frame")))
      then Return (Obj.lookup (js "body") props)
      else Return (Some input)
  | VArr _ => Return (Some input)
  | VNull | VBool _ | VNum _ | VStr _ => Throw TypeError
  end.

(** [emit-frame], from the parsed input to the frame written out: the
    executor and then the id are filled in when missing, and the canonical
    body is signed with the key the public key was derived from.
    [signed_at] is the time stamp taken. A body that is [undefined], [null]
    or a primitive ends in a [TypeError] at [body.executor]: the module is
    strict code. On an array the two properties are set, but neither the
    canonical form nor the JSON written out shows them. What the command
    prints once the frame is written is left out. *)
Definition emit_frame (privateKey signed_at : jsstring) (input : value)
    : outcome Frame :=
  publicKey <- derivePublicKey privateKey ;;
  input_body <- frame_body_of input ;;
  body <- match input_body with
          | Some (VObj body) =>
              let body :=
                if negb (Js.truthy (Obj.lookup (js "executor") body))
                then Obj.set (js "executor") (VStr publicKey) body
                else body in
              Return (VObj (assign_id_if_missing env body))
          | Some (VArr items) => Return (VArr items)
          | _ => Throw TypeError
          end ;;
  let bodyCanonical := Canonical.toCanonical body in
  sig <- signMessage privateKey bodyCanonical (js "ed25519-blake3") ;;
  let signature :=
    {| Signature.pubkey := publicKey;
       Signature.sig := sig;
       Signature.suite_id := js "ed25519-blake3";
       Signature.signed_at := Some signed_at |} in
  Return {| SignedObject.object_type := js "frame";
            SignedObject.body := Some body;
            SignedObject.sigset := None;
            SignedObject.signature := Some signature |}.

End Signing.

(** ** conformance.ts *)

Module TestVector.
Record t : Type := {
  vector_id : jsstring;
  description : jsstring;
  expected_result : jsstring;
  expected_error : option jsstring;
  object_type : jsstring;
  object : value
}.
End TestVector.

Module ConformanceResult.
Record t : Type := {
  name : jsstring;
  passed : bool;
  error : option jsstring;
  actual : option (bool * list jsstring);
  expected : option (bool * option jsstring)
}.
End ConformanceResult.

Module ConformanceReport.
Record t : Type := {
  generated_at : jsstring;
  total : Z;
  passed : Z;
  failed : Z;
  results : list ConformanceResult.t
}.
End ConformanceReport.

(** [wrapObject], on the parsed JSON of a vector: an object that carries a
    truthy [object_type] is taken as it is, anything else becomes the body
    of a new object. *)
Definition wrapObject (obj : value) (type : jsstring) : outcome value :=
  object_type <- Get (Some obj) (js "object_type") ;;
  if Js.truthy object_type then Return obj
  else
    sigset <- Get (Some obj) (js "sigset") ;;
    signature <- Get (Some obj) (js "signature") ;;
    Return
      (VObj [(js "object_type", VStr type);
             (js "body", obj);
             (js "sigset",
               if Js.truthy sigset then match sigset with Some s => s | None => VNull end
               else VObj [(js "threshold", VNum 1); (js "signatures", VArr [])]);
             (js "signature",
               if Js.truthy signature
               then match signature with Some s => s | None => VNull end
               else VNull)]).

(** [expected_error] is truthy: a string that is not empty. *)
Definition given (expected_error : option jsstring) : bool :=
  match expected_error with
  | Some (_ :: _) => true
  | _ => false
  end.

Definition error_text (expected_error : option jsstring) : jsstring :=
  match expected_error with Some s => s | None => js "null" end.

(** [formatError]. Code unit 34 is the double quote. *)
Definition formatError (vector : TestVector.t) (valid : bool) (errors : list jsstring)
    (errorMatch : bool) : jsstring :=
  let parts : list jsstring := [] in
  let parts :=
    if JsString.eqb (TestVector.expected_result vector) (js "valid") && negb valid then
      parts ++ [js "Expected valid but got invalid: " ++ JsString.join (js ", ") errors]
    else if JsString.eqb (TestVector.expected_result vector) (js "invalid") && valid then
      parts ++ [js "Expected invalid but got valid"]
    else parts in
  let parts :=
    if negb errorMatch && given (TestVector.expected_error vector) then
      parts ++ [js "Expected error containing " ++ [34%N]
                  ++ error_text (TestVector.expected_error vector) ++ [34%N]
                  ++ js " but got: " ++ JsString.join (js ", ") errors]
    else parts in
  match JsString.join (js "; ") parts with
  | [] => js "Unknown error"
  | joined => joined
  end.

Section Conformance.

(** What the runner takes from outside the kernel: the environment of the
    verifier, [toUpperCase], the view of parsed JSON as a [SignedObject]
    (the cast [as SignedObject], which checks nothing), and the text
    [String(err)] of a [TypeError] of the engine. *)
Context (env : Env).
Context (toUpperCase : jsstring -> jsstring).
Context (as_SignedObject : value -> SignedObject.t).
Context (TypeError_text : jsstring).

(** [String(err)] in the template literal of the [catch] block. *)
Definition exn_text (err : exn) : jsstring :=
  match err with
  | Error [] => js "Error"
  | Error message => js "Error: " ++ message
  | TypeError => TypeError_text
  end.

(** [runVector]; [now] is the time [verify] reads. *)
Definition runVector (now : Z) (vector : TestVector.t) : ConformanceResult.t :=
  match (wrappedObject <- wrapObject (TestVector.object vector)
                            (TestVector.object_type vector) ;;
         verify env now (as_SignedObject wrappedObject)) with
  | Return result =>
      let valid := VerificationResult.valid result in
      let errors := VerificationResult.errors result in
      let expects_valid := JsString.eqb (TestVector.expected_result vector) (js "valid") in
      let passed := if expects_valid then valid else negb valid in
      let errorMatch :=
        if JsString.eqb (TestVector.expected_result vector) (js "invalid")
           && given (TestVector.expected_error vector)
        then
          existsb
            (fun e =>
               JsString.includes e (error_text (TestVector.expected_error vector))
               || JsString.includes (toUpperCase e)
                    (toUpperCase (error_text (TestVector.expected_error vector))))
            errors
        else true in
      let finalPassed := passed && (expects_valid || errorMatch) in
      {| ConformanceResult.name := TestVector.vector_id vector;
         ConformanceResult.passed := finalPassed;
         ConformanceResult.error :=
           if finalPassed then None
           else Some (formatError vector valid errors errorMatch);
         ConformanceResult.actual := Some (valid, errors);
         ConformanceResult.expected :=
           Some (expects_valid, TestVector.expected_error vector) |}
  | Throw err =>
      {| ConformanceResult.name := TestVector.vector_id vector;
         ConformanceResult.passed := false;
         ConformanceResult.error :=
           Some (js "Exception during verification: " ++ exn_text err);
         ConformanceResult.actual := None;
         ConformanceResult.expected := None |}
  end.

(** [generateReport]; [generated_at] is the time stamp taken. *)
Definition generateReport (generated_at : jsstring) (results : list ConformanceResult.t)
    : ConformanceReport.t :=
  let passed := Z.of_nat (List.length (filter ConformanceResult.passed results)) in
  let failed := (Z.of_nat (List.length results) - passed)%Z in
  {| ConformanceReport.generated_at := generated_at;
     ConformanceReport.total := Z.of_nat (List.length results);
     ConformanceReport.passed := passed;
     ConformanceReport.failed := failed;
     ConformanceReport.results := results |}.

End Conformance.

(** ** A concrete signing library *)

Module SimNoble.

Definition is_bytes (n : nat) (bytes : list N) : bool :=
  Nat.eqb (List.length bytes) n && forallb (fun b => (b <? 256)%N) bytes.

(** The public key is the private key itself and a signature is the public
    key followed by the message hash, which [Sim.accepts] accepts. *)
Definition noble : Noble :=
  {| ed25519_sign := fun hash key =>
       if is_bytes 32 key && is_bytes 32 hash then Return (key ++ hash)
       else Throw (Error (js "private key or hash of invalid length"));
     ed25519_getPublicKey := fun key =>
       if is_bytes 32 key then Return key
       else Throw (Error (js "private key of invalid length"));
     hexToBytes_error := fun _ => Error (js "hex string is invalid") |}.

Definition as_Signature (v : value) : Signature.t :=
  let str k := match Js.prop v k with Some (VStr s) => s | _ => [] end in
  {| Signature.pubkey := str (js "pubkey");
     Signature.sig := str (js "sig");
     Signature.suite_id := str (js "suite_id");
     Signature.signed_at :=
       match Js.prop v (js "signed_at") with Some (VStr s) => Some s | _ => None end |}.

Definition as_Sigset (v : value) : Sigset.t :=
  {| Sigset.threshold :=
       match Js.prop v (js "threshold") with Some (VNum n) => Some n | _ => None end;
     Sigset.signatures :=
       match Js.prop v (js "signatures") with
       | Some (VArr items) =>
           map (fun item => match item with
                            | VNull => None
                            | _ => Some (as_Signature item)
                            end) items
       | _ => []
       end |}.

(** The typed view of well-typed JSON. *)
Definition as_SignedObject (v : value) : SignedObject.t :=
  {| SignedObject.object_type :=
       match Js.prop v (js "object_type") with Some (VStr s) => s | _ => [] end;
     SignedObject.body :=
       match Js.prop v (js "body") with Some VNull => None | b => b end;
     SignedObject.sigset :=
       match Js.prop v (js "sigset") with
       | Some (VObj o) => Some (as_Sigset (VObj o))
       | _ => None
       end;
     SignedObject.signature :=
       match Js.prop v (js "signature") with
       | Some (VObj o) => Some (as_Signature (VObj o))
       | _ => None
       end |}.

End SimNoble.

(** * Vocabulary of the further statements *)

(** The contents of a [Uint8Array]. *)
Definition byte_array (bytes : list N) : Prop := Forall (fun b => (b < 256)%N) bytes.

(** What the kernel relies on in its libraries: hex encoding and decoding
    are inverse, lower-casing leaves lowercase hex alone, keys have 32
    bytes and signatures 64, and a signature verifies against the public
    key of the key that made it. *)
Record noble_contract (env : Env) (noble : Noble) : Prop := {
  hex_round_trip :
    forall bytes, byte_array bytes -> hexToBytes env (bytesToHex bytes) = Some bytes;
  lower_hex :
    forall bytes, byte_array bytes -> toLowerCase env (bytesToHex bytes) = bytesToHex bytes;
  public_key_bytes :
    forall key pub, ed25519_getPublicKey noble key = Return pub ->
      List.length pub = 32%nat /\ byte_array pub;
  signature_bytes :
    forall hash key sig, ed25519_sign noble hash key = Return sig ->
      List.length sig = 64%nat /\ byte_array sig;
  sign_then_verify :
    forall hash key pub sig,
      ed25519_getPublicKey noble key = Return pub ->
      ed25519_sign noble hash key = Return sig ->
      ed25519_verify env sig hash pub = true
}.

(** The signatures of a list that pass the authorization test. *)
Definition authorized_signatures (env : Env) (authorizedPubkeys : option (list jsstring))
    (sigs : list Signature.t) : list Signature.t :=
  filter (signer_authorized env authorizedPubkeys) sigs.

(** A frame belongs to the intent a collapse names: its body can be read
    and its [intent_id] is [===] to the collapse's. *)
Definition frame_of_intent (collapse_body : value) (frame : Frame) : Prop :=
  exists frame_body,
    SignedObject.body frame = Some frame_body
    /\ Js.strict_eq (Js.prop frame_body (js "intent_id"))
         (Js.prop collapse_body (js "intent_id")) = true.

(** A signature that [verifySigset] counts: it passes the authorization
    test and [verifySignature] answers [true]. *)
Definition counted_signature (env : Env) (message : jsstring)
    (authorizedPubkeys : option (list jsstring)) (sig : Signature.t) : bool :=
  signer_authorized env authorizedPubkeys sig
  && match verifySignature env (Signature.pubkey sig) message (Signature.sig sig)
             (Signature.suite_id sig) with
     | Return true => true
     | _ => false
     end.

(** The check of a sigset leaves no error: the count of valid signatures
    reaches the threshold, or the sigset has no threshold and none of its
    signatures was reported. *)
Definition sigset_passes (sigset : Sigset.t) (sigResult : SigsetResult.t) : Prop :=
  match Sigset.threshold sigset with
  | Some threshold => (threshold <= SigsetResult.validCount sigResult)%Z
  | None => SigsetResult.errors sigResult = []
  end.

(** What [verifyIntent] asks of an Intent: the type, a body with id,
    version and policy, the id that is the digest of the body, a sigset
    whose check leaves no error, with signatures over the canonical body
    by signers of [policy.authorized_signers], the policy's [min_signers]
    if it gives one, and an [expires_at], if there is one, that [new Date]
    can convert. *)
Definition intent_accepted (env : Env) (intent : Intent) : Prop :=
  exists (body policy : value) (authorized : list jsstring) (sigset : Sigset.t)
         (sigResult : SigsetResult.t),
    SignedObject.object_type intent = js "intent"
    /\ SignedObject.body intent = Some body
    /\ Js.truthy (Js.prop body (js "id")) = true
    /\ Js.truthy (Js.prop body (js "version")) = true
    /\ Js.prop body (js "policy") = Some policy
    /\ Js.truthy (Some policy) = true
    /\ Js.prop body (js "id") = Some (VStr (computeObjectId env body))
    /\ authorized_set env (Some policy) = Return authorized
    /\ SignedObject.sigset intent = Some sigset
    /\ verifySigset env sigset (Canonical.toCanonical body) (Some authorized)
       = Return sigResult
    /\ sigset_passes sigset sigResult
    /\ (if Js.truthy (Js.prop policy (js "min_signers"))
        then number_lt env (SigsetResult.validCount sigResult)
               (Js.prop policy (js "min_signers"))
        else Return false) = Return false
    /\ (forall e, Js.prop policy (js "expires_at") = Some e ->
                  Js.truthy (Some e) = true ->
                  returns (new_Date env e) = true).

(** An integer that a JavaScript number holds exactly:
    [Number.isSafeInteger]. *)
Definition safe_integer (n : Z) : Prop := (Z.abs n <= 9007199254740991)%Z.

(** JSON whose numbers are safe integers and whose objects, at every depth,
    have pairwise distinct keys, none of them [__proto__]: the JSON that
    reaches the canonical form whole. *)
Inductive plain_json : value -> Prop :=
| plain_null : plain_json VNull
| plain_bool (b : bool) : plain_json (VBool b)
| plain_num (n : Z) : safe_integer n -> plain_json (VNum n)
| plain_str (s : jsstring) : plain_json (VStr s)
| plain_arr (items : list value) :
    Forall plain_json items -> plain_json (VArr items)
| plain_obj (props : list (jsstring * value)) :
    NoDup (Obj.keys props) ->
    ~ In (js "__proto__") (Obj.keys props) ->
    Forall (fun kv => plain_json (snd kv)) props ->
    plain_json (VObj props).

(** The character a short escape stands for. *)
Definition unescape (x : N) : option N :=
  if N.eqb x 98 then Some 8%N
  else if N.eqb x 116 then Some 9%N
  else if N.eqb x 110 then Some 10%N
  else if N.eqb x 102 then Some 12%N
  else if N.eqb x 114 then Some 13%N
  else if N.eqb x 34 then Some 34%N
  else if N.eqb x 92 then Some 92%N
  else None.

(** Reads back what [quote_units] wrote, up to the closing quote: the
    string, and what follows the quote. *)
Fixpoint unquote (q : jsstring) : option (jsstring * jsstring) :=
  match q with
  | [] => None
  | c :: q1 =>
      if N.eqb c 34 then Some ([], q1)
      else if N.eqb c 92 then
        match q1 with
        | [] => None
        | x :: q2 =>
            if N.eqb x 117 then
              match q2 with
              | h1 :: h2 :: h3 :: h4 :: q3 =>
                  match Sim.asciiToBase16 h1, Sim.asciiToBase16 h2,
                        Sim.asciiToBase16 h3, Sim.asciiToBase16 h4, unquote q3 with
                  | Some n1, Some n2, Some n3, Some n4, Some (s, r) =>
                      Some ((((n1 * 16 + n2) * 16 + n3) * 16 + n4)%N :: s, r)
                  | _, _, _, _, _ => None
                  end
              | _ => None
              end
            else
              match unescape x, unquote q2 with
              | Some c', Some (s, r) => Some (c' :: s, r)
              | _, _ => None
              end
        end
      else
        match unquote q1 with
        | Some (s, r) => Some (c :: s, r)
        | None => None
        end
  end.

(** What can follow a serialised value inside an array or an object: the
    end, a comma or a closing bracket. *)
Definition delimited (r : jsstring) : Prop :=
  match r with
  | [] => True
  | c :: _ => c = 44%N \/ c = 93%N \/ c = 125%N
  end.

(** A character of a serialised integer: the minus sign or a digit. *)
Definition is_num_char (c : N) : Prop := c = 45%N \/ (48 <= c <= 57)%N.

(** The first character of the serialisation tells the kind of value. *)
Definition head_kind (c : N) (v : value) : Prop :=
  match v with
  | VNull => c = 110%N
  | VBool true => c = 116%N
  | VBool false => c = 102%N
  | VNum _ => is_num_char c
  | VStr _ => c = 34%N
  | VArr _ => c = 91%N
  | VObj _ => c = 123%N
  end.

(** One property as [SerializeJSONObject] writes it. *)
Definition entry (kv : jsstring * value) : jsstring :=
  Canonical.QuoteJSONString (fst kv) ++ js ":" ++ Canonical.SerializeJSONProperty (snd kv).

(** The properties of an object found under the keys [ks], in that order. *)
Definition properties_at {A} (o : Obj.t A) (ks : list jsstring) : Obj.t A :=
  flat_map (fun k => match Obj.lookup k o with Some v => [(k, v)] | None => [] end) ks.

(** The canonical string of [a] followed by anything delimited determines
    [a] up to the order of properties, and what follows. *)
Definition determined (a : value) : Prop :=
  forall (b : value) (r1 r2 : jsstring),
    plain_json a -> plain_json b ->
    Canonical.SerializeJSONProperty a ++ r1 = Canonical.SerializeJSONProperty b ++ r2 ->
    delimited r1 -> delimited r2 ->
    same_json a b /\ r1 = r2.

(** The signed object of a given type over a body. *)
Definition as_type (object_type : jsstring) (body : value) (sigset : option Sigset.t)
    (signature : option Signature.t) : SignedObject.t :=
  {| SignedObject.object_type := object_type;
     SignedObject.body := Some body;
     SignedObject.sigset := sigset;
     SignedObject.signature := signature |}.

(** ** Further sample data *)

Module Sample.

Definition key : jsstring := Ex.alice.

Definition bare_frame_body : Obj.t value :=
  [(js "version", VStr (js "1.0.0"));
   (js "intent_id", VStr Ex.zeros64);
   (js "sequence", VNum 1);
   (js "prev_frame_id", VNull);
   (js "executed_at", VStr (js "2025-01-01T00:10:00Z"));
   (js "status", VStr (js "completed"))].

Definition unordered : Obj.t value :=
  [(js "b", VNum 1); (js "__proto__", VNull); (js "10", VNum 2); (js "a", VNum 3);
   (js "9", VNum 4)].

Definition collapse_body : value :=
  VObj [(js "version", VStr (js "1.0.0"));
        (js "id", VStr Ex.zeros64);
        (js "intent_id", VStr Ex.zeros64);
        (js "frame_ids", VArr [VStr Ex.zeros64]);
        (js "summary", VObj [(js "frame_count", VNum 1)])].

Definition collapse (threshold : Z) (sigs : list Signature.t) : Collapse :=
  {| SignedObject.object_type := js "collapse";
     SignedObject.body := Some collapse_body;
     SignedObject.sigset :=
       Some {| Sigset.threshold := Some threshold; Sigset.signatures := map Some sigs |};
     SignedObject.signature := None |}.


(** A parent whose id is not the [intent_id] of the sample frames and
    whose policy authorizes nobody. *)
Definition other_parent : Intent :=
  {| SignedObject.object_type := js "intent";
     SignedObject.body :=
       Some (VObj [(js "id", VStr (js "1234")); (js "policy", Ex.policy_nobody)]);
     SignedObject.sigset := None;
     SignedObject.signature := None |}.

(** The frame [emit-frame] makes of [bare_frame_body] with the key [key]
    in [Ex.env0]. *)
Definition emitted : Frame :=
  {| SignedObject.object_type := js "frame";
     SignedObject.body :=
       Some (VObj (bare_frame_body
                     ++ [(js "executor", VStr Ex.alice); (js "id", VStr Ex.zeros64)]));
     SignedObject.sigset := None;
     SignedObject.signature :=
       Some {| Signature.pubkey := Ex.alice;
               Signature.sig := Ex.alice ++ Ex.zeros64;
               Signature.suite_id := js "ed25519-blake3";
               Signature.signed_at := Some (js "2025-01-01T00:10:01.000Z") |} |}.

(** What [verifySigset] returns for [Ex.one_of_two] when only [Ex.bob] is
    authorized. *)
Definition nobody_counted : SigsetResult.t :=
  {| SigsetResult.valid := false;
     SigsetResult.validCount := 0;
     SigsetResult.errors :=
       [js "Signature 0: signer " ++ Ex.alice ++ js " is not authorized";
        js "Threshold not met: 0 valid signatures, need 2"] |}.

(** A signature of the key [Ex.bob] that does not verify. *)
Definition sig_bob_bad : Signature.t :=
  {| Signature.pubkey := Ex.bob;
     Signature.sig := Ex.zeros64 ++ Ex.zeros64;
     Signature.suite_id := js "ed25519-blake3";
     Signature.signed_at := None |}.

Definition vector_unknown_type : TestVector.t :=
  {| TestVector.vector_id := js "unknown-type";
     TestVector.description := js "an object of no known type";
     TestVector.expected_result := js "invalid";
     TestVector.expected_error := Some (js "UNKNOWN OBJECT");
     TestVector.object_type := js "intent";
     TestVector.object := VObj [(js "object_type", VStr (js "receipt"))] |}.

(** A vector whose object is [null]: wrapping it throws. *)
Definition vector_null : TestVector.t :=
  {| TestVector.vector_id := js "null-object";
     TestVector.description := js "no object at all";
     TestVector.expected_result := js "invalid";
     TestVector.expected_error := None;
     TestVector.object_type := js "frame";
     TestVector.object := VNull |}.

End Sample.

(** * Properties *)

(** ** Strings *)

Lemma jsstring_eqb_eq (a b : jsstring) : JsString.eqb a b = true <-> a = b.
Proof.
  revert b; induction a as [|x a IH]; intros [|y b]; simpl; split;
    try congruence; try reflexivity.
  - intros H. apply andb_true_iff in H as [Hx Hab].
    apply N.eqb_eq in Hx. apply IH in Hab. congruence.
  - intros H. injection H as -> ->. rewrite N.eqb_refl. simpl. now apply IH.
Qed.

Lemma jsstring_eqb_refl (a : jsstring) : JsString.eqb a a = true.
Proof. now apply jsstring_eqb_eq. Qed.

Lemma jsstring_eqb_neq (a b : jsstring) : JsString.eqb a b = false <-> a <> b.
Proof.
  split.
  - intros H E. apply jsstring_eqb_eq in E. congruence.
  - intros H. destruct (JsString.eqb a b) eqn:E; [|reflexivity].
    apply jsstring_eqb_eq in E. contradiction.
Qed.

(** ** Results and verdicts *)

Lemma consistent_success (w : option (list jsstring)) : consistent (Return (success w)).
Proof. simpl. tauto. Qed.

Lemma consistent_failure_push (errors : list jsstring) (e : jsstring) :
  consistent (Return (failure (errors ++ [e]))).
Proof.
  simpl. split; [discriminate|].
  intros H. now destruct errors.
Qed.

Lemma consistent_failure_nonempty (errors : list jsstring) :
  nonempty errors = true -> consistent (Return (failure errors)).
Proof.
  intros H. simpl. split; [discriminate|].
  intros E. rewrite E in H. discriminate.
Qed.

Lemma consistent_bind {A} (m : outcome A) (k : A -> outcome VerificationResult.t) :
  (forall a, consistent (k a)) -> consistent (bind m k).
Proof. intros H. destruct m as [a|e]; simpl; [apply H|exact I]. Qed.

Ltac consistency_step :=
  match goal with
  | |- consistent (Return (success _)) => apply consistent_success
  | |- consistent (Return (failure (_ ++ [_]))) => apply consistent_failure_push
  | H : nonempty ?e = true |- consistent (Return (failure ?e)) =>
      apply (consistent_failure_nonempty e H)
  | |- consistent (Return (failure [_])) => simpl; split; discriminate
  | |- consistent (bind _ _) => apply consistent_bind; intros
  | |- consistent (at_time _ (Unread _)) => cbn [at_time]
  | |- consistent (at_time _ (NewDate _)) => cbn [at_time]
  | |- consistent (at_time _ (bind_clocked ?m _)) =>
      destruct m; cbn [bind_clocked at_time]; [|exact I]
  | |- consistent (at_time _ (if nonempty ?e then _ else _)) =>
      destruct (nonempty e) eqn:?
  | |- consistent (at_time _ (if ?c then _ else _)) => destruct c
  | |- consistent (at_time _ (match ?x with _ => _ end)) => destruct x
  | |- consistent (if nonempty ?e then _ else _) => destruct (nonempty e) eqn:?
  | |- consistent (if ?c then _ else _) => destruct c
  | |- consistent (match ?x with _ => _ end) => destruct x
  end.

Lemma verifyIntent_consistent env now intent : consistent (verifyIntent env now intent).
Proof. unfold verifyIntent, verifyIntent_clocked. cbv zeta. repeat consistency_step. Qed.

Lemma verifyFrame_consistent env frame intent : consistent (verifyFrame env frame intent).
Proof. unfold verifyFrame. cbv zeta. repeat consistency_step. Qed.

Lemma verifyCollapse_consistent env collapse frames :
  consistent (verifyCollapse env collapse frames).
Proof. unfold verifyCollapse. cbv zeta. repeat consistency_step. Qed.

Lemma verifySegment_consistent env segment : consistent (verifySegment env segment).
Proof. unfold verifySegment. cbv zeta. repeat consistency_step. Qed.

(** C9. Every result returned by [verifyIntent], [verifyFrame],
    [verifyCollapse] or [verify] has [valid = true] exactly when its error
    list is empty; the warnings play no part in the flag. *)
Theorem verification_results_consistent :
  forall (env : Env) (now : Z) (obj : SignedObject.t)
         (intent : option Intent) (frames : option (list Frame)),
    consistent (verifyIntent env now obj)
    /\ consistent (verifyFrame env obj intent)
    /\ consistent (verifyCollapse env obj frames)
    /\ consistent (verify env now obj).
Proof.
  intros env now obj intent frames.
  split; [apply verifyIntent_consistent|].
  split; [apply verifyFrame_consistent|].
  split; [apply verifyCollapse_consistent|].
  unfold verify.
  destruct (isIntent obj); [apply verifyIntent_consistent|].
  destruct (isFrame obj); [apply verifyFrame_consistent|].
  destruct (isCollapse obj); [apply verifyCollapse_consistent|].
  destruct (isSegment obj); [apply verifySegment_consistent|].
  simpl. split; discriminate.
Qed.

(** ** The sigset verifier *)

Lemma verifySigset_loop_app env message auth (l1 l2 : list (option Signature.t)) :
  forall i errors validCount,
    verifySigset_loop env message auth i (l1 ++ l2) errors validCount
    = bind (verifySigset_loop env message auth i l1 errors validCount)
        (fun r => verifySigset_loop env message auth (i + Z.of_nat (List.length l1)) l2
                    (fst r) (snd r)).
Proof.
  induction l1 as [|[sig|] l1 IH]; intros i errors validCount.
  - simpl. now rewrite Z.add_0_r.
  - cbn [app verifySigset_loop List.length].
    replace (i + Z.of_nat (S (List.length l1)))%Z
      with (i + 1 + Z.of_nat (List.length l1))%Z by lia.
    destruct (match auth with
              | Some set => negb (Set_has set (toLowerCase env (Signature.pubkey sig)))
              | None => false
              end).
    + apply IH.
    + destruct (verifySignature env (Signature.pubkey sig) message (Signature.sig sig)
                  (Signature.suite_id sig)) as [[|]|e]; simpl; try apply IH; reflexivity.
  - cbn [app verifySigset_loop List.length].
    replace (i + Z.of_nat (S (List.length l1)))%Z
      with (i + 1 + Z.of_nat (List.length l1))%Z by lia.
    apply IH.
Qed.

(** The loop never lowers the count and only appends to the error list. *)
Lemma verifySigset_loop_count env message auth (sigs : list (option Signature.t)) :
  forall i errors validCount errors' validCount',
    verifySigset_loop env message auth i sigs errors validCount
    = Return (errors', validCount') ->
    (validCount <= validCount')%Z.
Proof.
  induction sigs as [|[sig|] sigs IH]; intros i errors validCount errors' validCount' H.
  - simpl in H. injection H as _ <-. lia.
  - cbn [verifySigset_loop] in H.
    destruct (match auth with
              | Some set => negb (Set_has set (toLowerCase env (Signature.pubkey sig)))
              | None => false
              end).
    + now apply IH in H.
    + destruct (verifySignature env (Signature.pubkey sig) message (Signature.sig sig)
                  (Signature.suite_id sig)) as [[|]|e]; simpl in H.
      * apply IH in H. lia.
      * now apply IH in H.
      * discriminate.
  - cbn [verifySigset_loop] in H. now apply IH in H.
Qed.


Lemma Set_has_singleton (x : jsstring) : Set_has [x] x = true.
Proof. unfold Set_has. simpl. now rewrite jsstring_eqb_refl. Qed.

Lemma verifySignature_unsupported env (pubkey message sig suiteId : jsstring) :
  JsString.eqb suiteId (js "ed25519-blake3") = false ->
  verifySignature env pubkey message sig suiteId = Throw (Unsupported_suite suiteId).
Proof. intros H. unfold verifySignature. now rewrite H. Qed.

Lemma verifySignature_supported env (pubkey message sig suiteId : jsstring) :
  JsString.eqb suiteId (js "ed25519-blake3") = true ->
  exists b, verifySignature env pubkey message sig suiteId = Return b.
Proof. intros H. unfold verifySignature. rewrite H. simpl. eauto. Qed.

Lemma verifySigset_loop_unauthorized env message auth sig rest i errors validCount :
  signer_authorized env auth sig = false ->
  verifySigset_loop env message auth i (Some sig :: rest) errors validCount
  = verifySigset_loop env message auth (i + 1) rest
      (errors ++ [js "Signature " ++ JsString.of_Z i ++ js ": signer "
                    ++ Signature.pubkey sig ++ js " is not authorized"])
      validCount.
Proof.
  intros H. cbn [verifySigset_loop]. unfold signer_authorized in H.
  destruct auth as [set|]; [|discriminate]. now rewrite H.
Qed.

Lemma verifySigset_loop_authorized env message auth sig rest i errors validCount :
  signer_authorized env auth sig = true ->
  verifySigset_loop env message auth i (Some sig :: rest) errors validCount
  = bind (verifySignature env (Signature.pubkey sig) message (Signature.sig sig)
            (Signature.suite_id sig))
      (fun isValid =>
         if isValid then
           verifySigset_loop env message auth (i + 1) rest errors (validCount + 1)
         else
           verifySigset_loop env message auth (i + 1) rest
             (errors ++ [js "Signature " ++ JsString.of_Z i
                           ++ js ": invalid signature from " ++ Signature.pubkey sig])
             validCount).
Proof.
  intros H. cbn [verifySigset_loop]. unfold signer_authorized in H.
  destruct auth as [set|]; [now rewrite H|reflexivity].
Qed.

(** The loop throws exactly when it reaches a signature of an unsupported
    suite, and then with the error of the first one it reaches. *)
Lemma verifySigset_loop_unsupported env message auth (sigs : list (option Signature.t)) :
  forall i errors validCount,
    match find (fun sig => negb (supported_suite sig))
            (filter (signer_authorized env auth) (present sigs)) with
    | Some sig =>
        verifySigset_loop env message auth i sigs errors validCount
        = Throw (Unsupported_suite (Signature.suite_id sig))
    | None =>
        returns (verifySigset_loop env message auth i sigs errors validCount) = true
    end.
Proof.
  induction sigs as [|[sig|] sigs IH]; intros i errors validCount.
  - reflexivity.
  - cbn [present flat_map app filter]. fold (present sigs).
    destruct (signer_authorized env auth sig) eqn:Ha.
    + rewrite (verifySigset_loop_authorized _ _ _ _ _ _ _ _ Ha).
      cbn [find]. unfold supported_suite at 1.
      destruct (JsString.eqb (Signature.suite_id sig) (js "ed25519-blake3")) eqn:Hs.
      * destruct (verifySignature_supported env (Signature.pubkey sig) message
                    (Signature.sig sig) _ Hs) as [b ->].
        cbn [negb bind]. destruct b; apply IH.
      * now rewrite (verifySignature_unsupported env _ _ _ _ Hs).
    + rewrite (verifySigset_loop_unauthorized _ _ _ _ _ _ _ _ Ha). apply IH.
  - cbn [present flat_map app verifySigset_loop]. fold (present sigs). apply IH.
Qed.

(** C5 (as amended). A signature whose suite id is not [ed25519-blake3]
    is never counted and never reported in the error list: when
    [verifySigset] reaches one, that is when its signer was not skipped as
    unauthorized, [verifySignature] throws an [Unsupported suite] error
    which [verifySigset] lets through, so the call throws and returns no
    result. Without such a signature [verifySigset] returns. *)
Theorem verifySigset_throws_on_unsupported_suite :
  forall (env : Env) (sigset : Sigset.t) (message : jsstring)
         (authorizedPubkeys : option (list jsstring)),
    match find (fun sig => negb (supported_suite sig))
            (filter (signer_authorized env authorizedPubkeys)
               (present (Sigset.signatures sigset))) with
    | Some sig =>
        verifySigset env sigset message authorizedPubkeys
        = Throw (Unsupported_suite (Signature.suite_id sig))
    | None => returns (verifySigset env sigset message authorizedPubkeys) = true
    end.
Proof.
  intros env sigset message auth. unfold verifySigset.
  pose proof (verifySigset_loop_unsupported env message auth
                (Sigset.signatures sigset) 0%Z [] 0%Z) as H.
  destruct (find _ _) as [sig|].
  - now rewrite H.
  - destruct (verifySigset_loop env message auth 0 (Sigset.signatures sigset) [] 0)
      as [[errors validCount]|e]; [reflexivity|discriminate].
Qed.

(** C4 (as amended). [verifySigset] has no notion of a signer seen before:
    a signature appended to a sigset is counted whenever it is authorized
    and verifies, so a second copy of a counted signature raises
    [validCount] by one. *)
Theorem appended_signature_is_counted :
  forall (env : Env) (sigset : Sigset.t) (message : jsstring)
         (authorizedPubkeys : option (list jsstring)) (sig : Signature.t)
         (r : SigsetResult.t),
    signer_authorized env authorizedPubkeys sig = true ->
    verifySignature env (Signature.pubkey sig) message (Signature.sig sig)
      (Signature.suite_id sig) = Return true ->
    verifySigset env sigset message authorizedPubkeys = Return r ->
    exists r',
      verifySigset env (with_signature sigset sig) message authorizedPubkeys = Return r'
      /\ SigsetResult.validCount r' = (SigsetResult.validCount r + 1)%Z
      /\ SigsetResult.valid r'
         = reaches (SigsetResult.validCount r + 1) (Sigset.threshold sigset).
Proof.
  intros env sigset message auth sig r Ha Hv Hr.
  unfold verifySigset in *. cbn [with_signature Sigset.signatures Sigset.threshold].
  rewrite verifySigset_loop_app.
  destruct (verifySigset_loop env message auth 0 (Sigset.signatures sigset) [] 0)
    as [[errors validCount]|e]; [|discriminate].
  cbn [bind fst snd] in *. injection Hr as <-.
  rewrite (verifySigset_loop_authorized _ _ _ _ _ _ _ _ Ha), Hv.
  cbn [bind verifySigset_loop SigsetResult.validCount SigsetResult.valid].
  eexists. split; [reflexivity|]. split; reflexivity.
Qed.

(** A copy of a counted signature turns a sigset one short of its threshold
    valid; evaluated in [Ex.env0]. *)
Lemma duplicate_signature_inflates_count :
  exists r r',
    verifySigset Ex.env0 Ex.one_of_two (js "m") None = Return r
    /\ verifySigset Ex.env0 (with_signature Ex.one_of_two Ex.sig_alice) (js "m") None
       = Return r'
    /\ SigsetResult.validCount r = 1%Z /\ SigsetResult.valid r = false
    /\ SigsetResult.validCount r' = 2%Z /\ SigsetResult.valid r' = true.
Proof.
  eexists. eexists.
  split; [vm_compute; reflexivity|].
  split; [vm_compute; reflexivity|].
  repeat split.
Qed.

Lemma appended_signature_is_counted_witness :
  exists r',
    verifySigset Ex.env0 (with_signature Ex.one_of_two Ex.sig_alice) (js "m") None
    = Return r'
    /\ SigsetResult.validCount r' = (SigsetResult.validCount Ex.one_of_two_result + 1)%Z
    /\ SigsetResult.valid r'
       = reaches (SigsetResult.validCount Ex.one_of_two_result + 1)
           (Sigset.threshold Ex.one_of_two).
Proof.
  apply (appended_signature_is_counted Ex.env0 Ex.one_of_two (js "m") None Ex.sig_alice
           Ex.one_of_two_result).
  - reflexivity.
  - vm_compute. reflexivity.
  - vm_compute. reflexivity.
Defined.

(** ** [verifyIntent] and the sigset *)

Lemma Get_truthy (v : option value) (k : jsstring) :
  Js.truthy v = true ->
  Get v k = Return match v with Some x => Js.prop x k | None => None end.
Proof. destruct v as [[ | | | | | ]|]; simpl; congruence. Qed.

(** Past the structural checks, an exception of [verifySigset] leaves
    [verifyIntent]. *)
Lemma push_template_returns (c : bool) (errors : list jsstring) (text : jsstring) :
  exists errors', push_template c errors (Return text) = Return errors'.
Proof. destruct c; cbn; eauto. Qed.

Lemma id_mismatch_string (b : value) (id computedId : jsstring) :
  Js.prop b (js "id") = Some (VStr id) ->
  id_mismatch b computedId
  = Return (js "ID mismatch: body.id is " ++ id ++ js ", computed ID is " ++ computedId).
Proof. intros H. unfold id_mismatch. now rewrite H. Qed.

Lemma verifyIntent_throws env now (intent : Intent) (b : value) (id : jsstring)
    (authorizedPubkeys : list jsstring) (s : Sigset.t) (e : exn) :
  SignedObject.object_type intent = js "intent" ->
  SignedObject.body intent = Some b ->
  Js.truthy (Some b) = true ->
  Js.prop b (js "id") = Some (VStr id) ->
  Js.truthy (Js.prop b (js "id")) = true ->
  Js.truthy (Js.prop b (js "version")) = true ->
  Js.truthy (Js.prop b (js "policy")) = true ->
  authorized_set env (Js.prop b (js "policy")) = Return authorizedPubkeys ->
  SignedObject.sigset intent = Some s ->
  verifySigset env s (extractBodyForSigning b) (Some authorizedPubkeys) = Throw e ->
  verifyIntent env now intent = Throw e.
Proof.
  intros Ht Hb Hbt Hids Hid Hver Hpol Hauth Hs Hthrow.
  unfold verifyIntent, verifyIntent_clocked.
  rewrite Ht, jsstring_eqb_refl, Hb, Hbt, Hid, Hver, Hpol.
  cbn [negb push_when nonempty].
  rewrite (id_mismatch_string b id _ Hids).
  match goal with
  | |- context [push_template ?c ?errors ?m] =>
      destruct (push_template c errors m) as [errors'|e'] eqn:Hp;
        [|unfold push_template in Hp; destruct c; discriminate Hp]
  end.
  cbn [bind_clocked]. rewrite Hauth. cbn [bind_clocked].
  rewrite Hs, Hthrow. reflexivity.
Qed.

(** An Intent of the declared type whose one signature is authorized and
    names the suite [secp256k1-keccak256]: in no environment and at no
    time does [verifyIntent] return a result for it. *)
Lemma unsupported_suite_throws :
  ~ exists env now r,
      verifyIntent env now (Ex.intent Ex.policy_alice [Ex.sig_alice_secp]) = Return r.
Proof.
  intros (env & now & r & H).
  rewrite (verifyIntent_throws env now _ (Ex.intent_body Ex.policy_alice) Ex.zeros64
             [toLowerCase env Ex.alice]
             {| Sigset.threshold := Some 1%Z;
                Sigset.signatures := [Some Ex.sig_alice_secp] |}
             (Unsupported_suite (js "secp256k1-keccak256"))) in H;
    try reflexivity; [discriminate|].
  unfold verifySigset. cbn [Sigset.signatures Sigset.threshold].
  rewrite verifySigset_loop_authorized by apply Set_has_singleton.
  rewrite verifySignature_unsupported by reflexivity.
  reflexivity.
Qed.

Lemma nonempty_app_single {A} (l : list A) (x : A) : nonempty (l ++ [x]) = true.
Proof. now destruct l. Qed.


Lemma nonempty_push_when (c : bool) (errors : list jsstring) (msg : jsstring) :
  nonempty errors = true -> nonempty (push_when c errors msg) = true.
Proof.
  intros H. unfold push_when. destruct c; [|exact H].
  apply nonempty_app_single.
Qed.

(** *** Conversions that throw *)

Lemma ToString_TypeError (v : value) :
  forall e, Js.ToString v = Throw e -> e = TypeError.
Proof.
  induction v using value_nested_ind; intros e He; cbn [Js.ToString] in He;
    try discriminate He.
  - destruct b; discriminate He.
  - match type of He with
    | bind ?m _ = _ => assert (Hm : forall e', m = Throw e' -> e' = TypeError)
    end.
    { clear He. induction H as [|x items Hx _ IH]; intros e' He'; [discriminate He'|].
      destruct (match x with VNull => Return [] | _ => Js.ToString x end)
        as [part|e0] eqn:Hpart.
      - cbn [bind] in He'.
        match type of He' with
        | bind ?m' _ = _ => destruct m' as [parts|e1] eqn:Hparts
        end; [discriminate He'|].
        cbn [bind] in He'. injection He' as <-. now apply IH.
      - cbn [bind] in He'. injection He' as <-.
        destruct x; try discriminate Hpart; now apply Hx. }
    match type of He with
    | bind ?m _ = _ => destruct m as [parts|e0] eqn:Hparts
    end; [discriminate He|].
    cbn [bind] in He. injection He as <-. now apply Hm.
  - destruct (Obj.lookup (js "toString") props); [|discriminate He].
    now injection He as <-.
Qed.

Lemma template_TypeError (v : option value) (e : exn) :
  Js.template v = Throw e -> e = TypeError.
Proof. destruct v as [x|]; [apply ToString_TypeError|discriminate]. Qed.

Lemma unconvertible_intro (v : option value) (e : exn) :
  Js.template v = Throw e -> e = TypeError /\ unconvertible v.
Proof.
  intros H. pose proof (template_TypeError v e H) as ->. split; [reflexivity|exact H].
Qed.




Lemma push_template_throws (c : bool) (errors : list jsstring) (msg : outcome jsstring)
    (e : exn) :
  push_template c errors msg = Throw e -> msg = Throw e.
Proof.
  unfold push_template. destruct c; [|discriminate].
  destruct msg; [discriminate|]. cbn [bind]. intros H. now injection H as <-.
Qed.


Lemma id_mismatch_throws (b : value) (computedId : jsstring) (e : exn) :
  id_mismatch b computedId = Throw e -> Js.template (Js.prop b (js "id")) = Throw e.
Proof.
  unfold id_mismatch. destruct (Js.template (Js.prop b (js "id"))); [discriminate|].
  intros H. now injection H as <-.
Qed.






(** ** Time *)

Lemma strict_eq_VStr (v : option value) (s : jsstring) :
  Js.strict_eq v (Some (VStr s)) = true -> v = Some (VStr s).
Proof.
  destruct v as [[ | | |s'| | ]|]; cbn [Js.strict_eq]; try discriminate.
  intros H. apply jsstring_eqb_eq in H. now subst.
Qed.

Lemma push_template_nil (c : bool) (errors : list jsstring) (msg : outcome jsstring) :
  push_template c errors msg = Return [] -> c = false /\ errors = [].
Proof.
  unfold push_template. destruct c.
  - destruct msg as [text|e]; [|discriminate]. cbn [bind]. intros H.
    injection H as H. now destruct errors.
  - intros H. now injection H as ->.
Qed.

(** What [new Date] could convert, a template literal can print. *)
Lemma new_Date_template env (v : value) (t : option Z) :
  new_Date env v = Return t -> exists text, Js.template (Some v) = Return text.
Proof.
  destruct v as [ |[|]| | | | ]; cbn [new_Date Js.template Js.ToString]; eauto;
    intros H;
    match type of H with
    | bind ?m _ = _ => destruct m as [text|e]; [eauto|discriminate H]
    end.
Qed.

Ltac clocked_step :=
  match goal with
  | |- True => exact I
  | |- match Unread _ with _ => _ end => exact I
  | |- match bind_clocked ?m _ with _ => _ end => destruct m eqn:?; cbn [bind_clocked]
  | |- match (if ?c then _ else _) with _ => _ end => destruct c eqn:?
  | |- match (match ?x with _ => _ end) with _ => _ end => destruct x eqn:?
  end.

(** When [verifyIntent] reads the clock, the time read decides one thing:
    whether the result of an Intent without errors carries the expiry
    warning. And an Intent has no error only if its id is the digest of
    its body. *)
Lemma verifyIntent_clocked_shape env (intent : Intent) :
  match verifyIntent_clocked env intent with
  | Unread _ => True
  | NewDate k =>
      exists (errors : list jsstring) (expiresAt : option Z) (text : jsstring),
        (forall now,
           k now = if nonempty errors then Return (failure errors)
                   else Return (success
                                  (some_warnings
                                     (push_when (date_before expiresAt now) [] text))))
        /\ (errors = [] ->
            exists body,
              SignedObject.body intent = Some body
              /\ Js.prop body (js "id") = Some (VStr (computeObjectId env body)))
  end.
Proof.
  destruct intent as [ot b s sg]. unfold verifyIntent_clocked.
  cbn [SignedObject.object_type SignedObject.body SignedObject.sigset]. cbv zeta.
  repeat clocked_step.
  match goal with
  | Hdate : new_Date env ?e = Return ?t
    |- exists _ _ _,
         (forall now, bind _ (fun _ => if nonempty ?errors then _ else _) = _) /\ _ =>
      destruct (new_Date_template env e t Hdate) as [text Htext];
        exists errors, t, (js "Intent has expired at " ++ text)
  end.
  split.
  - intros now. unfold Intent_has_expired. rewrite Htext. cbn [bind].
    unfold push_template, push_when.
    match goal with
    | |- context [date_before ?t now] => destruct (date_before t now)
    end; cbn [bind]; reflexivity.
  - intros ->.
    match goal with
    | Hmin : push_template _ _ (min_signers_not_met _ _) = Return [] |- _ =>
        apply push_template_nil in Hmin as [_ Hmin]
    end.
    match goal with
    | Hid : push_template _ _ (id_mismatch _ _) = Return ?l,
      Hl : (if ?c then ?l ++ _ else ?l) = [] |- _ =>
        assert (El : l = [])
          by (destruct c; [now apply app_eq_nil in Hl as [Hl _]|assumption]);
          subst l; apply push_template_nil in Hid as [Hid _];
          apply negb_false_iff, strict_eq_VStr in Hid;
          eexists; split; [reflexivity|exact Hid]
    end.
Qed.

Lemma verifyIntent_verdict_timeless env now1 now2 intent :
  verdict (verifyIntent env now1 intent) = verdict (verifyIntent env now2 intent).
Proof.
  unfold verifyIntent. pose proof (verifyIntent_clocked_shape env intent) as H.
  destruct (verifyIntent_clocked env intent) as [m|k]; cbn [at_time]; [reflexivity|].
  destruct H as (errors & expiresAt & text & Hk & _). rewrite !Hk.
  destruct (nonempty errors); reflexivity.
Qed.

(** C6 (as amended). [verifyFrame] and [verifyCollapse] take no time at
    all. [verifyIntent] reads the clock, through [new Date()], but only to
    decide whether to add the expiry warning: the flag, the error list and
    a thrown exception are the same at any two times, for [verifyIntent]
    and for [verify]; and the two results are the same altogether, warnings
    included, unless the Intent has for id the digest of the body that
    holds the id. *)
Theorem verdict_independent_of_time :
  forall (env : Env) (now1 now2 : Z) (obj : SignedObject.t),
    verdict (verifyIntent env now1 obj) = verdict (verifyIntent env now2 obj)
    /\ verdict (verify env now1 obj) = verdict (verify env now2 obj)
    /\ (verifyIntent env now1 obj <> verifyIntent env now2 obj ->
        exists body,
          SignedObject.body obj = Some body
          /\ Js.prop body (js "id") = Some (VStr (computeObjectId env body))).
Proof.
  intros env now1 now2 obj. split; [|split].
  - apply verifyIntent_verdict_timeless.
  - unfold verify. destruct (isIntent obj); [|reflexivity].
    apply verifyIntent_verdict_timeless.
  - unfold verifyIntent. pose proof (verifyIntent_clocked_shape env obj) as H.
    destruct (verifyIntent_clocked env obj) as [m|k]; cbn [at_time]; intros Hneq;
      [now contradiction Hneq|].
    destruct H as (errors & expiresAt & text & Hk & Hid). apply Hid.
    destruct errors as [|x errors]; [reflexivity|].
    exfalso. apply Hneq. rewrite !Hk. reflexivity.
Qed.

(** An Intent that passes the structural checks, whose sigset can be
    checked and whose policy gives a numeric [min_signers] and a non-empty
    string [expires_at], makes [verifyIntent] read the clock. *)
Lemma verifyIntent_clocked_reads env (intent : Intent) (b p : value) (id : jsstring)
    (authorizedPubkeys : list jsstring) (s : Sigset.t) (sr : SigsetResult.t)
    (n : Z) (c : N) (e : jsstring) :
  SignedObject.object_type intent = js "intent" ->
  SignedObject.body intent = Some b ->
  Js.truthy (Some b) = true ->
  Js.prop b (js "id") = Some (VStr id) ->
  Js.truthy (Js.prop b (js "id")) = true ->
  Js.truthy (Js.prop b (js "version")) = true ->
  Js.prop b (js "policy") = Some p ->
  Js.truthy (Some p) = true ->
  authorized_set env (Some p) = Return authorizedPubkeys ->
  SignedObject.sigset intent = Some s ->
  verifySigset env s (extractBodyForSigning b) (Some authorizedPubkeys) = Return sr ->
  Js.prop p (js "min_signers") = Some (VNum n) ->
  Js.prop p (js "expires_at") = Some (VStr (c :: e)) ->
  exists k, verifyIntent_clocked env intent = NewDate k.
Proof.
  intros Ht Hb Hbt Hids Hid Hver Hp Hpol Hauth Hs Hsr Hmin Hexp.
  unfold verifyIntent_clocked.
  rewrite Ht, jsstring_eqb_refl, Hb, Hbt, Hid, Hver, Hp, Hpol.
  cbn [negb push_when nonempty].
  rewrite (id_mismatch_string b id _ Hids).
  match goal with
  | |- context [push_template ?c ?errors ?m] =>
      destruct (push_template c errors m) as [errors'|e'] eqn:Hpush;
        [|unfold push_template in Hpush; destruct c; discriminate Hpush]
  end.
  cbn [bind_clocked]. rewrite Hauth. cbn [bind_clocked].
  rewrite Hs, Hsr. cbn [bind_clocked].
  rewrite (Get_truthy _ (js "min_signers") Hpol), Hmin. cbn [bind_clocked Js.truthy].
  unfold number_lt, min_signers_not_met.
  cbn [ToNumber Js.template Js.ToString bind].
  destruct (negb (n =? 0)%Z); cbn [bind_clocked];
    match goal with
    | |- context [push_template ?c ?errors ?m] =>
        destruct (push_template c errors m) as [errors''|e''] eqn:Hpush';
          [|unfold push_template in Hpush'; destruct c; discriminate Hpush']
    end;
    cbn [bind_clocked];
    rewrite (Get_truthy _ (js "expires_at") Hpol), Hexp;
    cbn [bind_clocked Js.truthy new_Date]; eexists; reflexivity.
Qed.

(** The sample Intent, whose policy sets [expires_at]: in every
    environment, whatever the digest and the signature check answer,
    [verifyIntent] reads the clock before it returns. *)
Lemma verifyIntent_reads_the_clock :
  Js.prop Ex.policy_alice (js "expires_at") = Some (VStr (js "2025-01-01T00:00:00Z"))
  /\ forall env : Env,
       exists k,
         verifyIntent_clocked env (Ex.intent Ex.policy_alice [Ex.sig_alice]) = NewDate k.
Proof.
  split; [reflexivity|]. intros env.
  assert (Hsr : exists sr,
            verifySigset env
              {| Sigset.threshold := Some 1%Z; Sigset.signatures := [Some Ex.sig_alice] |}
              (extractBodyForSigning (Ex.intent_body Ex.policy_alice))
              (Some [toLowerCase env Ex.alice]) = Return sr).
  { unfold verifySigset. cbn [Sigset.signatures Sigset.threshold].
    rewrite verifySigset_loop_authorized by apply Set_has_singleton.
    destruct (verifySignature_supported env (Signature.pubkey Ex.sig_alice)
                (extractBodyForSigning (Ex.intent_body Ex.policy_alice))
                (Signature.sig Ex.sig_alice) (Signature.suite_id Ex.sig_alice)
                eq_refl) as [valid ->].
    destruct valid; cbn [bind verifySigset_loop]; eexists; reflexivity. }
  destruct Hsr as [sr Hsr].
  apply (verifyIntent_clocked_reads env (Ex.intent Ex.policy_alice [Ex.sig_alice])
           (Ex.intent_body Ex.policy_alice) Ex.policy_alice Ex.zeros64
           [toLowerCase env Ex.alice]
           {| Sigset.threshold := Some 1%Z;
              Sigset.signatures := [Some Ex.sig_alice] |}
           sr 1 50%N (js "025-01-01T00:00:00Z")); try reflexivity.
  exact Hsr.
Qed.

(** What the time read can change shows only where the id test passes.
    Under a digest that is constant, as that of [Ex.env0], an id can be
    the digest of the body that holds it: there the sample Intent is
    verified without the expiry warning one second before [expires_at]
    and with it one second after. *)
Example expiry_warning_under_a_constant_digest :
  verifyIntent Ex.env0 1735689599000 (Ex.intent Ex.policy_alice [Ex.sig_alice])
  = Return (success None)
  /\ verifyIntent Ex.env0 1735689601000 (Ex.intent Ex.policy_alice [Ex.sig_alice])
     = Return (success (Some [js "Intent has expired at 2025-01-01T00:00:00Z"])).
Proof. split; vm_compute; reflexivity. Qed.

(** ** What [verifyFrame] reports *)

Lemma incl_push_when (c : bool) (errors M : list jsstring) (msg : jsstring) :
  incl errors M -> In msg M -> incl (push_when c errors msg) M.
Proof.
  intros He Hm. unfold push_when. destruct c; [|exact He].
  apply incl_app; [exact He|]. intros x [<-|[]]. exact Hm.
Qed.

Lemma incl_app_single (errors M : list jsstring) (msg : jsstring) :
  incl errors M -> In msg M -> incl (errors ++ [msg]) M.
Proof.
  intros He Hm. apply incl_app; [exact He|]. intros x [<-|[]]. exact Hm.
Qed.

Ltac solve_or :=
  match goal with
  | |- ?a = ?a => reflexivity
  | |- ?a = ?a \/ _ => left; reflexivity
  | |- _ \/ _ => first [left; solve_or | right; solve_or]
  end.

Ltac in_list := repeat rewrite in_app_iff; cbn [In]; solve_or.

Ltac incl_errors :=
  repeat match goal with
         | |- incl [] _ => apply incl_nil_l
         | |- incl (push_when _ _ _) _ => apply incl_push_when
         | |- incl (_ ++ [_]) _ => apply incl_app_single
         | |- In _ _ => in_list
         end.

Lemma Get_inv (base : option value) (k : jsstring) (x : option value) :
  Get base k = Return x ->
  exists v, base = Some v /\ x = Js.prop v k.
Proof.
  destruct base as [[ | | | | | ]|]; cbn [Get]; intros H; try discriminate;
    injection H as <-; eexists; split; reflexivity.
Qed.

Section ErrorsWithin.

Variable M : list jsstring.

Lemma errors_within_failure (errors : list jsstring) :
  incl errors M -> errors_within M (Return (failure errors)).
Proof. intros H. exact H. Qed.

Lemma errors_within_finish (errors warnings : list jsstring) :
  incl errors M ->
  errors_within M
    (if nonempty errors then Return (failure errors)
     else Return (success (some_warnings warnings))).
Proof.
  intros H. destruct (nonempty errors); [exact H|apply incl_nil_l].
Qed.

Lemma errors_within_bind {A} (m : outcome A) (k : A -> outcome VerificationResult.t) :
  (forall a, errors_within M (k a)) -> errors_within M (bind m k).
Proof. intros H. destruct m; cbn [bind]; [apply H|exact I]. Qed.

Lemma errors_within_bind_bind {A B} (m : outcome A) (f : A -> outcome B)
    (g : B -> outcome VerificationResult.t) :
  (forall a, errors_within M (bind (f a) g)) -> errors_within M (bind (bind m f) g).
Proof. intros H. destruct m; cbn [bind]; [apply H|exact I]. Qed.

Lemma push_template_within (c : bool) (errors errors' : list jsstring)
    (msg : outcome jsstring) :
  incl errors M -> incl (said msg) M ->
  push_template c errors msg = Return errors' -> incl errors' M.
Proof.
  intros He Hm. unfold push_template. destruct c.
  - destruct msg as [text|e]; cbn [bind]; [|discriminate].
    intros H. injection H as <-. apply incl_app; assumption.
  - intros H. now injection H as <-.
Qed.

Lemma errors_within_push_template (c : bool) (errors : list jsstring)
    (msg : outcome jsstring) (k : list jsstring -> outcome VerificationResult.t) :
  incl errors M -> incl (said msg) M ->
  (forall errors', incl errors' M -> errors_within M (k errors')) ->
  errors_within M (bind (push_template c errors msg) k).
Proof.
  intros He Hm Hk.
  destruct (push_template c errors msg) as [errors'|e] eqn:Hp; cbn [bind]; [|exact I].
  apply Hk. exact (push_template_within c errors errors' msg He Hm Hp).
Qed.

Lemma errors_within_push_template_bind {B} (c : bool) (errors : list jsstring)
    (msg : outcome jsstring) (f : list jsstring -> outcome B)
    (g : B -> outcome VerificationResult.t) :
  incl errors M -> incl (said msg) M ->
  (forall errors', incl errors' M -> errors_within M (bind (f errors') g)) ->
  errors_within M (bind (bind (push_template c errors msg) f) g).
Proof.
  intros He Hm Hk.
  destruct (push_template c errors msg) as [errors'|e] eqn:Hp; cbn [bind]; [|exact I].
  apply Hk. exact (push_template_within c errors errors' msg He Hm Hp).
Qed.

End ErrorsWithin.

Lemma verifyFrame_errors_listed env frame intent :
  errors_within (frame_messages env frame intent) (verifyFrame env frame intent).
Proof.
  destruct frame as [ot b sgs sg]. unfold verifyFrame.
  cbn [SignedObject.object_type SignedObject.body SignedObject.signature].
  cbv zeta.
  set (frame := {| SignedObject.object_type := ot; SignedObject.body := b;
                   SignedObject.sigset := sgs; SignedObject.signature := sg |}).
  set (M := frame_messages env frame intent).
  assert (Hfixed :
            incl [Invalid_object_type (js "frame") ot; js "Missing body";
                  js "Missing body.id"; js "Missing body.intent_id";
                  js "Missing or invalid body.sequence"; js "Missing body.executor";
                  js "Missing signature"; js "Invalid executor signature"] M).
  { unfold M, frame_messages. apply incl_appl, incl_refl. }
  assert (Hin : forall x,
            In x [Invalid_object_type (js "frame") ot; js "Missing body";
                  js "Missing body.id"; js "Missing body.intent_id";
                  js "Missing or invalid body.sequence"; js "Missing body.executor";
                  js "Missing signature"; js "Invalid executor signature"] ->
            In x M).
  { exact Hfixed. }
  destruct (negb (JsString.eqb ot (js "frame"))).
  { apply errors_within_failure, incl_app_single; [apply incl_nil_l|].
    apply Hin. in_list. }
  destruct b as [b|].
  2:{ apply errors_within_failure, incl_app_single; [apply incl_nil_l|].
      apply Hin. in_list. }
  destruct (negb (Js.truthy (Some b))).
  { apply errors_within_failure, incl_app_single; [apply incl_nil_l|].
    apply Hin. in_list. }
  match goal with
  | |- errors_within _ (if nonempty ?e then _ else _) =>
      assert (He : incl e M);
        [repeat match goal with
                | |- incl [] _ => apply incl_nil_l
                | |- incl (push_when _ _ _) _ => apply incl_push_when
                | |- In _ _ => apply Hin; in_list
                end
        |generalize dependent e; intros errors0 He]
  end.
  destruct (nonempty errors0); [exact He|].
  apply errors_within_push_template; [exact He| |clear errors0 He; intros errors1 He].
  { unfold M, frame_messages. cbn [SignedObject.body frame].
    apply incl_appr, incl_appl, incl_refl. }
  destruct sg as [sg|].
  2:{ apply errors_within_failure, incl_app_single; [exact He|]. apply Hin. in_list. }
  apply errors_within_bind; intros sigValid.
  apply errors_within_bind; intros executor_lower.
  apply errors_within_push_template;
    [apply incl_push_when; [exact He|apply Hin; in_list]
    | |clear errors1 He; intros errors2 He].
  { unfold M, frame_messages. cbn [SignedObject.body SignedObject.signature frame].
    apply incl_appr, incl_appr, incl_appl, incl_refl. }
  destruct intent as [intent|].
  2:{ cbn [bind]. apply errors_within_finish, He. }
  destruct (Get (SignedObject.body intent) (js "id")) as [intent_body_id|e] eqn:Hg;
    [|exact I].
  cbn [bind].
  apply Get_inv in Hg as (intent_body & Hib & ->).
  apply errors_within_push_template_bind; [exact He| |clear errors2 He; intros errors3 He].
  { unfold M, frame_messages. cbn [SignedObject.body SignedObject.signature frame].
    rewrite Hib. apply incl_appr, incl_appr, incl_appr, incl_refl. }
  repeat (apply errors_within_bind_bind; intros ?).
  cbn [bind]. apply errors_within_finish, He.
Qed.

Lemma includes_without_unit (c : N) (rest s : jsstring) :
  has_unit c s = false -> JsString.includes s (c :: rest) = false.
Proof.
  induction s as [|x s IH]; intros H.
  - reflexivity.
  - cbn [has_unit existsb] in H. apply orb_false_iff in H as [Hx Hs].
    cbn [JsString.includes JsString.starts_with]. rewrite Hx. simpl.
    now apply IH.
Qed.

Lemma has_unit_app (c : N) (a b : jsstring) :
  has_unit c (a ++ b) = has_unit c a || has_unit c b.
Proof. apply existsb_app. Qed.

(** Hex digits are [0-9a-f]: no code unit strictly between 57 and 97 occurs
    in an object id. *)
Lemma has_unit_bytesToHex (c : N) (bytes : list N) :
  (57 < c < 97)%N -> has_unit c (bytesToHex bytes) = false.
Proof.
  intros Hc. induction bytes as [|b bytes IH]; [reflexivity|].
  cbn [bytesToHex flat_map app] in *. cbn [has_unit existsb].
  fold (has_unit c (bytesToHex bytes)). unfold bytesToHex in *.
  unfold has_unit in IH |- *.
  rewrite IH, orb_false_r. unfold JsString.hex_digit.
  apply orb_false_iff. split.
  - destruct (b / 16 <? 10)%N eqn:E.
    + apply N.ltb_lt in E. apply N.eqb_neq. lia.
    + apply N.ltb_ge in E. apply N.eqb_neq. lia.
  - destruct (b mod 16 <? 10)%N eqn:E.
    + apply N.ltb_lt in E. apply N.eqb_neq. lia.
    + apply N.ltb_ge in E. apply N.eqb_neq. lia.
Qed.

Lemma has_unit_computeObjectId (c : N) env (obj : value) :
  (57 < c < 97)%N -> has_unit c (computeObjectId env obj) = false.
Proof. intros Hc. apply has_unit_bytesToHex, Hc. Qed.

(** C2 (as amended). [verifyFrame] has no path-continuity check and never
    reads the segments: whatever they are, each error of a returned result
    is one of the messages of [frame_messages], which report a wrong
    object type, a missing body, id, intent_id, sequence, executor or
    signature, an id mismatch, an invalid executor signature, a signer that
    is not the executor, or an intent_id that is not the parent's id. *)
Theorem verifyFrame_reports_only_listed_errors :
  forall (env : Env) (frame : Frame) (intent : option Intent),
    errors_within (frame_messages env frame intent) (verifyFrame env frame intent).
Proof. intros env frame intent. apply verifyFrame_errors_listed. Qed.

(** No message of [frame_messages] for the sample frames contains the code
    unit [c], for [c] an upper-case letter that none of the fixed texts
    uses. *)
Lemma sample_frame_messages_without_unit (c : N) env (segments : list value)
    (max_energy : Z) :
  c = 80%N \/ c = 69%N ->
  Forall (fun e => has_unit c e = false)
    (frame_messages env (Ex.frame segments) (Some (Ex.parent max_energy))).
Proof.
  intros Hc.
  assert (Hhex : (57 < c < 97)%N) by (destruct Hc; subst; lia).
  unfold frame_messages, Ex.frame, Ex.parent.
  cbn [SignedObject.object_type SignedObject.body SignedObject.signature].
  pose proof (has_unit_computeObjectId c env (Ex.frame_body segments) Hhex) as Hcid.
  revert Hcid. generalize (computeObjectId env (Ex.frame_body segments)).
  intros cid Hcid.
  rewrite (id_mismatch_string (Ex.frame_body segments) Ex.zeros64 cid eq_refl).
  replace (pubkey_not_executor (Signature.pubkey Ex.sig_alice)
             (Js.prop (Ex.frame_body segments) (js "executor")))
    with (Return (js "Signature pubkey " ++ Ex.alice ++ js " does not match executor "
                    ++ Ex.alice))
    by reflexivity.
  replace (Frame_intent_mismatch (Ex.frame_body segments)
             (Js.prop (VObj [(js "version", VStr (js "1.0.0"));
                             (js "id", VStr Ex.zeros64);
                             (js "max_energy", VNum max_energy);
                             (js "policy", Ex.policy_alice)]) (js "id")))
    with (Return (js "Frame intent_id " ++ Ex.zeros64 ++ js " does not match intent "
                    ++ Ex.zeros64))
    by reflexivity.
  cbn [said app].
  repeat apply Forall_cons; try apply Forall_nil.
  all: try match goal with
           | H : has_unit _ ?x = false |- has_unit _ (_ ++ _ ++ _ ++ ?x) = false =>
               rewrite !has_unit_app, H
           end.
  all: destruct Hc; subst; vm_compute; reflexivity.
Qed.

Lemma sample_frame_never_rejected_with (c : N) (rest : jsstring) env
    (segments : list value) (max_energy : Z) :
  c = 80%N \/ c = 69%N ->
  rejected_with (c :: rest)
    (verifyFrame env (Ex.frame segments) (Some (Ex.parent max_energy))) = false.
Proof.
  intros Hc.
  pose proof (verifyFrame_errors_listed env (Ex.frame segments)
                (Some (Ex.parent max_energy))) as Hin.
  pose proof (sample_frame_messages_without_unit c env segments max_energy Hc) as Hfree.
  destruct (verifyFrame env (Ex.frame segments) (Some (Ex.parent max_energy)))
    as [r|e]; [|reflexivity].
  cbn [rejected_with errors_within] in *.
  apply andb_false_iff. right.
  destruct (existsb _ _) eqn:E; [|reflexivity].
  apply existsb_exists in E as (e & He & Hinc).
  apply Hin in He. rewrite Forall_forall in Hfree.
  rewrite (includes_without_unit c rest e (Hfree e He)) in Hinc. discriminate.
Qed.

(** A frame whose two segments do not chain, with its parent Intent: in no
    environment is it rejected with [PathDiscontinuity], and in [Ex.env0],
    where its id and signature pass, it is valid. *)
Lemma discontinuous_path_not_reported :
  discontinuous (segments_of (Ex.frame Ex.broken_path)) = true
  /\ ~ (exists env,
          rejected_with (js "PathDiscontinuity")
            (verifyFrame env (Ex.frame Ex.broken_path) (Some (Ex.parent 1000000000)))
          = true)
  /\ verifyFrame Ex.env0 (Ex.frame Ex.broken_path) (Some (Ex.parent 1000000000))
     = Return (success None).
Proof.
  split; [reflexivity|]. split; [|vm_compute; reflexivity].
  intros [env H].
  change (js "PathDiscontinuity") with (80%N :: js "athDiscontinuity") in H.
  rewrite (sample_frame_never_rejected_with 80 (js "athDiscontinuity") env) in H
    by (left; reflexivity).
  discriminate.
Qed.

(** A frame whose segment energies add up to more than the parent's
    [max_energy]: in no environment is it rejected with
    [EnergyConservationViolation], and in [Ex.env0] it is valid. *)
Lemma energy_excess_not_reported :
  (forall m, max_energy_of (Ex.parent 1000000000) = Some m ->
             (m < energy_total (segments_of (Ex.frame Ex.over_budget)))%Z)
  /\ ~ (exists env,
          rejected_with (js "EnergyConservationViolation")
            (verifyFrame env (Ex.frame Ex.over_budget) (Some (Ex.parent 1000000000)))
          = true)
  /\ verifyFrame Ex.env0 (Ex.frame Ex.over_budget) (Some (Ex.parent 1000000000))
     = Return (success None).
Proof.
  split.
  { intros m H. vm_compute in H. injection H as <-. vm_compute. reflexivity. }
  split; [|vm_compute; reflexivity].
  intros [env H].
  change (js "EnergyConservationViolation")
    with (69%N :: js "nergyConservationViolation") in H.
  rewrite (sample_frame_never_rejected_with 69 (js "nergyConservationViolation") env) in H
    by (right; reflexivity).
  discriminate.
Qed.

(** C3 (as amended). [verifyFrame] has no energy check: of the parent
    Intent it reads [body.id] and [body.policy] and nothing else, so two
    parents that agree on these, whatever their [max_energy], give the
    same result for every frame. *)
Theorem verifyFrame_reads_only_id_and_policy :
  forall (env : Env) (frame : Frame) (intent1 intent2 : Intent),
    Get (SignedObject.body intent1) (js "id") = Get (SignedObject.body intent2) (js "id") ->
    Get (SignedObject.body intent1) (js "policy")
    = Get (SignedObject.body intent2) (js "policy") ->
    verifyFrame env frame (Some intent1) = verifyFrame env frame (Some intent2).
Proof.
  intros env frame intent1 intent2 Hid Hpolicy.
  unfold verifyFrame. rewrite Hid, Hpolicy. reflexivity.
Qed.

Lemma verifyFrame_reads_only_id_and_policy_witness :
  verifyFrame Ex.env0 (Ex.frame Ex.over_budget) (Some (Ex.parent 1000000000))
  = verifyFrame Ex.env0 (Ex.frame Ex.over_budget) (Some (Ex.parent 1)).
Proof.
  apply (verifyFrame_reads_only_id_and_policy Ex.env0 (Ex.frame Ex.over_budget)
           (Ex.parent 1000000000) (Ex.parent 1)); reflexivity.
Defined.

(** X3. Without a parent Intent, a frame is valid as soon as its type is
    right, its id, intent_id, sequence and executor are present, the id is
    the digest of the body as stored, and the signature verifies under the
    executor's key. Nothing else in the body, segments included, is
    looked at. *)
Theorem verifyFrame_valid_by_id_and_signature :
  forall (env : Env) (frame : Frame) (b : value) (sg : Signature.t)
         (executor : jsstring) (sequence : Z),
    SignedObject.object_type frame = js "frame" ->
    SignedObject.body frame = Some b ->
    Js.prop b (js "id") = Some (VStr (computeObjectId env b)) ->
    Js.truthy (Js.prop b (js "id")) = true ->
    Js.truthy (Js.prop b (js "intent_id")) = true ->
    Js.prop b (js "sequence") = Some (VNum sequence) ->
    Js.prop b (js "executor") = Some (VStr executor) ->
    executor <> [] ->
    SignedObject.signature frame = Some sg ->
    verifySignature env (Signature.pubkey sg) (Canonical.toCanonical b)
      (Signature.sig sg) (Signature.suite_id sg) = Return true ->
    toLowerCase env (Signature.pubkey sg) = toLowerCase env executor ->
    verifyFrame env frame None = Return (success None).
Proof.
  intros env frame b sg executor sequence Hot Hb Hid Hidt Hintent Hseq Hex Hne Hsg Hv Hpk.
  assert (Hbt : Js.truthy (Some b) = true).
  { destruct b; try discriminate Hid. reflexivity. }
  unfold verifyFrame.
  rewrite Hot, jsstring_eqb_refl, Hb, Hbt, Hidt, Hintent, Hseq, Hex.
  assert (Hext : Js.truthy (Some (VStr executor)) = true) by (now destruct executor).
  rewrite Hext. cbn [negb push_when nonempty].
  rewrite Hid. cbn [Js.strict_eq]. rewrite jsstring_eqb_refl. cbn [negb push_when].
  rewrite Hsg. unfold extractBodyForSigning. rewrite Hv.
  cbn [bind negb push_when call_toLowerCase].
  rewrite Hpk, jsstring_eqb_refl. reflexivity.
Qed.

Lemma verifyFrame_valid_by_id_and_signature_witness :
  verifyFrame Ex.env0 (Ex.frame Ex.broken_path) None = Return (success None).
Proof.
  apply (verifyFrame_valid_by_id_and_signature Ex.env0 (Ex.frame Ex.broken_path)
           (Ex.frame_body Ex.broken_path) Ex.sig_alice Ex.alice 1);
    try reflexivity.
  discriminate.
Defined.

(** ** The canonical encoding *)

Lemma compare_antisym (a b : jsstring) :
  JsString.compare b a = CompOpp (JsString.compare a b).
Proof.
  revert b; induction a as [|x a IH]; intros [|y b]; simpl; try reflexivity.
  rewrite (N.compare_antisym x y).
  destruct (N.compare x y); simpl; auto.
Qed.

Lemma compare_eq (a b : jsstring) : JsString.compare a b = Eq -> a = b.
Proof.
  revert b; induction a as [|x a IH]; intros [|y b]; simpl; try discriminate; auto.
  destruct (N.compare_spec x y) as [Hxy|Hxy|Hxy]; try discriminate.
  intros Hc. subst. f_equal. now apply IH.
Qed.

Lemma leb_total (a b : jsstring) : JsString.leb a b = true \/ JsString.leb b a = true.
Proof.
  unfold JsString.leb. rewrite (compare_antisym a b).
  destruct (JsString.compare a b); simpl; auto.
Qed.

Lemma leb_antisym (a b : jsstring) :
  JsString.leb a b = true -> JsString.leb b a = true -> a = b.
Proof.
  unfold JsString.leb. rewrite (compare_antisym a b).
  destruct (JsString.compare a b) eqn:E; simpl; try discriminate.
  intros _ _. now apply compare_eq.
Qed.

Lemma leb_trans (a b c : jsstring) :
  JsString.leb a b = true -> JsString.leb b c = true -> JsString.leb a c = true.
Proof.
  unfold JsString.leb.
  revert b c; induction a as [|x a IH]; intros [|y b] [|z c]; simpl;
    try reflexivity; try discriminate.
  destruct (N.compare_spec x y), (N.compare_spec y z), (N.compare_spec x z);
    subst; try reflexivity; try discriminate; try lia; try apply IH.
Qed.

Lemma insert_comm (x y : jsstring) (s : list jsstring) :
  Js.insert x (Js.insert y s) = Js.insert y (Js.insert x s).
Proof.
  induction s as [|h t IH]; cbn [Js.insert].
  - destruct (JsString.leb x y) eqn:Exy, (JsString.leb y x) eqn:Eyx; try reflexivity.
    + now rewrite (leb_antisym x y Exy Eyx).
    + destruct (leb_total x y); congruence.
  - destruct (JsString.leb y h) eqn:Eyh, (JsString.leb x h) eqn:Exh; cbn [Js.insert].
    + rewrite Exh, Eyh.
      destruct (JsString.leb x y) eqn:Exy, (JsString.leb y x) eqn:Eyx; try reflexivity.
      * now rewrite (leb_antisym x y Exy Eyx).
      * destruct (leb_total x y); congruence.
    + rewrite Exh, Eyh.
      destruct (JsString.leb x y) eqn:Exy; [|reflexivity].
      rewrite (leb_trans x y h Exy Eyh) in Exh. discriminate.
    + rewrite Exh, Eyh.
      destruct (JsString.leb y x) eqn:Eyx; [|reflexivity].
      rewrite (leb_trans y x h Eyx Exh) in Eyh. discriminate.
    + rewrite Exh, Eyh. now rewrite IH.
Qed.

Lemma sort_Permutation (l l' : list jsstring) :
  Permutation l l' -> Js.sort l = Js.sort l'.
Proof.
  unfold Js.sort. induction 1; cbn [fold_right].
  - reflexivity.
  - now f_equal.
  - apply insert_comm.
  - congruence.
Qed.

Lemma insert_index_Permutation (k : jsstring) (l : list jsstring) :
  Permutation (Obj.insert_index k l) (k :: l).
Proof.
  induction l as [|h t IH]; cbn [Obj.insert_index]; [reflexivity|].
  destruct (_ <=? _)%N; [reflexivity|].
  rewrite IH. apply perm_swap.
Qed.

Lemma OwnPropertyKeys_Permutation {A} (o : Obj.t A) :
  Permutation (Obj.OwnPropertyKeys o) (Obj.keys o).
Proof.
  unfold Obj.OwnPropertyKeys. generalize (Obj.keys o) as l. clear o.
  induction l as [|k l IH]; [reflexivity|].
  cbn [filter]. destruct (Obj.is_array_index k); cbn [negb fold_right].
  - rewrite insert_index_Permutation. cbn [app]. now apply perm_skip.
  - rewrite <- Permutation_middle. now apply perm_skip.
Qed.

Lemma keys_Permutation {A} (o o' : Obj.t A) :
  Permutation o o' -> Permutation (Obj.keys o) (Obj.keys o').
Proof. apply Permutation_map. Qed.

Lemma lookup_not_in {A} (k : jsstring) (o : Obj.t A) :
  ~ In k (Obj.keys o) -> Obj.lookup k o = None.
Proof.
  induction o as [|[k' v] o IH]; [reflexivity|].
  cbn [Obj.keys map fst In Obj.lookup]. intros H.
  destruct (JsString.eqb k k') eqn:E.
  - apply jsstring_eqb_eq in E. subst. tauto.
  - apply IH. tauto.
Qed.

Lemma lookup_Permutation {A} (o o' : Obj.t A) :
  Permutation o o' -> NoDup (Obj.keys o) ->
  forall k, Obj.lookup k o = Obj.lookup k o'.
Proof.
  induction 1 as [|[k0 v0] l l' Hp IH|[k1 v1] [k2 v2] l|l l' l'' Hp1 IH1 Hp2 IH2];
    intros Hnd k.
  - reflexivity.
  - cbn [Obj.lookup]. destruct (JsString.eqb k k0); [reflexivity|].
    apply IH. now inversion Hnd.
  - cbn [Obj.lookup].
    destruct (JsString.eqb k k2) eqn:E2, (JsString.eqb k k1) eqn:E1; try reflexivity.
    apply jsstring_eqb_eq in E1, E2. subst.
    cbn [Obj.keys map fst] in Hnd. inversion Hnd as [|? ? Hnot _]. subst.
    exfalso. apply Hnot. now left.
  - rewrite IH1 by assumption. apply IH2.
    eapply Permutation_NoDup; [|exact Hnd]. now apply keys_Permutation.
Qed.

Lemma fold_left_ext_in {A B} (f g : A -> B -> A) (l : list B) :
  (forall a b, f a b = g a b) -> forall a, fold_left f l a = fold_left g l a.
Proof.
  intros H. induction l as [|b l IH]; intros a; cbn [fold_left]; [reflexivity|].
  now rewrite H, IH.
Qed.

Lemma sortedReplacer_Permutation {A} (o o' : Obj.t A) :
  Permutation o o' -> NoDup (Obj.keys o) ->
  Canonical.sortedReplacer o = Canonical.sortedReplacer o'.
Proof.
  intros Hp Hnd. unfold Canonical.sortedReplacer. cbv zeta.
  rewrite (sort_Permutation (Obj.OwnPropertyKeys o) (Obj.OwnPropertyKeys o')).
  - apply fold_left_ext_in. intros sorted k.
    now rewrite (lookup_Permutation o o' Hp Hnd k).
  - rewrite !OwnPropertyKeys_Permutation. now apply keys_Permutation.
Qed.


Lemma keys_map_values {A B} (f : A -> B) (o : Obj.t A) :
  Obj.keys (map (fun kv => (fst kv, f (snd kv))) o) = Obj.keys o.
Proof. unfold Obj.keys. rewrite map_map. reflexivity. Qed.

(** C7. Canonical determinism: two values that are the same JSON, with the
    properties of their objects in any order at any depth, have the same
    canonical string, code unit for code unit. *)
Theorem canonical_determinism :
  forall a b : value, same_json a b -> Canonical.toCanonical a = Canonical.toCanonical b.
Proof.
  unfold Canonical.toCanonical. intros a.
  induction a as [|x|n|s|items IH|props IH] using value_nested_ind;
    intros b' Hab; inversion Hab; subst; try reflexivity.
  - cbn [Canonical.SerializeJSONProperty]. f_equal.
    clear Hab.
    match goal with H : Forall2 same_json _ _ |- _ => revert IH; induction H end.
    + reflexivity.
    + intros IH. inversion IH; subst. cbn [map]. f_equal; auto.
  - cbn [Canonical.SerializeJSONProperty]. f_equal.
    match goal with
    | Hnd : NoDup _, Hp : Permutation _ ?p', Hf : Forall2 _ ?p' _ |- _ =>
        rename Hnd into Hnodup; rename Hp into Hperm; rename Hf into Hall
    end.
    rewrite (sortedReplacer_Permutation
               (map (fun kv => (fst kv, Canonical.SerializeJSONProperty (snd kv))) props)
               (map (fun kv => (fst kv, Canonical.SerializeJSONProperty (snd kv))) props1')).
    + f_equal.
      assert (IH' : Forall (fun kv => forall b, same_json (snd kv) b ->
                      Canonical.SerializeJSONProperty (snd kv)
                      = Canonical.SerializeJSONProperty b) props1').
      { eapply Permutation_Forall; eassumption. }
      clear Hperm Hnodup IH Hab. induction Hall as [|p q l1 l2 [Hk Hv] Hall IHall].
      * reflexivity.
      * inversion IH'; subst. cbn [map]. f_equal; [|auto].
        rewrite Hk. f_equal. auto.
    + now apply Permutation_map.
    + now rewrite keys_map_values.
Qed.

Ltac nodup_keys :=
  cbn [Obj.keys map fst];
  repeat (apply NoDup_cons; [cbn [In]; intuition discriminate|]);
  apply NoDup_nil.

Lemma canonical_determinism_witness :
  Canonical.toCanonical Ex.nested_a = Canonical.toCanonical Ex.nested_b.
Proof.
  apply (canonical_determinism Ex.nested_a Ex.nested_b).
  unfold Ex.nested_a, Ex.nested_b.
  eapply same_obj; [nodup_keys|apply perm_swap|].
  repeat constructor.
  eapply same_obj; [nodup_keys|apply perm_swap|].
  repeat constructor.
  eapply same_obj; [nodup_keys|apply perm_swap|].
  repeat constructor.
Defined.

Lemma lookup_map_values {A B} (f : A -> B) (k : jsstring) (o : Obj.t A) :
  Obj.lookup k (map (fun kv => (fst kv, f (snd kv))) o) = option_map f (Obj.lookup k o).
Proof.
  induction o as [|[k' v] o IH]; [reflexivity|].
  cbn [map Obj.lookup fst snd]. destruct (JsString.eqb k k'); [reflexivity|exact IH].
Qed.

Lemma set_map_values {A B} (f : A -> B) (k : jsstring) (v : A) (o : Obj.t A) :
  Obj.set k (f v) (map (fun kv => (fst kv, f (snd kv))) o)
  = map (fun kv => (fst kv, f (snd kv))) (Obj.set k v o).
Proof.
  induction o as [|[k' v'] o IH]; [reflexivity|].
  cbn [map Obj.set fst snd]. destruct (JsString.eqb k k'); [reflexivity|].
  cbn [map fst snd]. now rewrite IH.
Qed.

(** The replacer commutes with any function applied to the property
    values: ordering the serialised properties is serialising the ordered
    ones. *)
Lemma sortedReplacer_map {A B} (f : A -> B) (o : Obj.t A) :
  Canonical.sortedReplacer (map (fun kv => (fst kv, f (snd kv))) o)
  = map (fun kv => (fst kv, f (snd kv))) (Canonical.sortedReplacer o).
Proof.
  unfold Canonical.sortedReplacer. cbv zeta.
  unfold Obj.OwnPropertyKeys. rewrite keys_map_values.
  generalize (Js.sort
                (fold_right Obj.insert_index [] (filter Obj.is_array_index (Obj.keys o))
                 ++ filter (fun k => negb (Obj.is_array_index k)) (Obj.keys o))) as ks.
  intros ks.
  change (@nil (jsstring * B)) with (map (fun kv : jsstring * A => (fst kv, f (snd kv))) []).
  generalize (@nil (jsstring * A)) as acc.
  induction ks as [|k ks IH]; intros acc; cbn [fold_left]; [reflexivity|].
  rewrite lookup_map_values.
  destruct (Obj.lookup k o) as [v|]; cbn [option_map]; [|apply IH].
  unfold Canonical.assign. destruct (JsString.eqb k (js "__proto__")); [apply IH|].
  rewrite set_map_values. apply IH.
Qed.

(** C8 (the code at two failing inputs). The canonical form writes the keys
    in the order of [Array.prototype.sort], UTF-16 code units, and moves
    array-index keys to the front in numeric order. A key outside the
    Basic Multilingual Plane comes before U+FF5E although its UTF-8 bytes
    come after, and ["9"] comes before ["10"] although its byte is
    larger. *)
Theorem canonical_keys_not_in_utf8_order :
  emitted_keys Ex.astral_keys = [Ex.grinning_face; Ex.fullwidth_tilde]
  /\ JsString.utf8_leb Ex.grinning_face Ex.fullwidth_tilde = false
  /\ Canonical.toCanonical (VObj Ex.astral_keys)
     = js "{" ++ Canonical.QuoteJSONString Ex.grinning_face ++ js ":2,"
         ++ Canonical.QuoteJSONString Ex.fullwidth_tilde ++ js ":1}"
  /\ emitted_keys Ex.numeric_keys = [js "9"; js "10"]
  /\ JsString.utf8_leb (js "9") (js "10") = false
  /\ Canonical.toCanonical (VObj Ex.numeric_keys)
     = js "{" ++ Canonical.QuoteJSONString (js "9") ++ js ":2,"
         ++ Canonical.QuoteJSONString (js "10") ++ js ":1}".
Proof. repeat split; vm_compute; reflexivity. Qed.

(** ** Object ids *)

Lemma lookup_set_same {A} (k : jsstring) (v : A) (o : Obj.t A) :
  Obj.lookup k (Obj.set k v o) = Some v.
Proof.
  induction o as [|[k' v'] o IH]; cbn [Obj.set Obj.lookup].
  - now rewrite jsstring_eqb_refl.
  - destruct (JsString.eqb k k') eqn:E; cbn [Obj.lookup].
    + now rewrite jsstring_eqb_refl.
    + now rewrite E.
Qed.

(** C1 (the code at the failing input). The id test of the verifier hashes
    the body as stored, id included, while [issue-intent] derives the id
    from the body without it. So the test passes on an issued body only
    when the digest of the body with the id equals the digest of the body
    without it; and the Intent issued from [Ex.unsigned_body], whose
    signature is good, is rejected with an ID mismatch. *)
Theorem issued_id_fails_id_test :
  forall (env : Env) (body : Obj.t value),
    Js.strict_eq (Js.prop (VObj (assign_id_if_missing env body)) (js "id"))
      (Some (VStr (computeObjectId env (VObj (assign_id_if_missing env body)))))
    = (if Js.truthy (Obj.lookup (js "id") body)
       then Js.strict_eq (Obj.lookup (js "id") body)
              (Some (VStr (computeObjectId env (VObj body))))
       else JsString.eqb (computeObjectId env (VObj body))
              (computeObjectId env (VObj (assign_id_if_missing env body))))
    /\ verifyIntent Ex.env_len 0 Ex.issued
       = Return
           (failure
              [js "ID mismatch: body.id is "
                 ++ js "0000013200000000000000000000000000000000000000000000000000000000"
                 ++ js ", computed ID is "
                 ++ js "0000017a00000000000000000000000000000000000000000000000000000000"]).
Proof.
  intros env body. split; [|vm_compute; reflexivity].
  unfold assign_id_if_missing.
  destruct (Js.truthy (Obj.lookup (js "id") body)); cbn [negb Js.prop]; [reflexivity|].
  rewrite lookup_set_same. reflexivity.
Qed.

(** ** More on the key order *)

Lemma utf8_ascii (s : jsstring) : is_ascii s = true -> JsString.utf8 s = s.
Proof.
  induction s as [|c s IH]; [reflexivity|].
  cbn [is_ascii forallb]. intros H. apply andb_true_iff in H as [Hc Hs].
  apply N.ltb_lt in Hc. cbn [JsString.utf8].
  unfold JsString.is_high_surrogate, JsString.is_low_surrogate.
  replace (55296 <=? c)%N with false by (symmetry; apply N.leb_gt; lia).
  replace (56320 <=? c)%N with false by (symmetry; apply N.leb_gt; lia).
  cbn [andb]. unfold JsString.utf8_code_point.
  replace (c <? 128)%N with true by (symmetry; apply N.ltb_lt; lia).
  cbn [app]. f_equal. apply IH, Hs.
Qed.

Lemma insert_split (x : jsstring) (l : list jsstring) :
  exists l1 l2, l = l1 ++ l2 /\ Js.insert x l = l1 ++ x :: l2.
Proof.
  induction l as [|h t (l1 & l2 & Ht & Hi)]; cbn [Js.insert].
  - exists [], []. split; reflexivity.
  - destruct (JsString.leb x h).
    + exists [], (h :: t). split; reflexivity.
    + exists (h :: l1), l2. cbn [app]. split; congruence.
Qed.

Lemma leb_ordered_insert (x : jsstring) (l : list jsstring) :
  leb_ordered l = true -> leb_ordered (Js.insert x l) = true.
Proof.
  induction l as [|h t IH]; intros Hl; [reflexivity|].
  cbn [Js.insert]. destruct (JsString.leb x h) eqn:Exh.
  - cbn [leb_ordered] in *. now rewrite Exh, Hl.
  - assert (Hhx : JsString.leb h x = true) by (destruct (leb_total x h); congruence).
    destruct t as [|h' t'].
    + cbn [Js.insert leb_ordered]. now rewrite Hhx.
    + cbn [leb_ordered] in Hl. apply andb_true_iff in Hl as [Hhh' Ht].
      specialize (IH Ht). cbn [Js.insert] in *.
      destruct (JsString.leb x h') eqn:Exh'.
      * change (leb_ordered (h :: x :: h' :: t') = true).
        cbn [leb_ordered] in *. now rewrite Hhx, Exh', Ht.
      * change (leb_ordered (h :: h' :: Js.insert x t') = true).
        cbn [leb_ordered] in IH |- *. rewrite Hhh'. exact IH.
Qed.

Lemma leb_ordered_sort (l : list jsstring) : leb_ordered (Js.sort l) = true.
Proof.
  induction l as [|x l IH]; [reflexivity|].
  cbn [Js.sort fold_right]. now apply leb_ordered_insert.
Qed.

Lemma sort_Permutation_self (l : list jsstring) : Permutation (Js.sort l) l.
Proof.
  induction l as [|x l IH]; [reflexivity|].
  cbn [Js.sort fold_right]. fold (Js.sort l).
  destruct (insert_split x (Js.sort l)) as (l1 & l2 & Hs & ->).
  rewrite <- Permutation_middle. apply perm_skip. now rewrite <- Hs.
Qed.

Lemma utf8_ordered_ascii (keys : list jsstring) :
  forallb is_ascii keys = true -> utf8_ordered keys = leb_ordered keys.
Proof.
  induction keys as [|k1 rest IH]; [reflexivity|].
  intros H. cbn [forallb] in H. apply andb_true_iff in H as [H1 Hrest].
  cbn [utf8_ordered leb_ordered]. destruct rest as [|k2 rest']; [reflexivity|].
  rewrite (IH Hrest). unfold JsString.utf8_leb.
  cbn [forallb] in Hrest. apply andb_true_iff in Hrest as [H2 _].
  now rewrite (utf8_ascii k1 H1), (utf8_ascii k2 H2).
Qed.

Lemma set_fresh {A} (k : jsstring) (v : A) (o : Obj.t A) :
  ~ In k (Obj.keys o) -> Obj.set k v o = o ++ [(k, v)].
Proof.
  induction o as [|[k' v'] o IH]; [reflexivity|].
  cbn [Obj.keys map fst In Obj.set app]. intros H.
  destruct (JsString.eqb k k') eqn:E.
  - apply jsstring_eqb_eq in E. subst. tauto.
  - f_equal. apply IH. tauto.
Qed.

Lemma lookup_in {A} (k : jsstring) (o : Obj.t A) :
  In k (Obj.keys o) -> exists v, Obj.lookup k o = Some v.
Proof.
  induction o as [|[k' v'] o IH]; cbn [Obj.keys map fst In Obj.lookup]; [tauto|].
  intros [->|H].
  - rewrite jsstring_eqb_refl. eauto.
  - destruct (JsString.eqb k k'); eauto.
Qed.

Lemma OwnPropertyKeys_no_index {A} (o : Obj.t A) :
  forallb (fun k => negb (Obj.is_array_index k)) (Obj.keys o) = true ->
  Obj.OwnPropertyKeys o = Obj.keys o.
Proof.
  unfold Obj.OwnPropertyKeys. generalize (Obj.keys o) as l. clear o.
  induction l as [|k l IH]; [reflexivity|].
  cbn [forallb filter]. intros H. apply andb_true_iff in H as [Hk Hl].
  apply negb_true_iff in Hk. rewrite Hk. cbn [negb].
  specialize (IH Hl).
  destruct (filter Obj.is_array_index l) eqn:E.
  - cbn [fold_right app] in *. now f_equal.
  - exfalso. assert (Hin : In j (filter Obj.is_array_index l)) by (rewrite E; now left).
    apply filter_In in Hin as [Hin Hj].
    rewrite forallb_forall in Hl. specialize (Hl j Hin). now rewrite Hj in Hl.
Qed.

(** Copying keys that are distinct, present and not [__proto__] creates
    them in the order given. *)
Lemma sortedReplacer_fold_keys {A} (o : Obj.t A) (ks : list jsstring) :
  forall acc,
    NoDup (Obj.keys acc ++ ks) ->
    (forall k, In k ks -> In k (Obj.keys o) /\ JsString.eqb k (js "__proto__") = false) ->
    Obj.keys
      (fold_left
         (fun sorted k =>
            match Obj.lookup k o with
            | Some v => Canonical.assign sorted k v
            | None => sorted
            end) ks acc)
    = Obj.keys acc ++ ks.
Proof.
  induction ks as [|k ks IH]; intros acc Hnd Hks; cbn [fold_left].
  - now rewrite app_nil_r.
  - destruct (Hks k (or_introl eq_refl)) as [Hin Hproto].
    destruct (lookup_in k o Hin) as [v ->].
    unfold Canonical.assign. rewrite Hproto.
    assert (Hfresh : ~ In k (Obj.keys acc)).
    { intros Hk. apply NoDup_remove_2 in Hnd. apply Hnd.
      apply in_or_app. now left. }
    rewrite (set_fresh k v acc Hfresh).
    rewrite IH.
    + unfold Obj.keys. rewrite map_app, <- app_assoc. reflexivity.
    + unfold Obj.keys in *. rewrite map_app, <- app_assoc. exact Hnd.
    + intros k' Hk'. apply Hks. now right.
Qed.

(** X1. For an object whose keys are pairwise distinct, ASCII, no array
    index and not [__proto__], as are all the keys the kernel's types
    declare, the canonical form writes the keys as [sort] leaves them, and
    that is the order of their UTF-8 bytes. *)
Theorem plain_keys_in_utf8_order :
  forall (A : Type) (o : Obj.t A),
    NoDup (Obj.keys o) ->
    forallb plain_key (Obj.keys o) = true ->
    emitted_keys o = Js.sort (Obj.keys o) /\ utf8_ordered (emitted_keys o) = true.
Proof.
  intros A o Hnd Hplain.
  rewrite forallb_forall in Hplain.
  assert (Hparts : forall k, In k (Obj.keys o) ->
            is_ascii k = true /\ Obj.is_array_index k = false
            /\ JsString.eqb k (js "__proto__") = false).
  { intros k Hk. specialize (Hplain k Hk). unfold plain_key in Hplain.
    apply andb_true_iff in Hplain as [Hp H3]. apply andb_true_iff in Hp as [H1 H2].
    apply negb_true_iff in H2, H3. auto. }
  assert (Hopk : Obj.OwnPropertyKeys o = Obj.keys o).
  { apply OwnPropertyKeys_no_index. apply forallb_forall. intros k Hk.
    apply negb_true_iff. now apply Hparts. }
  assert (Hsorted_in : forall k, In k (Js.sort (Obj.keys o)) -> In k (Obj.keys o)).
  { intros k Hk. eapply Permutation_in; [apply sort_Permutation_self|exact Hk]. }
  assert (Hemit : emitted_keys o = Js.sort (Obj.keys o)).
  { unfold emitted_keys.
    assert (Hkeys : Obj.keys (Canonical.sortedReplacer o) = Js.sort (Obj.keys o)).
    { unfold Canonical.sortedReplacer. cbv zeta. rewrite Hopk.
      rewrite sortedReplacer_fold_keys; [reflexivity| |].
      - cbn [Obj.keys map app].
        eapply Permutation_NoDup; [|exact Hnd].
        symmetry. apply sort_Permutation_self.
      - intros k Hk. split; [now apply Hsorted_in|].
        now apply Hparts, Hsorted_in. }
    rewrite OwnPropertyKeys_no_index; [exact Hkeys|].
    rewrite Hkeys. apply forallb_forall. intros k Hk.
    apply negb_true_iff. now apply Hparts, Hsorted_in. }
  split; [exact Hemit|].
  rewrite Hemit, utf8_ordered_ascii; [apply leb_ordered_sort|].
  apply forallb_forall. intros k Hk. now apply Hparts, Hsorted_in.
Qed.

Lemma plain_keys_in_utf8_order_witness :
  emitted_keys Ex.unsigned_body = Js.sort (Obj.keys Ex.unsigned_body)
  /\ utf8_ordered (emitted_keys Ex.unsigned_body) = true.
Proof.
  apply (plain_keys_in_utf8_order value Ex.unsigned_body).
  - cbn [Obj.keys map fst Ex.unsigned_body].
    repeat (apply NoDup_cons; [cbn [In]; intuition discriminate|]).
    apply NoDup_nil.
  - vm_compute. reflexivity.
Defined.

Lemma lookup_app_other {A} (k k' : jsstring) (v : A) (o : Obj.t A) :
  JsString.eqb k k' = false -> Obj.lookup k (o ++ [(k', v)]) = Obj.lookup k o.
Proof.
  intros H. induction o as [|[k0 v0] o IH]; cbn [app Obj.lookup].
  - now rewrite H.
  - destruct (JsString.eqb k k0); [reflexivity|exact IH].
Qed.

Lemma fold_left_app_skip {A B} (f : A -> B -> A) (l1 l2 : list B) (x : B) (a : A) :
  (forall a', f a' x = a') ->
  fold_left f (l1 ++ x :: l2) a = fold_left f (l1 ++ l2) a.
Proof. intros H. rewrite !fold_left_app. cbn [fold_left]. now rewrite H. Qed.

(** A property named [__proto__] never reaches the canonical form. *)
Lemma sortedReplacer_drops_proto {A} (o : Obj.t A) (v : A) :
  NoDup (Obj.keys o) -> ~ In (js "__proto__") (Obj.keys o) ->
  Canonical.sortedReplacer (o ++ [(js "__proto__", v)]) = Canonical.sortedReplacer o.
Proof.
  intros Hnd Hnot. unfold Canonical.sortedReplacer. cbv zeta.
  assert (Hperm : Permutation (Obj.OwnPropertyKeys (o ++ [(js "__proto__", v)]))
                    (js "__proto__" :: Obj.OwnPropertyKeys o)).
  { rewrite !OwnPropertyKeys_Permutation. unfold Obj.keys. rewrite map_app.
    cbn [map fst]. symmetry. apply Permutation_cons_append. }
  rewrite (sort_Permutation _ _ Hperm).
  change (Js.sort (js "__proto__" :: Obj.OwnPropertyKeys o))
    with (Js.insert (js "__proto__") (Js.sort (Obj.OwnPropertyKeys o))).
  destruct (insert_split (js "__proto__") (Js.sort (Obj.OwnPropertyKeys o)))
    as (l1 & l2 & -> & ->).
  rewrite fold_left_app_skip.
  - apply fold_left_ext_in. intros sorted k.
    destruct (JsString.eqb k (js "__proto__")) eqn:E.
    + apply jsstring_eqb_eq in E. subst k.
      rewrite (lookup_not_in _ o Hnot).
      destruct (Obj.lookup _ _); [|reflexivity].
      unfold Canonical.assign. now rewrite jsstring_eqb_refl.
    + now rewrite (lookup_app_other k _ v o E).
  - intros sorted. destruct (Obj.lookup _ _); [|reflexivity].
    unfold Canonical.assign. now rewrite jsstring_eqb_refl.
Qed.

(** X2. A property named [__proto__] is left out of the canonical form:
    the object with it and the object without it have the same canonical
    string, hence the same id and the same signed message. *)
Theorem proto_property_not_canonical :
  forall (props : list (jsstring * value)) (v : value),
    NoDup (Obj.keys props) -> ~ In (js "__proto__") (Obj.keys props) ->
    Canonical.toCanonical (VObj (props ++ [(js "__proto__", v)]))
    = Canonical.toCanonical (VObj props).
Proof.
  intros props v Hnd Hnot. unfold Canonical.toCanonical.
  cbn [Canonical.SerializeJSONProperty]. f_equal.
  rewrite map_app. cbn [map fst snd].
  apply sortedReplacer_drops_proto; now rewrite keys_map_values.
Qed.

Lemma proto_property_not_canonical_witness :
  Canonical.toCanonical
    (VObj (Ex.unsigned_body ++ [(js "__proto__", VObj [(js "admin", VBool true)])]))
  = Canonical.toCanonical (VObj Ex.unsigned_body).
Proof.
  apply (proto_property_not_canonical Ex.unsigned_body).
  - cbn [Obj.keys map fst Ex.unsigned_body].
    repeat (apply NoDup_cons; [cbn [In]; intuition discriminate|]).
    apply NoDup_nil.
  - cbn [Obj.keys map fst Ex.unsigned_body In]. intuition discriminate.
Defined.

(** ** Hex strings *)

Lemma strip_0x_other (x y : N) (l : jsstring) :
  y <> 120%N ->
  match x :: y :: l with
  | 48%N :: 120%N :: rest => rest
  | s => s
  end = x :: y :: l.
Proof.
  intros Hy.
  destruct x as [|p]; [reflexivity|].
  do 6 (destruct p as [p|p|]; try reflexivity).
  destruct y as [|q]; [reflexivity|].
  do 7 (destruct q as [q|q|]; try reflexivity).
  now contradiction Hy.
Qed.

Lemma hex_digit_not_x (n : N) : (n < 16)%N -> JsString.hex_digit n <> 120%N.
Proof.
  intros Hn. unfold JsString.hex_digit.
  destruct (N.ltb_spec n 10); lia.
Qed.

(** The prefix test of [normalizeHex] never fires on the output of
    [bytesToHex]. *)
Lemma normalizeHex_bytesToHex env (bytes : list N) :
  toLowerCase env (bytesToHex bytes) = bytesToHex bytes ->
  normalizeHex env (bytesToHex bytes) = bytesToHex bytes.
Proof.
  intros H. unfold normalizeHex. rewrite H.
  destruct bytes as [|b rest]; [reflexivity|].
  cbn [bytesToHex flat_map app].
  apply strip_0x_other. apply hex_digit_not_x. apply N.mod_lt. discriminate.
Qed.

Lemma hexToUint8Array_uint8ArrayToHex env noble (bytes : list N) :
  noble_contract env noble -> byte_array bytes ->
  hexToUint8Array env (uint8ArrayToHex bytes) = Some bytes.
Proof.
  intros C Hb. unfold hexToUint8Array, uint8ArrayToHex.
  rewrite normalizeHex_bytesToHex by now apply (lower_hex env noble C).
  now apply (hex_round_trip env noble C).
Qed.

(** ** Signing and verifying *)

Lemma signMessage_verifies_core env noble (privateKey message publicKey sig : jsstring) :
  noble_contract env noble ->
  derivePublicKey env noble privateKey = Return publicKey ->
  signMessage env noble privateKey message (js "ed25519-blake3") = Return sig ->
  verifySignature env publicKey message sig (js "ed25519-blake3") = Return true.
Proof.
  intros C Hpub Hsig.
  unfold derivePublicKey, signMessage in *.
  cbn [JsString.eqb] in Hsig.
  destruct (hexToUint8Array_throwing env noble privateKey) as [key|e]; [|discriminate].
  cbn [bind] in *.
  destruct (ed25519_getPublicKey noble key) as [pub|e] eqn:Hgp; [|discriminate].
  cbn [bind] in Hpub. injection Hpub as <-.
  change (negb (JsString.eqb (js "ed25519-blake3") (js "ed25519-blake3"))) with false in Hsig.
  cbn iota in Hsig.
  destruct (negb (Nat.eqb (List.length key) 32)); [discriminate|].
  destruct (ed25519_sign noble _ key) as [s|e] eqn:Hs; [|discriminate].
  cbn [bind] in Hsig. injection Hsig as <-.
  destruct (public_key_bytes env noble C _ _ Hgp) as [Hlp Hbp].
  destruct (signature_bytes env noble C _ _ _ Hs) as [Hls Hbs].
  unfold verifySignature.
  change (negb (JsString.eqb (js "ed25519-blake3") (js "ed25519-blake3"))) with false.
  cbn iota.
  rewrite (hexToUint8Array_uint8ArrayToHex env noble pub C Hbp), Hlp.
  rewrite (hexToUint8Array_uint8ArrayToHex env noble s C Hbs), Hls.
  cbn [Nat.eqb negb].
  f_equal. exact (sign_then_verify env noble C _ _ _ _ Hgp Hs).
Qed.

(** ** The concrete library keeps the contract *)

Lemma bytes_eqb_refl (a : list N) : Sim.bytes_eqb a a = true.
Proof. induction a as [|x a IH]; simpl; [reflexivity|]. now rewrite N.eqb_refl. Qed.

Lemma asciiToBase16_hex_digit (n : N) :
  (n < 16)%N -> Sim.asciiToBase16 (JsString.hex_digit n) = Some n.
Proof.
  intros Hn. unfold Sim.asciiToBase16, JsString.hex_digit.
  destruct (N.ltb_spec n 10);
    repeat match goal with
           | |- context [(?a <=? ?b)%N] => destruct (N.leb_spec a b)
           end; cbn [andb]; try lia; f_equal; lia.
Qed.

Lemma hex_decode_bytesToHex (bytes : list N) :
  byte_array bytes -> Sim.hex_decode (bytesToHex bytes) = Some bytes.
Proof.
  induction 1 as [|b bytes Hb _ IH]; [reflexivity|].
  cbn [bytesToHex flat_map app Sim.hex_decode].
  fold (bytesToHex bytes).
  rewrite !asciiToBase16_hex_digit, IH.
  - f_equal. f_equal. rewrite N.mul_comm. symmetry. apply N.div_mod. discriminate.
  - apply N.mod_lt. discriminate.
  - apply N.Div0.div_lt_upper_bound. lia.
Qed.

Lemma ascii_lower_hex_digit (n : N) :
  (n < 16)%N ->
  (if (65 <=? JsString.hex_digit n)%N && (JsString.hex_digit n <=? 90)%N
   then (JsString.hex_digit n + 32)%N else JsString.hex_digit n) = JsString.hex_digit n.
Proof.
  intros Hn. unfold JsString.hex_digit.
  destruct (N.ltb_spec n 10);
    repeat match goal with
           | |- context [(?a <=? ?b)%N] => destruct (N.leb_spec a b)
           end; cbn [andb]; try reflexivity; lia.
Qed.

Lemma ascii_lower_bytesToHex (bytes : list N) :
  byte_array bytes -> JsString.ascii_lower (bytesToHex bytes) = bytesToHex bytes.
Proof.
  induction 1 as [|b bytes Hb _ IH]; [reflexivity|].
  cbn [bytesToHex flat_map app]. fold (bytesToHex bytes).
  unfold JsString.ascii_lower in *. cbn [map].
  rewrite !ascii_lower_hex_digit, IH; [reflexivity| |].
  - apply N.mod_lt. discriminate.
  - apply N.Div0.div_lt_upper_bound. lia.
Qed.

Lemma is_bytes_spec (n : nat) (bytes : list N) :
  SimNoble.is_bytes n bytes = true -> List.length bytes = n /\ byte_array bytes.
Proof.
  unfold SimNoble.is_bytes. intros H. apply andb_prop in H as [H1 H2].
  split; [now apply Nat.eqb_eq|].
  rewrite forallb_forall in H2. apply Forall_forall. intros b Hb.
  now apply N.ltb_lt, H2.
Qed.

Lemma SimNoble_contract (digest : list N -> list N) :
  noble_contract (Sim.env digest) SimNoble.noble.
Proof.
  constructor; cbn [hexToBytes toLowerCase ed25519_verify Sim.env
                      ed25519_sign ed25519_getPublicKey SimNoble.noble].
  - apply hex_decode_bytesToHex.
  - apply ascii_lower_bytesToHex.
  - intros key pub H. destruct (SimNoble.is_bytes 32 key) eqn:E; [|discriminate].
    injection H as <-. now apply is_bytes_spec.
  - intros hash key sig H.
    destruct (SimNoble.is_bytes 32 key) eqn:E1; [|discriminate].
    destruct (SimNoble.is_bytes 32 hash) eqn:E2; [|discriminate].
    injection H as <-.
    apply is_bytes_spec in E1 as [L1 B1]. apply is_bytes_spec in E2 as [L2 B2].
    split; [rewrite length_app; lia|]. now apply Forall_app.
  - intros hash key pub sig H1 H2.
    destruct (SimNoble.is_bytes 32 key); [|discriminate].
    destruct (SimNoble.is_bytes 32 hash); [|discriminate].
    injection H1 as <-. injection H2 as <-.
    apply bytes_eqb_refl.
Qed.

(** X4. Signing and verifying agree: under the contract of the libraries,
    a signature [signMessage] returns for a private key verifies, with
    [verifySignature], against the public key [derivePublicKey] returns
    for that key. Both sides build the same domain-separated message and
    hash it the same way, and the hex strings the kernel writes are read
    back unchanged. *)
Theorem signMessage_verifies :
  forall (env : Env) (noble : Noble) (privateKey message publicKey sig : jsstring),
    noble_contract env noble ->
    derivePublicKey env noble privateKey = Return publicKey ->
    signMessage env noble privateKey message (js "ed25519-blake3") = Return sig ->
    verifySignature env publicKey message sig (js "ed25519-blake3") = Return true.
Proof. intros; eapply signMessage_verifies_core; eassumption. Qed.

Lemma signMessage_verifies_witness :
  verifySignature Ex.env0 Ex.alice (js "m") (Ex.alice ++ Ex.zeros64) (js "ed25519-blake3")
  = Return true.
Proof.
  apply (signMessage_verifies Ex.env0 SimNoble.noble Sample.key (js "m") Ex.alice
           (Ex.alice ++ Ex.zeros64)).
  - apply SimNoble_contract.
  - vm_compute. reflexivity.
  - vm_compute. reflexivity.
Defined.

(** X5. Key and signature are read without regard to the case of their hex
    digits: where lower-casing twice is lower-casing once,
    [verifySignature] gives the same answer for a key and a signature and
    for their lower-cased forms. *)
Theorem verifySignature_ignores_case :
  forall (env : Env) (pubkey message sig suiteId : jsstring),
    (forall s, toLowerCase env (toLowerCase env s) = toLowerCase env s) ->
    verifySignature env (toLowerCase env pubkey) message (toLowerCase env sig) suiteId
    = verifySignature env pubkey message sig suiteId.
Proof.
  intros env pubkey message sig suiteId Hidem.
  unfold verifySignature, hexToUint8Array, normalizeHex.
  now rewrite !Hidem.
Qed.

Lemma ascii_lower_idempotent (s : jsstring) :
  JsString.ascii_lower (JsString.ascii_lower s) = JsString.ascii_lower s.
Proof.
  unfold JsString.ascii_lower. rewrite map_map. apply map_ext. intros c.
  destruct ((65 <=? c)%N && (c <=? 90)%N) eqn:E; [|now rewrite E].
  apply andb_prop in E as [E1 E2]. apply N.leb_le in E1, E2.
  destruct (N.leb_spec 65 (c + 32)); destruct (N.leb_spec (c + 32) 90);
    cbn [andb]; try reflexivity; lia.
Qed.

Lemma verifySignature_ignores_case_witness :
  verifySignature Ex.env0 (toLowerCase Ex.env0 (JsString.ascii_upper Ex.alice)) (js "m")
    (toLowerCase Ex.env0 (Ex.alice ++ Ex.zeros64)) (js "ed25519-blake3")
  = verifySignature Ex.env0 (JsString.ascii_upper Ex.alice) (js "m")
      (Ex.alice ++ Ex.zeros64) (js "ed25519-blake3").
Proof.
  apply (verifySignature_ignores_case Ex.env0 (JsString.ascii_upper Ex.alice) (js "m")
           (Ex.alice ++ Ex.zeros64) (js "ed25519-blake3")).
  intros s. apply ascii_lower_idempotent.
Defined.

(** X6. [verifySignatureBatch] returns exactly when every item names the
    supported suite: one item of another suite makes the whole batch
    throw, and no item is answered. When it returns there is one answer
    per item. *)
Theorem verifySignatureBatch_all_or_nothing :
  forall (env : Env) (items : list BatchItem),
    returns (verifySignatureBatch env items)
    = forallb (fun item => JsString.eqb (item_suiteId item) (js "ed25519-blake3")) items
    /\ match verifySignatureBatch env items with
       | Return answers => List.length answers = List.length items
       | Throw _ => True
       end.
Proof.
  intros env items. induction items as [|item items [IH1 IH2]]; [split; reflexivity|].
  cbn [verifySignatureBatch forallb].
  destruct (JsString.eqb (item_suiteId item) (js "ed25519-blake3")) eqn:Hs.
  - destruct (verifySignature_supported env (item_pubkey item) (item_message item)
                (item_sig item) _ Hs) as [b ->].
    cbn [bind andb].
    destruct (verifySignatureBatch env items) as [bs|e]; cbn [bind returns] in *.
    + split; [exact IH1|]. cbn [List.length]. now rewrite IH2.
    + split; [exact IH1|exact I].
  - rewrite (verifySignature_unsupported env _ _ _ _ Hs). cbn [bind returns andb].
    split; [reflexivity|exact I].
Qed.

(** ** emit-frame, then verifyFrame *)

Ltac incl_list := repeat (apply incl_cons; [in_list|]); apply incl_nil_l.

Lemma lookup_set_other {A} (k k' : jsstring) (v : A) (o : Obj.t A) :
  JsString.eqb k k' = false -> Obj.lookup k (Obj.set k' v o) = Obj.lookup k o.
Proof.
  intros Hk. induction o as [|[k0 v0] o IH]; cbn [Obj.set Obj.lookup].
  - now rewrite Hk.
  - destruct (JsString.eqb k' k0) eqn:E; cbn [Obj.lookup].
    + apply jsstring_eqb_eq in E. subst k0. now rewrite Hk.
    + now rewrite IH.
Qed.

Lemma lookup_assign_id_if_missing env (k : jsstring) (body : Obj.t value) :
  JsString.eqb k (js "id") = false ->
  Obj.lookup k (assign_id_if_missing env body) = Obj.lookup k body.
Proof.
  intros Hk. unfold assign_id_if_missing.
  destruct (negb (Js.truthy (Obj.lookup (js "id") body))); [|reflexivity].
  now apply lookup_set_other.
Qed.

Lemma derivePublicKey_nonempty env noble (privateKey publicKey : jsstring) :
  noble_contract env noble ->
  derivePublicKey env noble privateKey = Return publicKey ->
  Js.truthy (Some (VStr publicKey)) = true.
Proof.
  intros C H. unfold derivePublicKey in H.
  destruct (hexToUint8Array_throwing env noble privateKey) as [key|e]; [|discriminate].
  cbn [bind] in H.
  destruct (ed25519_getPublicKey noble key) as [pub|e] eqn:Hgp; [|discriminate].
  cbn [bind] in H. injection H as <-.
  destruct (public_key_bytes env noble C _ _ Hgp) as [Hl _].
  destruct pub as [|b pub]; [discriminate Hl|]. reflexivity.
Qed.

(** X7. A frame that [emit-frame] signs for a body without executor,
    handed in bare or inside a frame, is verified by [verifyFrame] without
    any complaint about the signature or the signer: under the contract
    of the libraries its errors are at most the missing id, intent_id or
    sequence of the body handed in and the id mismatch. The call returns,
    unless the id handed in cannot be written into the id mismatch
    message. *)
Theorem emitted_frame_signature_accepted :
  forall (env : Env) (noble : Noble) (privateKey signed_at : jsstring)
         (input : value) (body : Obj.t value) (frame : Frame),
    noble_contract env noble ->
    frame_body_of input = Return (Some (VObj body)) ->
    Js.truthy (Obj.lookup (js "executor") body) = false ->
    emit_frame env noble privateKey signed_at input = Return frame ->
    exists emitted,
      SignedObject.body frame = Some emitted
      /\ match verifyFrame env frame None with
         | Return r =>
             incl (VerificationResult.errors r)
               ([js "Missing body.id"; js "Missing body.intent_id";
                 js "Missing or invalid body.sequence"]
                  ++ said (id_mismatch emitted (computeObjectId env emitted)))
         | Throw e => e = TypeError /\ unconvertible (Js.prop emitted (js "id"))
         end.
Proof.
  intros env noble privateKey signed_at input body frame C Hin Hexec Hemit.
  unfold emit_frame in Hemit.
  destruct (derivePublicKey env noble privateKey) as [pk|e] eqn:Hpk; [|discriminate].
  cbn [bind] in Hemit. rewrite Hin in Hemit. cbn [bind] in Hemit.
  rewrite Hexec in Hemit. cbn [negb bind] in Hemit.
  set (body' := assign_id_if_missing env (Obj.set (js "executor") (VStr pk) body)) in *.
  destruct (signMessage env noble privateKey _ _) as [sig|e] eqn:Hsig; [|discriminate].
  cbn [bind] in Hemit. injection Hemit as <-.
  pose proof (signMessage_verifies_core env noble _ _ _ _ C Hpk Hsig) as Hv.
  assert (Hex : Obj.lookup (js "executor") body' = Some (VStr pk)).
  { unfold body'. rewrite lookup_assign_id_if_missing by reflexivity.
    apply lookup_set_same. }
  pose proof (derivePublicKey_nonempty env noble _ _ C Hpk) as Hne.
  exists (VObj body'). split; [reflexivity|]. unfold verifyFrame.
  cbn [SignedObject.object_type SignedObject.body SignedObject.signature
       Signature.pubkey Signature.sig Signature.suite_id Js.prop].
  rewrite jsstring_eqb_refl. cbn [negb].
  change (Js.truthy (Some (VObj body'))) with true. cbn [negb].
  rewrite Hex, Hne. cbn [negb].
  destruct (Js.truthy (Obj.lookup (js "id") body'));
    destruct (Js.truthy (Obj.lookup (js "intent_id") body'));
    destruct (match Obj.lookup (js "sequence") body' with
              | Some (VNum _) => false
              | _ => true
              end);
    cbn [negb push_when app nonempty];
    try (cbn [failure VerificationResult.errors]; incl_list).
  match goal with
  | |- context [push_template ?c ?errors ?m] =>
      destruct (push_template c errors m) as [errors'|e'] eqn:Hp
  end; cbn [bind].
  - unfold extractBodyForSigning. rewrite Hv.
    cbn [bind call_toLowerCase negb push_when]. rewrite jsstring_eqb_refl.
    cbn [negb push_template bind].
    assert (Hincl : incl errors'
                      ([js "Missing body.id"; js "Missing body.intent_id";
                        js "Missing or invalid body.sequence"]
                         ++ said (id_mismatch (VObj body')
                                    (computeObjectId env (VObj body'))))).
    { eapply push_template_within; [apply incl_nil_l| |exact Hp].
      apply incl_appr, incl_refl. }
    destruct (nonempty errors'); [exact Hincl|apply incl_nil_l].
  - apply push_template_throws, id_mismatch_throws, unconvertible_intro in Hp.
    exact Hp.
Qed.

Lemma emitted_frame_signature_accepted_witness :
  exists emitted,
    SignedObject.body Sample.emitted = Some emitted
    /\ match verifyFrame Ex.env0 Sample.emitted None with
       | Return r =>
           incl (VerificationResult.errors r)
             ([js "Missing body.id"; js "Missing body.intent_id";
               js "Missing or invalid body.sequence"]
                ++ said (id_mismatch emitted (computeObjectId Ex.env0 emitted)))
       | Throw e => e = TypeError /\ unconvertible (Js.prop emitted (js "id"))
       end.
Proof.
  apply (emitted_frame_signature_accepted Ex.env0 SimNoble.noble Sample.key
           (js "2025-01-01T00:10:01.000Z") (VObj Sample.bare_frame_body)
           Sample.bare_frame_body).
  - apply SimNoble_contract.
  - reflexivity.
  - reflexivity.
  - vm_compute. reflexivity.
Defined.

(** ** Counting in [verifySigset] *)

Lemma verifySigset_loop_null env message auth rest i errors validCount :
  verifySigset_loop env message auth i (None :: rest) errors validCount
  = verifySigset_loop env message auth (i + 1) rest errors validCount.
Proof. reflexivity. Qed.

(** Each signature that is there either raises the count by one or adds
    one error. *)
Lemma verifySigset_loop_accounting env message auth (sigs : list (option Signature.t)) :
  forall i errors validCount errors' validCount',
    verifySigset_loop env message auth i sigs errors validCount
    = Return (errors', validCount') ->
    (Z.of_nat (List.length errors') + validCount'
     = Z.of_nat (List.length errors) + validCount
       + Z.of_nat (List.length (present sigs)))%Z.
Proof.
  induction sigs as [|[sig|] sigs IH]; intros i errors validCount errors' validCount' H.
  - simpl in H. injection H as <- <-. simpl. lia.
  - cbn [present flat_map]. fold (present sigs). rewrite length_app. cbn [List.length].
    destruct (signer_authorized env auth sig) eqn:Ha.
    + rewrite (verifySigset_loop_authorized _ _ _ _ _ _ _ _ Ha) in H.
      destruct (verifySignature env (Signature.pubkey sig) message (Signature.sig sig)
                  (Signature.suite_id sig)) as [[|]|e]; cbn [bind] in H;
        try discriminate; apply IH in H; rewrite ?length_app in H;
        cbn [List.length] in H; lia.
    + rewrite (verifySigset_loop_unauthorized _ _ _ _ _ _ _ _ Ha) in H.
      apply IH in H. rewrite length_app in H. cbn [List.length] in H. lia.
  - rewrite verifySigset_loop_null in H. apply IH in H.
    cbn [present flat_map app]. fold (present sigs). exact H.
Qed.

(** Only signatures that pass the authorization test raise the count. *)
Lemma verifySigset_loop_bound env message auth (sigs : list (option Signature.t)) :
  forall i errors validCount errors' validCount',
    verifySigset_loop env message auth i sigs errors validCount
    = Return (errors', validCount') ->
    (validCount' <= validCount
                    + Z.of_nat (List.length
                                  (authorized_signatures env auth (present sigs))))%Z.
Proof.
  induction sigs as [|[sig|] sigs IH]; intros i errors validCount errors' validCount' H.
  - simpl in H. injection H as _ <-. simpl. lia.
  - unfold authorized_signatures in *. cbn [present flat_map app filter].
    fold (present sigs).
    destruct (signer_authorized env auth sig) eqn:Ha.
    + rewrite (verifySigset_loop_authorized _ _ _ _ _ _ _ _ Ha) in H.
      destruct (verifySignature env (Signature.pubkey sig) message (Signature.sig sig)
                  (Signature.suite_id sig)) as [[|]|e]; cbn [bind] in H;
        try discriminate; apply IH in H; cbn [List.length]; lia.
    + rewrite (verifySigset_loop_unauthorized _ _ _ _ _ _ _ _ Ha) in H.
      apply IH in H. lia.
  - rewrite verifySigset_loop_null in H. apply IH in H.
    cbn [present flat_map app]. fold (present sigs). exact H.
Qed.

Lemma verifySigset_inv env (sigset : Sigset.t) message auth (r : SigsetResult.t) :
  verifySigset env sigset message auth = Return r ->
  exists errors,
    verifySigset_loop env message auth 0 (Sigset.signatures sigset) [] 0
    = Return (errors, SigsetResult.validCount r)
    /\ SigsetResult.valid r = reaches (SigsetResult.validCount r) (Sigset.threshold sigset)
    /\ SigsetResult.errors r
       = match Sigset.threshold sigset with
         | Some _ =>
             push_when (negb (SigsetResult.valid r)) errors
               (Threshold_not_met (SigsetResult.validCount r) (Sigset.threshold sigset))
         | None => errors
         end.
Proof.
  intros H. unfold verifySigset in H.
  destruct (verifySigset_loop env message auth 0 (Sigset.signatures sigset) [] 0)
    as [[errors validCount]|e]; [|discriminate].
  cbn [bind] in H. injection H as <-.
  cbn [SigsetResult.valid SigsetResult.validCount SigsetResult.errors].
  exists errors. split; [reflexivity|]. split; [reflexivity|].
  destruct (Sigset.threshold sigset) as [t|]; cbn [reaches falls_short].
  - destruct (Z.leb_spec t validCount) as [Hle|Hlt]; cbn [negb andb].
    + reflexivity.
    + apply Z.ltb_lt in Hlt. now rewrite Hlt.
  - reflexivity.
Qed.

(** An invalid result for a sigset that has a threshold carries an error. *)
Lemma verifySigset_invalid_has_error env (sigset : Sigset.t) message auth
    (r : SigsetResult.t) (t : Z) :
  verifySigset env sigset message auth = Return r ->
  Sigset.threshold sigset = Some t ->
  SigsetResult.valid r = false ->
  nonempty (SigsetResult.errors r) = true.
Proof.
  intros H Ht Hv. destruct (verifySigset_inv env sigset message auth r H)
    as (errors & _ & _ & ->).
  rewrite Ht, Hv. cbn [negb push_when]. apply nonempty_app_single.
Qed.

(** X8. [verifySigset] accounts for every signature exactly once: each one
    that is there is either counted in [validCount] or reported by one
    error, and the only other error is the one for a threshold that is
    not met. An entry that is [null] is passed over in silence, and a
    sigset without a threshold is invalid without an error of its own. *)
Theorem verifySigset_accounts_for_every_signature :
  forall (env : Env) (sigset : Sigset.t) (message : jsstring)
         (authorizedPubkeys : option (list jsstring)) (r : SigsetResult.t),
    verifySigset env sigset message authorizedPubkeys = Return r ->
    (Z.of_nat (List.length (SigsetResult.errors r)) + SigsetResult.validCount r
     = Z.of_nat (List.length (present (Sigset.signatures sigset)))
       + match Sigset.threshold sigset with
         | Some _ => if SigsetResult.valid r then 0 else 1
         | None => 0
         end)%Z
    /\ (Sigset.threshold sigset = None -> SigsetResult.valid r = false).
Proof.
  intros env sigset message auth r H.
  destruct (verifySigset_inv env sigset message auth r H) as (errors & Hl & Hv & ->).
  apply verifySigset_loop_accounting in Hl. cbn [List.length] in Hl.
  split.
  - destruct (Sigset.threshold sigset); [|lia].
    destruct (SigsetResult.valid r); cbn [negb push_when];
      rewrite ?length_app; cbn [List.length]; lia.
  - intros Hn. rewrite Hv, Hn. reflexivity.
Qed.

Lemma verifySigset_accounts_for_every_signature_witness :
  (Z.of_nat (List.length (SigsetResult.errors Ex.one_of_two_result))
   + SigsetResult.validCount Ex.one_of_two_result
   = Z.of_nat (List.length (present (Sigset.signatures Ex.one_of_two)))
     + match Sigset.threshold Ex.one_of_two with
       | Some _ => if SigsetResult.valid Ex.one_of_two_result then 0 else 1
       | None => 0
       end)%Z
  /\ (Sigset.threshold Ex.one_of_two = None
      -> SigsetResult.valid Ex.one_of_two_result = false).
Proof.
  apply (verifySigset_accounts_for_every_signature Ex.env0 Ex.one_of_two (js "m") None
           Ex.one_of_two_result).
  vm_compute. reflexivity.
Defined.

Lemma verifySigset_loop_exact env message auth (sigs : list (option Signature.t)) :
  forall i errors validCount errors' validCount',
    verifySigset_loop env message auth i sigs errors validCount
    = Return (errors', validCount') ->
    validCount'
    = (validCount
       + Z.of_nat (List.length
                     (filter (counted_signature env message auth) (present sigs))))%Z.
Proof.
  induction sigs as [|[sig|] sigs IH]; intros i errors validCount errors' validCount' H.
  - simpl in H. injection H as _ <-. simpl. lia.
  - cbn [present flat_map app filter]. fold (present sigs).
    unfold counted_signature at 1.
    destruct (signer_authorized env auth sig) eqn:Ha; cbn [andb].
    + rewrite (verifySigset_loop_authorized _ _ _ _ _ _ _ _ Ha) in H.
      destruct (verifySignature env (Signature.pubkey sig) message (Signature.sig sig)
                  (Signature.suite_id sig)) as [[|]|e]; cbn [bind] in H;
        try discriminate; apply IH in H; cbn [List.length]; lia.
    + rewrite (verifySigset_loop_unauthorized _ _ _ _ _ _ _ _ Ha) in H.
      now apply IH in H.
  - rewrite verifySigset_loop_null in H. apply IH in H.
    cbn [present flat_map app]. fold (present sigs). exact H.
Qed.

(** A sigset without threshold that holds one [null]: invalid, and without
    any error. *)
Example sigset_without_threshold (env : Env) (message : jsstring)
    (authorizedPubkeys : option (list jsstring)) :
  verifySigset env {| Sigset.threshold := None; Sigset.signatures := [None] |} message
    authorizedPubkeys
  = Return {| SigsetResult.valid := false;
              SigsetResult.validCount := 0;
              SigsetResult.errors := [] |}.
Proof. reflexivity. Qed.

(** X9. [validCount] is the number of signatures that pass the
    authorization test and verify, each occurrence counted: a signature of
    a signer that is not authorized is never counted, and the count lies
    between zero and the number of authorized signatures. *)
Theorem verifySigset_counts_only_authorized :
  forall (env : Env) (sigset : Sigset.t) (message : jsstring)
         (authorizedPubkeys : option (list jsstring)) (r : SigsetResult.t),
    verifySigset env sigset message authorizedPubkeys = Return r ->
    SigsetResult.validCount r
    = Z.of_nat (List.length
                  (filter (counted_signature env message authorizedPubkeys)
                     (present (Sigset.signatures sigset))))
    /\ (0 <= SigsetResult.validCount r
        <= Z.of_nat (List.length (authorized_signatures env authorizedPubkeys
                                    (present (Sigset.signatures sigset)))))%Z.
Proof.
  intros env sigset message auth r H.
  destruct (verifySigset_inv env sigset message auth r H) as (errors & Hl & _ & _).
  split; [|split].
  - now apply verifySigset_loop_exact in Hl.
  - now apply verifySigset_loop_count in Hl.
  - apply verifySigset_loop_bound in Hl. lia.
Qed.

Lemma verifySigset_counts_only_authorized_witness :
  SigsetResult.validCount Sample.nobody_counted
  = Z.of_nat (List.length
                (filter (counted_signature Ex.env0 (js "m") (Some [Ex.bob]))
                   (present (Sigset.signatures Ex.one_of_two))))
  /\ (0 <= SigsetResult.validCount Sample.nobody_counted
      <= Z.of_nat (List.length (authorized_signatures Ex.env0 (Some [Ex.bob])
                                  (present (Sigset.signatures Ex.one_of_two)))))%Z.
Proof.
  apply (verifySigset_counts_only_authorized Ex.env0 Ex.one_of_two (js "m")
           (Some [Ex.bob])).
  vm_compute. reflexivity.
Defined.

(** ** What a valid result means *)

Lemma nonempty_push_when_false (c : bool) (errors : list jsstring) (msg : jsstring) :
  nonempty (push_when c errors msg) = false -> c = false /\ errors = [].
Proof.
  unfold push_when. destruct c.
  - now rewrite nonempty_app_single.
  - destruct errors; [auto|discriminate].
Qed.

Ltac invalid_result H :=
  solve [injection H as <-;
         match goal with
         | Hv : VerificationResult.valid _ = true |- _ => discriminate Hv
         end
        | discriminate H].

Lemma nonempty_false {A} (l : list A) : nonempty l = false -> l = [].
Proof. now destruct l. Qed.

Lemma sigset_passes_iff env (sigset : Sigset.t) message auth (sr : SigsetResult.t) :
  verifySigset env sigset message auth = Return sr ->
  sigset_passes sigset sr
  <-> SigsetResult.valid sr = true
      \/ (Sigset.threshold sigset = None /\ SigsetResult.errors sr = []).
Proof.
  intros Hsr. destruct (verifySigset_inv env _ _ _ _ Hsr) as (errors & _ & Hv & _).
  unfold sigset_passes. rewrite Hv.
  destruct (Sigset.threshold sigset) as [t|]; cbn [reaches].
  - rewrite Z.leb_le. split; [now left|]. intros [H|[H _]]; [exact H|discriminate H].
  - split; [now right|]. intros [H|[_ H]]; [discriminate H|exact H].
Qed.

(** No error is left after the check of the sigset only when there was
    none before and the sigset passes. *)
Lemma no_error_after_sigset env (sigset : Sigset.t) message auth (sr : SigsetResult.t)
    (errors : list jsstring) :
  verifySigset env sigset message auth = Return sr ->
  (if negb (SigsetResult.valid sr)
   then errors ++ SigsetResult.errors sr
   else errors) = [] ->
  errors = [] /\ sigset_passes sigset sr.
Proof.
  intros Hsr H. rewrite (sigset_passes_iff env _ _ _ _ Hsr).
  destruct (SigsetResult.valid sr) eqn:Hv; cbn [negb] in H.
  - split; [exact H|now left].
  - apply app_eq_nil in H as [H He]. split; [exact H|]. right. split; [|exact He].
    destruct (Sigset.threshold sigset) as [t|] eqn:Ht; [|reflexivity].
    pose proof (verifySigset_invalid_has_error env _ _ _ _ t Hsr Ht Hv) as Hn.
    rewrite He in Hn. discriminate Hn.
Qed.

(** ** Collapses *)

Lemma check_frames_intent_clean (collapse_body : value) (frames : list Frame) :
  forall errors,
    check_frames_intent collapse_body frames errors = Return [] ->
    errors = [] /\ Forall (frame_of_intent collapse_body) frames.
Proof.
  induction frames as [|f frames IH]; intros errors H.
  - cbn [check_frames_intent] in H. injection H as ->. split; [reflexivity|constructor].
  - cbn [check_frames_intent] in H.
    destruct (SignedObject.body f) as [fb|] eqn:Hfb; [|discriminate].
    destruct (Get (Some fb) (js "intent_id")) as [x|e] eqn:Hg; [|discriminate].
    cbn [bind] in H.
    assert (Hx : x = Js.prop fb (js "intent_id")).
    { destruct fb; cbn [Get] in Hg; try discriminate; now injection Hg as <-. }
    destruct (Js.strict_eq x (Js.prop collapse_body (js "intent_id"))) eqn:Heq;
      cbn [negb] in H.
    + cbn [bind] in H. apply IH in H as [-> HF]. split; [reflexivity|].
      constructor; [|exact HF]. exists fb. subst x. split; [exact Hfb|exact Heq].
    + destruct (Get (Some fb) (js "id")) as [y|e]; [|discriminate].
      cbn [bind] in H.
      match type of H with
      | bind (bind ?m _) _ = _ => destruct m as [text|e]; [|discriminate]
      end.
      cbn [bind] in H. apply IH in H as [Hnil _].
      apply app_eq_nil in Hnil as [_ Hnil]. discriminate.
Qed.

(** X10. What [valid] means for a collapse. When [verifyCollapse] returns
    [valid = true], the object is of type collapse, the stored id is the
    digest of the body, the check of the sigset, over the canonical body
    and for whatever signers, left no error, and every frame handed in has
    a body whose [intent_id] is the [intent_id] of the collapse. The
    sigset reaches its threshold, unless it has none: then no signature
    in it failed, and no number of signatures is asked for. *)
Theorem verifyCollapse_valid_means :
  forall (env : Env) (collapse : Collapse) (frames : option (list Frame))
         (r : VerificationResult.t),
    verifyCollapse env collapse frames = Return r ->
    VerificationResult.valid r = true ->
    exists (body : value) (sigset : Sigset.t) (sigResult : SigsetResult.t),
      SignedObject.object_type collapse = js "collapse"
      /\ SignedObject.body collapse = Some body
      /\ Js.prop body (js "id") = Some (VStr (computeObjectId env body))
      /\ SignedObject.sigset collapse = Some sigset
      /\ verifySigset env sigset (Canonical.toCanonical body) None = Return sigResult
      /\ sigset_passes sigset sigResult
      /\ (forall provided, frames = Some provided ->
                           Forall (frame_of_intent body) provided).
Proof.
  intros env [ot b s sg] frames r H Hvalid.
  unfold verifyCollapse in H.
  cbn [SignedObject.object_type SignedObject.body SignedObject.sigset] in *.
  destruct (JsString.eqb ot (js "collapse")) eqn:Hot; cbn [negb] in H;
    [|invalid_result H].
  apply jsstring_eqb_eq in Hot.
  destruct b as [b|]; [|invalid_result H].
  destruct (Js.truthy (Some b)); cbn [negb] in H; [|invalid_result H].
  destruct (Js.truthy (Js.prop b (js "id"))); cbn [negb push_when app nonempty] in H;
    destruct (Js.truthy (Js.prop b (js "intent_id")));
    cbn [negb push_when app nonempty] in H;
    destruct (Js.prop b (js "frame_ids")) as [[ | | | |ids| ]|];
    cbn [negb push_when app nonempty] in H;
    try invalid_result H.
  match type of H with
  | bind (push_template ?c ?e ?m) _ = _ =>
      destruct (push_template c e m) as [errors0|e0] eqn:Hid; [|discriminate H]
  end.
  cbn [bind] in H.
  destruct s as [s|]; [|invalid_result H].
  unfold extractBodyForSigning in H.
  destruct (verifySigset env s (Canonical.toCanonical b) None) as [sr|e] eqn:Hsr;
    [|discriminate].
  cbn [bind] in H.
  match type of H with
  | bind ?m _ = _ => destruct m as [warnings|e]; [|discriminate]
  end.
  cbn [bind] in H.
  assert (Hgoal :
            (if negb (SigsetResult.valid sr)
             then errors0 ++ SigsetResult.errors sr
             else errors0) = [] ->
            (forall provided, frames = Some provided ->
                              Forall (frame_of_intent b) provided) ->
            exists (body : value) (sigset : Sigset.t) (sigResult : SigsetResult.t),
              ot = js "collapse" /\ Some b = Some body
              /\ Js.prop body (js "id") = Some (VStr (computeObjectId env body))
              /\ Some s = Some sigset
              /\ verifySigset env sigset (Canonical.toCanonical body) None
                 = Return sigResult
              /\ sigset_passes sigset sigResult
              /\ (forall provided0, frames = Some provided0 ->
                                    Forall (frame_of_intent body) provided0)).
  { intros He HF.
    destruct (no_error_after_sigset env _ _ _ _ _ Hsr He) as [-> Hpass].
    apply push_template_nil in Hid as [Hid _].
    apply negb_false_iff, strict_eq_VStr in Hid.
    exists b, s, sr. repeat split; assumption. }
  destruct frames as [[|f fs]|]; cbn [bind] in H.
  - match type of H with
    | (if nonempty ?e then _ else _) = _ => destruct (nonempty e) eqn:Hne
    end; [invalid_result H|].
    apply nonempty_false in Hne. apply (Hgoal Hne).
    intros provided Hp. injection Hp as <-. constructor.
  - destruct (frame_ids_of (f :: fs)) as [idset|e]; [|discriminate].
    cbn [bind] in H.
    match type of H with
    | bind (bind ?m _) _ = _ => destruct m as [warnings'|e]; [|discriminate]
    end.
    cbn [bind] in H.
    match type of H with
    | bind (bind ?m _) _ = _ => destruct m as [errors|e] eqn:Hc; [|discriminate]
    end.
    cbn [bind] in H.
    destruct errors as [|e errors]; cbn [nonempty] in H; [|invalid_result H].
    apply check_frames_intent_clean in Hc as [He HF].
    apply (Hgoal He). intros provided Hp. injection Hp as <-. exact HF.
  - match type of H with
    | (if nonempty ?e then _ else _) = _ => destruct (nonempty e) eqn:Hne
    end; [invalid_result H|].
    apply nonempty_false in Hne. apply (Hgoal Hne). discriminate.
Qed.

Lemma verifyCollapse_valid_means_witness :
  exists (body : value) (sigset : Sigset.t) (sigResult : SigsetResult.t),
    SignedObject.object_type (Sample.collapse 1 [Ex.sig_alice]) = js "collapse"
    /\ SignedObject.body (Sample.collapse 1 [Ex.sig_alice]) = Some body
    /\ Js.prop body (js "id") = Some (VStr (computeObjectId Ex.env0 body))
    /\ SignedObject.sigset (Sample.collapse 1 [Ex.sig_alice]) = Some sigset
    /\ verifySigset Ex.env0 sigset (Canonical.toCanonical body) None = Return sigResult
    /\ sigset_passes sigset sigResult
    /\ (forall provided, Some [Ex.frame []] = Some provided ->
                         Forall (frame_of_intent body) provided).
Proof.
  apply (verifyCollapse_valid_means Ex.env0 (Sample.collapse 1 [Ex.sig_alice])
           (Some [Ex.frame []]) (success None)).
  - vm_compute. reflexivity.
  - reflexivity.
Defined.



(** ** [verifyFrame] with a parent Intent *)

Ltac same_result H :=
  injection H as <-; eexists; split; [reflexivity|left; reflexivity].

Ltac template_pushed H errors Hp :=
  match type of H with
  | bind (push_template ?c ?e ?m) _ = _ =>
      destruct (push_template c e m) as [errors|?] eqn:Hp; [|discriminate H]
  | bind (bind (push_template ?c ?e ?m) _) _ = _ =>
      destruct (push_template c e m) as [errors|?] eqn:Hp; [|discriminate H]
  end.

(** X12. What the parent Intent adds to [verifyFrame]. When the call with
    a parent returns, the call without it returns too, and the error list
    is the same but for at most one more error at its end: the frame's
    [intent_id] is not the parent's id. An executor that is not among the
    parent's authorized signers is never an error. *)
Theorem verifyFrame_parent_adds_one_check :
  forall (env : Env) (frame : Frame) (intent : Intent),
    returns (verifyFrame env frame (Some intent)) = true ->
    exists r r0,
      verifyFrame env frame (Some intent) = Return r
      /\ verifyFrame env frame None = Return r0
      /\ (VerificationResult.errors r = VerificationResult.errors r0
          \/ exists body intent_body text,
               SignedObject.body frame = Some body
               /\ SignedObject.body intent = Some intent_body
               /\ Js.strict_eq (Js.prop body (js "intent_id"))
                    (Js.prop intent_body (js "id")) = false
               /\ Frame_intent_mismatch body (Js.prop intent_body (js "id"))
                  = Return text
               /\ VerificationResult.errors r = VerificationResult.errors r0 ++ [text]).
Proof.
  intros env [ot b sgs sg] intent Hret.
  destruct (verifyFrame env _ (Some intent)) as [r|e] eqn:H; [|discriminate Hret].
  clear Hret. exists r. cut (exists r0,
      verifyFrame env
        {| SignedObject.object_type := ot; SignedObject.body := b;
           SignedObject.sigset := sgs; SignedObject.signature := sg |} None = Return r0
      /\ (VerificationResult.errors r = VerificationResult.errors r0
          \/ exists body intent_body text,
               b = Some body
               /\ SignedObject.body intent = Some intent_body
               /\ Js.strict_eq (Js.prop body (js "intent_id"))
                    (Js.prop intent_body (js "id")) = false
               /\ Frame_intent_mismatch body (Js.prop intent_body (js "id"))
                  = Return text
               /\ VerificationResult.errors r = VerificationResult.errors r0 ++ [text])).
  { intros (r0 & H0 & Hr). exists r0. split; [reflexivity|]. split; assumption. }
  unfold verifyFrame in *.
  cbn [SignedObject.object_type SignedObject.body SignedObject.signature] in *.
  destruct (JsString.eqb ot (js "frame")); cbn [negb] in *; [|same_result H].
  destruct b as [b|]; [|same_result H].
  destruct (Js.truthy (Some b)); cbn [negb] in *; [|same_result H].
  match type of H with
  | (if nonempty ?e then _ else _) = _ => destruct (nonempty e)
  end; [same_result H|].
  template_pushed H errors0 Hid. cbn [bind] in *.
  destruct sg as [sg|]; [|same_result H].
  destruct (verifySignature env (Signature.pubkey sg) (extractBodyForSigning b)
              (Signature.sig sg) (Signature.suite_id sg)) as [sigValid|e];
    [|discriminate H].
  cbn [bind] in *.
  destruct (call_toLowerCase env (Js.prop b (js "executor"))) as [lower|e];
    [|discriminate H].
  cbn [bind] in *.
  template_pushed H errors Hpk. cbn [bind] in *.
  destruct (Get (SignedObject.body intent) (js "id")) as [intent_id|e] eqn:Hgid;
    [|discriminate H].
  destruct (Get_inv _ _ _ Hgid) as (ib & Hib & ->).
  cbn [bind] in H.
  template_pushed H errors' Hp. cbn [bind] in H.
  destruct (Get (SignedObject.body intent) (js "policy")) as [policy|e];
    [|discriminate H].
  cbn [bind] in H.
  destruct (authorized_set env policy) as [authorized|e]; [|discriminate H].
  cbn [bind] in H.
  match type of H with
  | bind (bind ?m _) _ = _ => destruct m as [warnings|e]; [|discriminate H]
  end.
  cbn [bind] in H.
  unfold push_template in Hp.
  destruct (Js.strict_eq (Js.prop b (js "intent_id")) (Js.prop ib (js "id"))) eqn:Hc;
    cbn [negb] in Hp.
  - injection Hp as <-. destruct errors; cbn [nonempty] in *; same_result H.
  - destruct (Frame_intent_mismatch b (Js.prop ib (js "id"))) as [text|e] eqn:Hm;
      [|discriminate Hp].
    cbn [bind] in Hp. injection Hp as <-.
    rewrite nonempty_app_single in H. injection H as <-.
    destruct errors; cbn [nonempty]; eexists; (split; [reflexivity|]); right;
      exists b, ib, text; repeat split; assumption || reflexivity.
Qed.

Lemma verifyFrame_parent_adds_one_check_witness :
  exists r r0,
    verifyFrame Ex.env0 (Ex.frame []) (Some Sample.other_parent) = Return r
    /\ verifyFrame Ex.env0 (Ex.frame []) None = Return r0
    /\ (VerificationResult.errors r = VerificationResult.errors r0
        \/ exists body intent_body text,
             SignedObject.body (Ex.frame []) = Some body
             /\ SignedObject.body Sample.other_parent = Some intent_body
             /\ Js.strict_eq (Js.prop body (js "intent_id"))
                  (Js.prop intent_body (js "id")) = false
             /\ Frame_intent_mismatch body (Js.prop intent_body (js "id"))
                = Return text
             /\ VerificationResult.errors r = VerificationResult.errors r0 ++ [text]).
Proof.
  apply (verifyFrame_parent_adds_one_check Ex.env0 (Ex.frame []) Sample.other_parent).
  vm_compute. reflexivity.
Defined.



(** X14. What [valid] means for a frame. When [verifyFrame] returns
    [valid = true], with or without a parent, the object is of type frame,
    the stored id is the digest of the body, intent_id, a numeric sequence
    and the executor are there, the signature verifies over the canonical
    body, and the signing key is the executor up to letter case. With a
    parent, the frame's [intent_id] is the parent's id. *)
Theorem verifyFrame_valid_means :
  forall (env : Env) (frame : Frame) (intent : option Intent)
         (r : VerificationResult.t),
    verifyFrame env frame intent = Return r ->
    VerificationResult.valid r = true ->
    exists (body : value) (signature : Signature.t) (executor : jsstring)
           (sequence : Z),
      SignedObject.object_type frame = js "frame"
      /\ SignedObject.body frame = Some body
      /\ Js.prop body (js "id") = Some (VStr (computeObjectId env body))
      /\ Js.truthy (Js.prop body (js "intent_id")) = true
      /\ Js.prop body (js "sequence") = Some (VNum sequence)
      /\ Js.prop body (js "executor") = Some (VStr executor)
      /\ SignedObject.signature frame = Some signature
      /\ verifySignature env (Signature.pubkey signature) (Canonical.toCanonical body)
           (Signature.sig signature) (Signature.suite_id signature) = Return true
      /\ toLowerCase env (Signature.pubkey signature) = toLowerCase env executor
      /\ (forall parent, intent = Some parent ->
            exists parent_body,
              SignedObject.body parent = Some parent_body
              /\ Js.strict_eq (Js.prop body (js "intent_id"))
                   (Js.prop parent_body (js "id")) = true).
Proof.
  intros env [ot b sgs sg] intent r H Hvalid.
  unfold verifyFrame in H.
  cbn [SignedObject.object_type SignedObject.body SignedObject.signature] in *.
  destruct (JsString.eqb ot (js "frame")) eqn:Hot; cbn [negb] in H; [|invalid_result H].
  apply jsstring_eqb_eq in Hot.
  destruct b as [b|]; [|invalid_result H].
  destruct (Js.truthy (Some b)); cbn [negb] in H; [|invalid_result H].
  destruct (Js.truthy (Js.prop b (js "id"))); cbn [negb push_when app nonempty] in H;
    destruct (Js.truthy (Js.prop b (js "intent_id"))) eqn:Hintent;
    cbn [negb push_when app nonempty] in H;
    destruct (Js.prop b (js "sequence")) as [[ | |n| | | ]|] eqn:Hseq;
    cbn [negb push_when app nonempty] in H;
    destruct (Js.truthy (Js.prop b (js "executor")));
    cbn [negb push_when app nonempty] in H;
    try invalid_result H.
  template_pushed H errors0 Hid. cbn [bind] in H.
  destruct sg as [sg|]; [|invalid_result H].
  unfold extractBodyForSigning in H.
  destruct (verifySignature env (Signature.pubkey sg) (Canonical.toCanonical b)
              (Signature.sig sg) (Signature.suite_id sg)) as [sigValid|e] eqn:Hv;
    [|discriminate H].
  cbn [bind] in H.
  destruct (Js.prop b (js "executor")) as [[ | | |executor| | ]|] eqn:Hex;
    cbn [call_toLowerCase bind] in H; try discriminate H.
  template_pushed H errors1 Hpk. cbn [bind] in H.
  assert (Hfinal :
            errors1 = [] ->
            Js.prop b (js "id") = Some (VStr (computeObjectId env b))
            /\ sigValid = true
            /\ toLowerCase env (Signature.pubkey sg) = toLowerCase env executor).
  { intros ->. apply push_template_nil in Hpk as [Hpk Hsig].
    assert (Hs : nonempty (push_when (negb sigValid) errors0
                             (js "Invalid executor signature")) = false)
      by now rewrite Hsig.
    apply nonempty_push_when_false in Hs as [Hs ->].
    apply push_template_nil in Hid as [Hid _].
    apply negb_false_iff in Hpk, Hs, Hid.
    apply jsstring_eqb_eq in Hpk. apply strict_eq_VStr in Hid.
    repeat split; assumption. }
  destruct intent as [parent|].
  - destruct (Get (SignedObject.body parent) (js "id")) as [intent_id|e] eqn:Hgid;
      [|discriminate H].
    destruct (Get_inv _ _ _ Hgid) as (pb & Hpb & ->).
    cbn [bind] in H.
    template_pushed H errors2 Hp. cbn [bind] in H.
    destruct (Get (SignedObject.body parent) (js "policy")) as [policy|e];
      [|discriminate H].
    cbn [bind] in H.
    destruct (authorized_set env policy) as [authorized|e]; [|discriminate H].
    cbn [bind] in H.
    match type of H with
    | bind (bind ?m _) _ = _ => destruct m as [warnings|e]; [|discriminate H]
    end.
    cbn [bind] in H.
    destruct errors2 as [|x errors2]; cbn [nonempty] in H; [|invalid_result H].
    apply push_template_nil in Hp as [Hc He1].
    destruct (Hfinal He1) as (Hid' & -> & Hpk').
    apply negb_false_iff in Hc.
    exists b, sg, executor, n. repeat split; try assumption; try reflexivity.
    intros p Hpp. injection Hpp as <-. exists pb. split; assumption.
  - cbn [bind] in H.
    destruct errors1 as [|x errors1]; cbn [nonempty] in H; [|invalid_result H].
    destruct (Hfinal eq_refl) as (Hid' & -> & Hpk').
    exists b, sg, executor, n. repeat split; try assumption; try reflexivity.
    intros p Hpp. discriminate Hpp.
Qed.

Lemma verifyFrame_valid_means_witness :
  exists (body : value) (signature : Signature.t) (executor : jsstring) (sequence : Z),
    SignedObject.object_type (Ex.frame []) = js "frame"
    /\ SignedObject.body (Ex.frame []) = Some body
    /\ Js.prop body (js "id") = Some (VStr (computeObjectId Ex.env0 body))
    /\ Js.truthy (Js.prop body (js "intent_id")) = true
    /\ Js.prop body (js "sequence") = Some (VNum sequence)
    /\ Js.prop body (js "executor") = Some (VStr executor)
    /\ SignedObject.signature (Ex.frame []) = Some signature
    /\ verifySignature Ex.env0 (Signature.pubkey signature) (Canonical.toCanonical body)
         (Signature.sig signature) (Signature.suite_id signature) = Return true
    /\ toLowerCase Ex.env0 (Signature.pubkey signature) = toLowerCase Ex.env0 executor
    /\ (forall parent, Some (Ex.parent 1) = Some parent ->
          exists parent_body,
            SignedObject.body parent = Some parent_body
            /\ Js.strict_eq (Js.prop body (js "intent_id"))
                 (Js.prop parent_body (js "id")) = true).
Proof.
  apply (verifyFrame_valid_means Ex.env0 (Ex.frame []) (Some (Ex.parent 1))
           (success None)).
  - vm_compute. reflexivity.
  - reflexivity.
Defined.

(** ** What [sortedReplacer] keeps *)

Lemma lookup_some_in {A} (k : jsstring) (v : A) (o : Obj.t A) :
  Obj.lookup k o = Some v -> In k (Obj.keys o).
Proof.
  induction o as [|[k' v'] o IH]; cbn [Obj.lookup Obj.keys map fst In]; [discriminate|].
  destruct (JsString.eqb k k') eqn:E.
  - apply jsstring_eqb_eq in E. auto.
  - auto.
Qed.

Lemma sortedReplacer_fold_lookup {A} (o : Obj.t A) (k : jsstring) (ks : list jsstring) :
  forall acc,
    Obj.lookup k
      (fold_left
         (fun sorted k0 =>
            match Obj.lookup k0 o with
            | Some v => Canonical.assign sorted k0 v
            | None => sorted
            end) ks acc)
    = if existsb (JsString.eqb k) ks
         && negb (JsString.eqb k (js "__proto__"))
         && match Obj.lookup k o with Some _ => true | None => false end
      then Obj.lookup k o
      else Obj.lookup k acc.
Proof.
  induction ks as [|k0 ks IH]; intros acc; cbn [fold_left existsb]; [reflexivity|].
  rewrite IH. destruct (JsString.eqb k k0) eqn:E.
  - apply jsstring_eqb_eq in E. subst k0. cbn [orb andb].
    destruct (JsString.eqb k (js "__proto__")) eqn:Ep; cbn [negb andb].
    + rewrite !andb_false_r. cbn [andb].
      unfold Canonical.assign. rewrite Ep. now destruct (Obj.lookup k o).
    + destruct (Obj.lookup k o) as [v|] eqn:El.
      * rewrite !andb_true_r. destruct (existsb (JsString.eqb k) ks); [reflexivity|].
        unfold Canonical.assign. rewrite Ep. apply lookup_set_same.
      * rewrite !andb_false_r. reflexivity.
  - cbn [orb].
    destruct (existsb (JsString.eqb k) ks && negb (JsString.eqb k (js "__proto__"))
              && match Obj.lookup k o with Some _ => true | None => false end);
      [reflexivity|].
    destruct (Obj.lookup k0 o); [|reflexivity].
    unfold Canonical.assign. destruct (JsString.eqb k0 (js "__proto__")); [reflexivity|].
    now apply lookup_set_other.
Qed.

Lemma sortedReplacer_lookup {A} (o : Obj.t A) (k : jsstring) :
  Obj.lookup k (Canonical.sortedReplacer o)
  = if JsString.eqb k (js "__proto__") then None else Obj.lookup k o.
Proof.
  unfold Canonical.sortedReplacer. cbv zeta.
  rewrite sortedReplacer_fold_lookup. cbn [Obj.lookup].
  destruct (JsString.eqb k (js "__proto__")); cbn [negb andb].
  - now rewrite !andb_false_r.
  - destruct (Obj.lookup k o) as [v|] eqn:El; [|now rewrite !andb_false_r].
    rewrite !andb_true_r.
    assert (Hin : In k (Js.sort (Obj.OwnPropertyKeys o))).
    { eapply Permutation_in; [symmetry; apply sort_Permutation_self|].
      eapply Permutation_in; [symmetry; apply OwnPropertyKeys_Permutation|].
      eapply lookup_some_in, El. }
    assert (He : existsb (JsString.eqb k) (Js.sort (Obj.OwnPropertyKeys o)) = true).
    { apply existsb_exists. exists k. split; [exact Hin|apply jsstring_eqb_refl]. }
    now rewrite He.
Qed.

(** X15. [sortedReplacer] neither drops nor changes a property other than
    [__proto__]: under every other key the sorted copy holds what the
    object holds, and under [__proto__] it holds nothing. *)
Theorem sortedReplacer_keeps_every_property :
  forall (A : Type) (o : Obj.t A) (k : jsstring),
    Obj.lookup k (Canonical.sortedReplacer o)
    = if JsString.eqb k (js "__proto__") then None else Obj.lookup k o.
Proof. intros A o k. apply sortedReplacer_lookup. Qed.

(** ** The canonical form of a canonical form *)

Lemma sort_sorted (l : list jsstring) : leb_ordered l = true -> Js.sort l = l.
Proof.
  induction l as [|x l IH]; [reflexivity|].
  intros H. cbn [Js.sort fold_right]. fold (Js.sort l).
  destruct l as [|y l']; [reflexivity|].
  cbn [leb_ordered] in H. apply andb_true_iff in H as [Hxy Hl].
  rewrite (IH Hl). cbn [Js.insert]. now rewrite Hxy.
Qed.

Lemma leb_ordered_remove (l1 l2 : list jsstring) (x : jsstring) :
  leb_ordered (l1 ++ x :: l2) = true -> leb_ordered (l1 ++ l2) = true.
Proof.
  induction l1 as [|a l1 IH]; cbn [app].
  - destruct l2 as [|b l2]; [reflexivity|].
    cbn [leb_ordered]. intros H. now apply andb_true_iff in H as [_ H].
  - destruct l1 as [|c l1].
    + cbn [app] in *. intros H.
      change (JsString.leb a x && leb_ordered (x :: l2) = true) in H.
      apply andb_true_iff in H as [Hax Hx].
      destruct l2 as [|b l2]; [reflexivity|].
      change (JsString.leb x b && leb_ordered (b :: l2) = true) in Hx.
      apply andb_true_iff in Hx as [Hxb Hb].
      change (JsString.leb a b && leb_ordered (b :: l2) = true).
      rewrite Hb, (leb_trans a x b Hax Hxb). reflexivity.
    + cbn [app] in *. intros H.
      change (JsString.leb a c && leb_ordered (c :: l1 ++ x :: l2) = true) in H.
      apply andb_true_iff in H as [Hac Hc].
      change (JsString.leb a c && leb_ordered (c :: l1 ++ l2) = true).
      rewrite Hac, (IH Hc). reflexivity.
Qed.

Lemma lookup_app_fresh {A} (k : jsstring) (v : A) (s1 s2 : Obj.t A) :
  ~ In k (Obj.keys s1) -> Obj.lookup k (s1 ++ (k, v) :: s2) = Some v.
Proof.
  induction s1 as [|[k' v'] s1 IH]; cbn [app Obj.lookup Obj.keys map fst In]; intros H.
  - now rewrite jsstring_eqb_refl.
  - destruct (JsString.eqb k k') eqn:E.
    + apply jsstring_eqb_eq in E. subst. tauto.
    + apply IH. tauto.
Qed.

(** Copying the properties of an object in their own order rebuilds it. *)
Lemma sortedReplacer_fold_rebuild {A} (s : Obj.t A) :
  NoDup (Obj.keys s) -> ~ In (js "__proto__") (Obj.keys s) ->
  forall s2 s1,
    s = s1 ++ s2 ->
    fold_left
      (fun sorted k =>
         match Obj.lookup k s with
         | Some v => Canonical.assign sorted k v
         | None => sorted
         end) (Obj.keys s2) s1
    = s.
Proof.
  intros Hnd Hnp. induction s2 as [|[k v] s2 IH]; intros s1 Hs.
  - cbn [Obj.keys map fold_left]. now rewrite app_nil_r in Hs.
  - cbn [Obj.keys map fst fold_left]. fold (Obj.keys s2).
    assert (Hfresh : ~ In k (Obj.keys s1)).
    { rewrite Hs in Hnd. unfold Obj.keys in Hnd. rewrite map_app in Hnd.
      cbn [map fst] in Hnd. apply NoDup_remove_2 in Hnd.
      intros Hk. apply Hnd. apply in_or_app. now left. }
    assert (Hproto : JsString.eqb k (js "__proto__") = false).
    { apply jsstring_eqb_neq. intros ->. apply Hnp. rewrite Hs.
      unfold Obj.keys. rewrite map_app. apply in_or_app. right. now left. }
    rewrite Hs at 1. rewrite (lookup_app_fresh k v s1 s2 Hfresh).
    unfold Canonical.assign. rewrite Hproto, (set_fresh k v s1 Hfresh).
    apply IH. rewrite Hs, <- app_assoc. reflexivity.
Qed.

Lemma jsstring_eq_dec (a b : jsstring) : {a = b} + {a <> b}.
Proof. apply (list_eq_dec N.eq_dec). Qed.

(** The keys of the sorted copy: in [leb] order, distinct, without
    [__proto__]. *)
Lemma sortedReplacer_keys {A} (o : Obj.t A) :
  NoDup (Obj.keys o) ->
  leb_ordered (Obj.keys (Canonical.sortedReplacer o)) = true
  /\ NoDup (Obj.keys (Canonical.sortedReplacer o))
  /\ ~ In (js "__proto__") (Obj.keys (Canonical.sortedReplacer o)).
Proof.
  intros Hnd. unfold Canonical.sortedReplacer. cbv zeta.
  pose proof (leb_ordered_sort (Obj.OwnPropertyKeys o)) as Hord.
  assert (Hperm : Permutation (Js.sort (Obj.OwnPropertyKeys o)) (Obj.keys o)).
  { rewrite sort_Permutation_self. apply OwnPropertyKeys_Permutation. }
  assert (Hnd' : NoDup (Js.sort (Obj.OwnPropertyKeys o))).
  { eapply Permutation_NoDup; [symmetry; exact Hperm|exact Hnd]. }
  assert (Hin : forall k, In k (Js.sort (Obj.OwnPropertyKeys o)) -> In k (Obj.keys o)).
  { intros k Hk. eapply Permutation_in; [exact Hperm|exact Hk]. }
  revert Hord Hnd' Hin. generalize (Js.sort (Obj.OwnPropertyKeys o)) as ks.
  intros ks Hord Hnd' Hin.
  destruct (in_dec jsstring_eq_dec (js "__proto__") ks) as [Hp|Hp].
  - apply in_split in Hp as (l1 & l2 & ->).
    rewrite fold_left_app_skip.
    2:{ intros sorted. destruct (Obj.lookup _ o); [|reflexivity].
        unfold Canonical.assign. now rewrite jsstring_eqb_refl. }
    pose proof (NoDup_remove_1 _ _ _ Hnd') as Hnd1.
    pose proof (NoDup_remove_2 _ _ _ Hnd') as Hnd2.
    rewrite sortedReplacer_fold_keys.
    + cbn [Obj.keys map app]. split; [now apply leb_ordered_remove in Hord|].
      split; assumption.
    + exact Hnd1.
    + intros k Hk. split.
      * apply Hin. apply in_app_or in Hk as [Hk|Hk]; apply in_or_app;
          [now left|right; now right].
      * apply jsstring_eqb_neq. intros ->. contradiction.
  - rewrite sortedReplacer_fold_keys.
    + cbn [Obj.keys map app]. repeat split; assumption.
    + exact Hnd'.
    + intros k Hk. split; [now apply Hin|].
      apply jsstring_eqb_neq. intros ->. contradiction.
Qed.

Lemma sortedReplacer_idempotent {A} (o : Obj.t A) :
  NoDup (Obj.keys o) ->
  Canonical.sortedReplacer (Canonical.sortedReplacer o) = Canonical.sortedReplacer o.
Proof.
  intros Hnd. destruct (sortedReplacer_keys o Hnd) as (Hord & Hnd' & Hnp).
  set (s := Canonical.sortedReplacer o) in *.
  unfold Canonical.sortedReplacer at 1. cbv zeta.
  rewrite (sort_Permutation _ _ (OwnPropertyKeys_Permutation s)).
  rewrite (sort_sorted _ Hord).
  now apply (sortedReplacer_fold_rebuild s Hnd' Hnp s []).
Qed.

(** X16. Canonicalisation reaches a fixed point at once: sorting the
    sorted copy of an object changes nothing, and the canonical string of
    the sorted copy is the canonical string of the object. *)
Theorem canonical_form_is_a_fixed_point :
  forall (props : list (jsstring * value)),
    NoDup (Obj.keys props) ->
    Canonical.sortedReplacer (Canonical.sortedReplacer props)
    = Canonical.sortedReplacer props
    /\ Canonical.toCanonical (VObj (Canonical.sortedReplacer props))
       = Canonical.toCanonical (VObj props).
Proof.
  intros props Hnd. split; [now apply sortedReplacer_idempotent|].
  unfold Canonical.toCanonical. cbn [Canonical.SerializeJSONProperty]. f_equal.
  rewrite <- (sortedReplacer_map
                (fun v => Canonical.SerializeJSONProperty v) props).
  apply sortedReplacer_idempotent. now rewrite keys_map_values.
Qed.

Lemma canonical_form_is_a_fixed_point_witness :
  Canonical.sortedReplacer (Canonical.sortedReplacer Sample.unordered)
  = Canonical.sortedReplacer Sample.unordered
  /\ Canonical.toCanonical (VObj (Canonical.sortedReplacer Sample.unordered))
     = Canonical.toCanonical (VObj Sample.unordered).
Proof.
  apply (canonical_form_is_a_fixed_point Sample.unordered).
  cbn [Obj.keys map fst Sample.unordered].
  repeat (apply NoDup_cons; [cbn [In]; intuition discriminate|]).
  apply NoDup_nil.
Defined.

(** ** The conformance runner *)

(** X17. What a passed vector means. [runVector] reports [passed] only
    when wrapping and verification returned, the verdict is the expected
    one and, for a vector that expects [invalid] and names an error, some
    error of the result includes that text, as written or after
    upper-casing both. A verification that throws never passes, whatever
    the vector expects. *)
Theorem passed_vector_means_expected_verdict :
  forall (env : Env) (toUpperCase : jsstring -> jsstring)
         (as_SignedObject : value -> SignedObject.t) (TypeError_text : jsstring)
         (now : Z) (vector : TestVector.t),
    ConformanceResult.passed
      (runVector env toUpperCase as_SignedObject TypeError_text now vector) = true ->
    exists wrapped r,
      wrapObject (TestVector.object vector) (TestVector.object_type vector)
      = Return wrapped
      /\ verify env now (as_SignedObject wrapped) = Return r
      /\ VerificationResult.valid r
         = JsString.eqb (TestVector.expected_result vector) (js "valid")
      /\ (JsString.eqb (TestVector.expected_result vector) (js "invalid") = true ->
          given (TestVector.expected_error vector) = true ->
          exists e,
            In e (VerificationResult.errors r)
            /\ JsString.includes e (error_text (TestVector.expected_error vector))
               || JsString.includes (toUpperCase e)
                    (toUpperCase (error_text (TestVector.expected_error vector)))
               = true).
Proof.
  intros env toUpperCase as_SignedObject TypeError_text now vector H.
  unfold runVector in H.
  destruct (wrapObject (TestVector.object vector) (TestVector.object_type vector))
    as [wrapped|e] eqn:Hw; [|discriminate H].
  cbn [bind] in H.
  destruct (verify env now (as_SignedObject wrapped)) as [r|e] eqn:Hv; [|discriminate H].
  cbn [ConformanceResult.passed] in H.
  exists wrapped, r. split; [reflexivity|]. split; [exact Hv|].
  apply andb_prop in H as [Hpassed Hmatch].
  destruct (JsString.eqb (TestVector.expected_result vector) (js "valid")) eqn:Ev.
  - split; [exact Hpassed|]. intros Hinv.
    apply jsstring_eqb_eq in Ev. rewrite Ev in Hinv. discriminate Hinv.
  - apply negb_true_iff in Hpassed. split; [exact Hpassed|].
    intros Hinv Hgiven. cbn [orb] in Hmatch. rewrite Hinv, Hgiven in Hmatch.
    cbn [andb] in Hmatch. apply existsb_exists in Hmatch as (e & He & Hinc).
    exists e. split; assumption.
Qed.

Lemma passed_vector_means_expected_verdict_witness :
  exists wrapped r,
    wrapObject (TestVector.object Sample.vector_unknown_type)
      (TestVector.object_type Sample.vector_unknown_type)
    = Return wrapped
    /\ verify Ex.env0 0 (SimNoble.as_SignedObject wrapped) = Return r
    /\ VerificationResult.valid r
       = JsString.eqb (TestVector.expected_result Sample.vector_unknown_type) (js "valid")
    /\ (JsString.eqb (TestVector.expected_result Sample.vector_unknown_type)
          (js "invalid") = true ->
        given (TestVector.expected_error Sample.vector_unknown_type) = true ->
        exists e,
          In e (VerificationResult.errors r)
          /\ JsString.includes e
               (error_text (TestVector.expected_error Sample.vector_unknown_type))
             || JsString.includes (JsString.ascii_upper e)
                  (JsString.ascii_upper
                     (error_text (TestVector.expected_error Sample.vector_unknown_type)))
             = true).
Proof.
  apply (passed_vector_means_expected_verdict Ex.env0 JsString.ascii_upper
           SimNoble.as_SignedObject (js "TypeError") 0 Sample.vector_unknown_type).
  vm_compute. reflexivity.
Defined.

(** Every part [formatError] can push starts with an upper-case E. *)
Lemma join_head (c : N) (t sep : jsstring) (rest : list jsstring) :
  exists u, JsString.join sep ((c :: t) :: rest) = c :: u.
Proof. destruct rest; cbn [JsString.join app]; eauto. Qed.

Lemma joined_or_unknown (joined : jsstring) (c : N) (u : jsstring) :
  joined = c :: u ->
  match joined with
  | [] => js "Unknown error"
  | _ => joined
  end = c :: u.
Proof. now intros ->. Qed.

Lemma formatError_names_the_failure (vector : TestVector.t) (valid : bool)
    (errors : list jsstring) (errorMatch : bool) :
  (JsString.eqb (TestVector.expected_result vector) (js "valid") && negb valid)
  || (JsString.eqb (TestVector.expected_result vector) (js "invalid") && valid)
  || (negb errorMatch && given (TestVector.expected_error vector)) = true ->
  exists u, formatError vector valid errors errorMatch = 69%N :: u.
Proof.
  intros H. unfold formatError.
  change (js "Expected valid but got invalid: ")
    with (69%N :: js "xpected valid but got invalid: ").
  change (js "Expected invalid but got valid")
    with (69%N :: js "xpected invalid but got valid").
  change (js "Expected error containing ")
    with (69%N :: js "xpected error containing ").
  destruct (JsString.eqb (TestVector.expected_result vector) (js "valid") && negb valid);
    [|destruct (JsString.eqb (TestVector.expected_result vector) (js "invalid") && valid)];
    destruct (negb errorMatch && given (TestVector.expected_error vector));
    try discriminate H; cbn [app];
    match goal with
    | |- exists u, match JsString.join ?sep ((?c :: ?t) :: ?rest) with _ => _ end = _ =>
        destruct (join_head c t sep rest) as [u Hu]; exists u;
        exact (joined_or_unknown _ _ _ Hu)
    end.
Qed.

Lemma head_differs (a b : N) (s t : jsstring) : a <> b -> a :: s <> b :: t.
Proof. intros H E. now injection E. Qed.

(** X18. A failed vector says why. For a vector whose [expected_result]
    is one of the two values of its type, the result of [runVector] carries
    an error text exactly when the vector did not pass, and the text is
    never the fallback [Unknown error] of [formatError]. *)
Theorem failed_vector_names_its_failure :
  forall (env : Env) (toUpperCase : jsstring -> jsstring)
         (as_SignedObject : value -> SignedObject.t) (TypeError_text : jsstring)
         (now : Z) (vector : TestVector.t),
    TestVector.expected_result vector = js "valid"
    \/ TestVector.expected_result vector = js "invalid" ->
    match ConformanceResult.error
            (runVector env toUpperCase as_SignedObject TypeError_text now vector) with
    | Some text =>
        ConformanceResult.passed
          (runVector env toUpperCase as_SignedObject TypeError_text now vector) = false
        /\ text <> js "Unknown error"
    | None =>
        ConformanceResult.passed
          (runVector env toUpperCase as_SignedObject TypeError_text now vector) = true
    end.
Proof.
  intros env toUpperCase as_SignedObject TypeError_text now vector Hexp.
  unfold runVector.
  destruct (bind _ _) as [r|e];
    cbn [ConformanceResult.error ConformanceResult.passed].
  - match goal with
    | |- match (if ?p then _ else _) with _ => _ end => destruct p eqn:Hp
    end; [reflexivity|].
    split; [reflexivity|].
    destruct (formatError_names_the_failure vector (VerificationResult.valid r)
                (VerificationResult.errors r)
                (if JsString.eqb (TestVector.expected_result vector) (js "invalid")
                    && given (TestVector.expected_error vector)
                 then
                   existsb
                     (fun e =>
                        JsString.includes e (error_text (TestVector.expected_error vector))
                        || JsString.includes (toUpperCase e)
                             (toUpperCase (error_text (TestVector.expected_error vector))))
                     (VerificationResult.errors r)
                 else true)) as [u ->].
    + destruct Hexp as [Hexp|Hexp]; rewrite Hexp in *;
        change (JsString.eqb (js "valid") (js "valid")) with true in *;
        change (JsString.eqb (js "valid") (js "invalid")) with false in *;
        change (JsString.eqb (js "invalid") (js "valid")) with false in *;
        change (JsString.eqb (js "invalid") (js "invalid")) with true in *;
        cbn [andb orb negb] in *.
      * rewrite andb_true_r in Hp. now rewrite Hp.
      * destruct (VerificationResult.valid r); [reflexivity|].
        cbn [negb andb orb] in *.
        destruct (given (TestVector.expected_error vector)); [|discriminate Hp].
        now rewrite Hp.
    + apply head_differs. discriminate.
  - split; [reflexivity|]. apply head_differs. discriminate.
Qed.

Lemma failed_vector_names_its_failure_witness :
  match ConformanceResult.error
          (runVector Ex.env0 JsString.ascii_upper SimNoble.as_SignedObject
             (js "TypeError") 0 Sample.vector_null) with
  | Some text =>
      ConformanceResult.passed
        (runVector Ex.env0 JsString.ascii_upper SimNoble.as_SignedObject
           (js "TypeError") 0 Sample.vector_null) = false
      /\ text <> js "Unknown error"
  | None =>
      ConformanceResult.passed
        (runVector Ex.env0 JsString.ascii_upper SimNoble.as_SignedObject
           (js "TypeError") 0 Sample.vector_null) = true
  end.
Proof.
  apply (failed_vector_names_its_failure Ex.env0 JsString.ascii_upper
           SimNoble.as_SignedObject (js "TypeError") 0 Sample.vector_null).
  right. reflexivity.
Defined.

(** X19. The report counts every result once: [failed] is the number of
    results that did not pass, [passed] and [failed] add up to [total],
    and [failed] is zero exactly when every result passed. *)
Theorem generateReport_counts :
  forall (generated_at : jsstring) (results : list ConformanceResult.t),
    ConformanceReport.failed (generateReport generated_at results)
    = Z.of_nat (List.length
                  (filter (fun r => negb (ConformanceResult.passed r)) results))
    /\ (ConformanceReport.passed (generateReport generated_at results)
        + ConformanceReport.failed (generateReport generated_at results)
        = ConformanceReport.total (generateReport generated_at results))%Z
    /\ (ConformanceReport.failed (generateReport generated_at results) = 0%Z
        <-> forallb ConformanceResult.passed results = true).
Proof.
  intros generated_at results. unfold generateReport.
  cbn [ConformanceReport.failed ConformanceReport.passed ConformanceReport.total].
  pose proof (filter_length ConformanceResult.passed results) as Hlen.
  split; [lia|]. split; [lia|]. split.
  - intros H. apply filter_length_forallb. lia.
  - intros H.
    assert (Hall : filter ConformanceResult.passed results = results).
    { apply forallb_filter_id, H. }
    rewrite Hall. lia.
Qed.

(** ** What [verifyIntent] accepts *)

(** X20. [verifyIntent] returns a valid result exactly for the Intents of
    [intent_accepted]. Nothing else decides: not the weights or the
    [threshold_weight] of the policy, not the date of its expiry, not the
    time. *)
Theorem verifyIntent_valid_iff :
  forall (env : Env) (now : Z) (intent : Intent),
    (exists r,
       verifyIntent env now intent = Return r /\ VerificationResult.valid r = true)
    <-> intent_accepted env intent.
Proof.
  intros env now [ot b s sg]. unfold intent_accepted.
  cbn [SignedObject.object_type SignedObject.body SignedObject.sigset].
  split.
  - intros (r & H & Hvalid). unfold verifyIntent, verifyIntent_clocked in H.
    cbn [SignedObject.object_type SignedObject.body SignedObject.sigset] in *.
    destruct (JsString.eqb ot (js "intent")) eqn:Hot; cbn [negb at_time] in H;
      [|invalid_result H].
    destruct b as [b|]; [|invalid_result H].
    destruct (Js.truthy (Some b)); cbn [negb at_time] in H; [|invalid_result H].
    destruct (Js.truthy (Js.prop b (js "id"))) eqn:Hidt;
      cbn [negb push_when app nonempty at_time] in H;
      destruct (Js.truthy (Js.prop b (js "version"))) eqn:Hver;
      cbn [negb push_when app nonempty at_time] in H;
      destruct (Js.truthy (Js.prop b (js "policy"))) eqn:Hpol;
      cbn [negb push_when app nonempty at_time] in H;
      try invalid_result H.
    match type of H with
    | at_time _ (bind_clocked (push_template ?c ?e ?m) _) = _ =>
        destruct (push_template c e m) as [errors0|e0] eqn:Hid;
          cbn [bind_clocked at_time] in H; [|discriminate H]
    end.
    rewrite (Get_truthy _ (js "min_signers") Hpol) in H.
    rewrite (Get_truthy _ (js "expires_at") Hpol) in H.
    destruct (Js.prop b (js "policy")) as [p|] eqn:Hp; [|discriminate Hpol].
    destruct (authorized_set env (Some p)) as [authorized|e] eqn:Hauth;
      cbn [bind_clocked at_time] in H; [|discriminate H].
    destruct s as [s|]; [|invalid_result H].
    unfold extractBodyForSigning in H.
    destruct (verifySigset env s (Canonical.toCanonical b) (Some authorized))
      as [sr|e] eqn:Hsr; cbn [bind_clocked at_time] in H; [|discriminate H].
    match type of H with
    | at_time _ (bind_clocked ?m _) = _ =>
        destruct m as [too_few|e1] eqn:Hfew; cbn [bind_clocked at_time] in H;
          [|discriminate H]
    end.
    match type of H with
    | at_time _ (bind_clocked (push_template ?c ?e ?m) _) = _ =>
        destruct (push_template c e m) as [errors2|e2] eqn:Hmin;
          cbn [bind_clocked at_time] in H; [|discriminate H]
    end.
    apply jsstring_eqb_eq in Hot.
    assert (Hgoal :
              errors2 = [] ->
              (forall e, Js.prop p (js "expires_at") = Some e ->
                         Js.truthy (Some e) = true ->
                         returns (new_Date env e) = true) ->
              exists (body policy : value) (authorized0 : list jsstring)
                     (sigset : Sigset.t) (sigResult : SigsetResult.t),
                ot = js "intent"
                /\ Some b = Some body
                /\ Js.truthy (Js.prop body (js "id")) = true
                /\ Js.truthy (Js.prop body (js "version")) = true
                /\ Js.prop body (js "policy") = Some policy
                /\ Js.truthy (Some policy) = true
                /\ Js.prop body (js "id") = Some (VStr (computeObjectId env body))
                /\ authorized_set env (Some policy) = Return authorized0
                /\ Some s = Some sigset
                /\ verifySigset env sigset (Canonical.toCanonical body)
                     (Some authorized0) = Return sigResult
                /\ sigset_passes sigset sigResult
                /\ (if Js.truthy (Js.prop policy (js "min_signers"))
                    then number_lt env (SigsetResult.validCount sigResult)
                           (Js.prop policy (js "min_signers"))
                    else Return false) = Return false
                /\ (forall e, Js.prop policy (js "expires_at") = Some e ->
                              Js.truthy (Some e) = true ->
                              returns (new_Date env e) = true)).
    { intros -> Hdate.
      apply push_template_nil in Hmin as [-> Hne].
      destruct (no_error_after_sigset env _ _ _ _ _ Hsr Hne) as [-> Hpass].
      apply push_template_nil in Hid as [Hid _].
      apply negb_false_iff, strict_eq_VStr in Hid.
      exists b, p, authorized, s, sr. repeat split; assumption. }
    destruct (Js.prop p (js "expires_at")) as [ex|] eqn:Hex; cbn [at_time] in H.
    + destruct (Js.truthy (Some ex)) eqn:Hext; cbn [at_time] in H.
      * destruct (new_Date env ex) as [expiresAt|e3] eqn:Hdate;
          cbn [bind_clocked at_time] in H; [|discriminate H].
        match type of H with
        | bind ?m _ = _ => destruct m as [warnings|e4]; cbn [bind] in H;
                             [|discriminate H]
        end.
        destruct errors2 as [|x errors2]; cbn [nonempty] in H; [|invalid_result H].
        apply Hgoal; [reflexivity|].
        intros e' He' _. injection He' as <-. now rewrite Hdate.
      * destruct errors2 as [|x errors2]; cbn [nonempty] in H; [|invalid_result H].
        apply Hgoal; [reflexivity|].
        intros e' He' Ht. injection He' as <-. rewrite Hext in Ht. discriminate Ht.
    + destruct errors2 as [|x errors2]; cbn [nonempty] in H; [|invalid_result H].
      apply Hgoal; [reflexivity|]. intros e' He'. discriminate He'.
  - intros (body & p & authorized & sigset & sr & Hot & Hb & Hidt & Hver & Hp & Hpol
            & Hid & Hauth & Hs & Hsr & Hpass & Hmin & Hdate).
    subst ot b s.
    assert (Hbt : Js.truthy (Some body) = true).
    { destruct body; try discriminate Hid. reflexivity. }
    assert (Hclean : (if negb (SigsetResult.valid sr)
                      then [] ++ SigsetResult.errors sr else []) = []).
    { apply (sigset_passes_iff env _ _ _ _ Hsr) in Hpass.
      destruct Hpass as [-> | [_ ->]]; [reflexivity|].
      now destruct (negb (SigsetResult.valid sr)). }
    unfold verifyIntent, verifyIntent_clocked.
    cbn [SignedObject.object_type SignedObject.body SignedObject.sigset].
    rewrite jsstring_eqb_refl, Hbt, Hidt, Hver, Hp, Hpol.
    cbn [negb push_when nonempty].
    rewrite Hid. cbn [Js.strict_eq]. rewrite jsstring_eqb_refl.
    cbn [negb push_template bind_clocked]. rewrite Hauth. cbn [bind_clocked].
    unfold extractBodyForSigning. rewrite Hsr. cbn [bind_clocked].
    rewrite Hclean.
    rewrite (Get_truthy _ (js "min_signers") Hpol).
    rewrite (Get_truthy _ (js "expires_at") Hpol).
    cbn [bind_clocked]. rewrite Hmin. cbn [bind_clocked push_template].
    destruct (Js.prop p (js "expires_at")) as [ex|] eqn:Hex; cbn [at_time nonempty];
      [|eexists; split; reflexivity].
    destruct (Js.truthy (Some ex)) eqn:Hext; cbn [at_time nonempty];
      [|eexists; split; reflexivity].
    specialize (Hdate ex eq_refl Hext).
    destruct (new_Date env ex) as [expiresAt|e3] eqn:Hnd; [|discriminate Hdate].
    cbn [bind_clocked at_time].
    destruct (new_Date_template env ex expiresAt Hnd) as [text Htext].
    unfold Intent_has_expired. rewrite Htext. cbn [bind].
    unfold push_template. destruct (date_before expiresAt now); cbn [bind nonempty];
      eexists; split; reflexivity.
Qed.

(** ** The authorized set *)

Lemma Set_has_add (s : list jsstring) (y x : jsstring) :
  Set_has (Set_add s y) x = Set_has s x || JsString.eqb x y.
Proof.
  unfold Set_add. destruct (Set_has s y) eqn:Hy.
  - destruct (JsString.eqb x y) eqn:E; [|now rewrite orb_false_r].
    apply jsstring_eqb_eq in E. subst. now rewrite Hy.
  - unfold Set_has. rewrite existsb_app. cbn [existsb]. now rewrite orb_false_r.
Qed.

Lemma add_signers_spec env (signers : list value) :
  forall set set',
    add_signers env signers set = Return set' ->
    forall x,
      Set_has set' x = true
      <-> Set_has set x = true
          \/ exists signer pubkey,
               In signer signers
               /\ Js.prop signer (js "pubkey") = Some (VStr pubkey)
               /\ toLowerCase env pubkey = x.
Proof.
  induction signers as [|signer signers IH]; intros set set' H x.
  - cbn [add_signers] in H. injection H as <-. split; [auto|].
    intros [H|(s & p & [] & _)]. exact H.
  - cbn [add_signers] in H.
    destruct (Get (Some signer) (js "pubkey")) as [pk|e] eqn:Hg; [|discriminate].
    destruct (Get_inv _ _ _ Hg) as (v & Hv & ->). injection Hv as <-.
    cbn [bind] in H.
    destruct (Js.prop signer (js "pubkey")) as [[ | | |p| | ]|] eqn:Hp;
      cbn [call_toLowerCase bind] in H; try discriminate.
    rewrite (IH _ _ H x), Set_has_add. split.
    + intros [Hs|(s & q & Hin & Hq & Hx)].
      * apply orb_true_iff in Hs as [Hs|Hs]; [now left|].
        right. exists signer, p. apply jsstring_eqb_eq in Hs.
        split; [now left|]. split; [exact Hp|]. now symmetry.
      * right. exists s, q. split; [now right|]. split; assumption.
    + intros [Hs|(s & q & [<-|Hin] & Hq & Hx)].
      * left. now rewrite Hs.
      * left. rewrite Hp in Hq. injection Hq as <-. subst x.
        rewrite jsstring_eqb_refl. apply orb_true_r.
      * right. exists s, q. repeat split; assumption.
Qed.

(** X21. The authorized set of a policy is the set of the lower-cased
    [pubkey]s of its [authorized_signers], and nothing else of a signer
    matters: a key is in the set exactly when it is the lower-cased public
    key of a listed signer. *)
Theorem authorized_set_is_the_listed_keys :
  forall (env : Env) (policy : value) (signers : list value) (set : list jsstring)
         (key : jsstring),
    Js.prop policy (js "authorized_signers") = Some (VArr signers) ->
    authorized_set env (Some policy) = Return set ->
    Set_has set key = true
    <-> exists signer pubkey,
          In signer signers
          /\ Js.prop signer (js "pubkey") = Some (VStr pubkey)
          /\ toLowerCase env pubkey = key.
Proof.
  intros env policy signers set x Hs H. unfold authorized_set in H.
  destruct (Get (Some policy) (js "authorized_signers")) as [v|e] eqn:Hg;
    [|discriminate].
  destruct (Get_inv _ _ _ Hg) as (p & Hp & ->). injection Hp as <-.
  rewrite Hs in H. cbn [bind Js.truthy] in H.
  rewrite (add_signers_spec env signers [] set H x).
  split; [|auto]. intros [Hx|Hx]; [discriminate Hx|exact Hx].
Qed.

Lemma authorized_set_is_the_listed_keys_witness :
  Set_has [Ex.alice] Ex.alice = true
  <-> exists signer pubkey,
        In signer [VObj [(js "pubkey", VStr Ex.alice); (js "weight", VNum 1)]]
        /\ Js.prop signer (js "pubkey") = Some (VStr pubkey)
        /\ toLowerCase Ex.env0 pubkey = Ex.alice.
Proof.
  apply (authorized_set_is_the_listed_keys Ex.env0 Ex.policy_alice
           [VObj [(js "pubkey", VStr Ex.alice); (js "weight", VNum 1)]] [Ex.alice]
           Ex.alice).
  - reflexivity.
  - vm_compute. reflexivity.
Defined.

(** ** The order of the signatures *)

Lemma verifySigset_loop_returns env message auth (sigs : list (option Signature.t)) :
  forall i errors validCount,
    returns (verifySigset_loop env message auth i sigs errors validCount)
    = forallb (fun sig => negb (signer_authorized env auth sig) || supported_suite sig)
        (present sigs).
Proof.
  induction sigs as [|[sig|] sigs IH]; intros i errors validCount; [reflexivity| |].
  - cbn [present flat_map app forallb]. fold (present sigs).
    destruct (signer_authorized env auth sig) eqn:Ha; cbn [negb orb].
    + rewrite (verifySigset_loop_authorized _ _ _ _ _ _ _ _ Ha).
      unfold supported_suite.
      destruct (JsString.eqb (Signature.suite_id sig) (js "ed25519-blake3")) eqn:Hs.
      * destruct (verifySignature_supported env (Signature.pubkey sig) message
                    (Signature.sig sig) _ Hs) as [b ->].
        cbn [bind andb]. destruct b; apply IH.
      * now rewrite (verifySignature_unsupported env _ _ _ _ Hs).
    + rewrite (verifySigset_loop_unauthorized _ _ _ _ _ _ _ _ Ha). apply IH.
  - rewrite verifySigset_loop_null. apply IH.
Qed.

Lemma Permutation_present (l l' : list (option Signature.t)) :
  Permutation l l' -> Permutation (present l) (present l').
Proof. intros H. unfold present. now apply Permutation_flat_map. Qed.

Lemma Permutation_filter_length {A} (f : A -> bool) (l l' : list A) :
  Permutation l l' -> List.length (filter f l) = List.length (filter f l').
Proof.
  induction 1 as [|x l l' _ IH|x y l|l l' l'' _ IH1 _ IH2]; cbn [filter].
  - reflexivity.
  - destruct (f x); cbn [List.length]; congruence.
  - destruct (f x), (f y); reflexivity.
  - congruence.
Qed.

Lemma Permutation_forallb {A} (f : A -> bool) (l l' : list A) :
  Permutation l l' -> forallb f l = forallb f l'.
Proof.
  induction 1 as [|x l l' _ IH|x y l|l l' l'' _ IH1 _ IH2]; cbn [forallb].
  - reflexivity.
  - now rewrite IH.
  - destruct (f x), (f y); reflexivity.
  - congruence.
Qed.

(** X22. The order of the signatures in a sigset decides nothing: two
    sigsets with the same threshold and the same signatures in different
    orders both throw or both return, and then with the same [validCount]
    and the same [valid]. *)
Theorem verifySigset_order_irrelevant :
  forall (env : Env) (sigset1 sigset2 : Sigset.t) (message : jsstring)
         (authorizedPubkeys : option (list jsstring)),
    Sigset.threshold sigset1 = Sigset.threshold sigset2 ->
    Permutation (Sigset.signatures sigset1) (Sigset.signatures sigset2) ->
    match verifySigset env sigset1 message authorizedPubkeys,
          verifySigset env sigset2 message authorizedPubkeys with
    | Return r1, Return r2 =>
        SigsetResult.validCount r1 = SigsetResult.validCount r2
        /\ SigsetResult.valid r1 = SigsetResult.valid r2
    | Throw _, Throw _ => True
    | _, _ => False
    end.
Proof.
  intros env s1 s2 message auth Hthr Hperm.
  pose proof (verifySigset_loop_returns env message auth (Sigset.signatures s1) 0 [] 0)
    as Hr1.
  pose proof (verifySigset_loop_returns env message auth (Sigset.signatures s2) 0 [] 0)
    as Hr2.
  apply Permutation_present in Hperm.
  rewrite (Permutation_forallb _ _ _ Hperm), <- Hr2 in Hr1.
  destruct (verifySigset env s1 message auth) as [r1|e1] eqn:H1;
    destruct (verifySigset env s2 message auth) as [r2|e2] eqn:H2.
  - destruct (verifySigset_inv env _ _ _ _ H1) as (errs1 & Hl1 & Hv1 & _).
    destruct (verifySigset_inv env _ _ _ _ H2) as (errs2 & Hl2 & Hv2 & _).
    apply verifySigset_loop_exact in Hl1, Hl2.
    rewrite (Permutation_filter_length _ _ _ Hperm) in Hl1.
    assert (Hc : SigsetResult.validCount r1 = SigsetResult.validCount r2) by congruence.
    split; [exact Hc|]. now rewrite Hv1, Hv2, Hthr, Hc.
  - destruct (verifySigset_inv env _ _ _ _ H1) as (errs1 & Hl1 & _).
    rewrite Hl1 in Hr1. unfold verifySigset in H2.
    destruct (verifySigset_loop env message auth 0 (Sigset.signatures s2) [] 0)
      as [[? ?]|?]; [discriminate H2|discriminate Hr1].
  - destruct (verifySigset_inv env _ _ _ _ H2) as (errs2 & Hl2 & _).
    rewrite Hl2 in Hr1. unfold verifySigset in H1.
    destruct (verifySigset_loop env message auth 0 (Sigset.signatures s1) [] 0)
      as [[? ?]|?]; [discriminate H1|discriminate Hr1].
  - exact I.
Qed.

Lemma verifySigset_order_irrelevant_witness :
  match verifySigset Ex.env0
          {| Sigset.threshold := Some 1%Z;
             Sigset.signatures := [Some Ex.sig_alice; Some Sample.sig_bob_bad] |}
          (js "m") None,
        verifySigset Ex.env0
          {| Sigset.threshold := Some 1%Z;
             Sigset.signatures := [Some Sample.sig_bob_bad; Some Ex.sig_alice] |}
          (js "m") None with
  | Return r1, Return r2 =>
      SigsetResult.validCount r1 = SigsetResult.validCount r2
      /\ SigsetResult.valid r1 = SigsetResult.valid r2
  | Throw _, Throw _ => True
  | _, _ => False
  end.
Proof.
  apply (verifySigset_order_irrelevant Ex.env0
           {| Sigset.threshold := Some 1%Z;
              Sigset.signatures := [Some Ex.sig_alice; Some Sample.sig_bob_bad] |}
           {| Sigset.threshold := Some 1%Z;
              Sigset.signatures := [Some Sample.sig_bob_bad; Some Ex.sig_alice] |}
           (js "m") None).
  - reflexivity.
  - apply perm_swap.
Defined.

(** ** Segments *)

Lemma frame_count_mismatch_throws (v : option value) (n : Z) (e : exn) :
  frame_count_mismatch v n = Throw e -> Js.template v = Throw e.
Proof.
  unfold frame_count_mismatch. destruct (Js.template v); [discriminate|].
  intros H. now injection H as <-.
Qed.

(** X23. A segment is verified as a collapse is, without the checks of
    shape: for a body that has an id, an intent_id and an array of
    frame_ids, [verifyCollapse] without frames and [verifySegment] reach
    the same verdict on the same body and sigset, or both throw the same
    exception. There is one exception: a [summary] whose [frame_count]
    cannot be converted to a string; [verifyCollapse], which writes it
    into a warning, may then throw a TypeError where [verifySegment], which
    never reads the summary, returns. Otherwise they differ in the
    warnings only, which [verifySegment] never gives. *)
Theorem collapse_and_segment_agree :
  forall (env : Env) (body : value) (frame_ids : list value)
         (sigset : option Sigset.t) (signature : option Signature.t),
    Js.truthy (Js.prop body (js "id")) = true ->
    Js.truthy (Js.prop body (js "intent_id")) = true ->
    Js.prop body (js "frame_ids") = Some (VArr frame_ids) ->
    verdict (verifyCollapse env (as_type (js "collapse") body sigset signature) None)
    = verdict (verifySegment env (as_type (js "segment") body sigset signature))
    \/ (verifyCollapse env (as_type (js "collapse") body sigset signature) None
        = Throw TypeError
        /\ (exists r,
              verifySegment env (as_type (js "segment") body sigset signature) = Return r)
        /\ exists summary,
             Js.prop body (js "summary") = Some summary
             /\ unconvertible (Js.prop summary (js "frame_count"))).
Proof.
  intros env body frame_ids sigset signature Hid Hintent Hframes.
  assert (Hbt : Js.truthy (Some body) = true).
  { destruct body; try discriminate Hid. reflexivity. }
  unfold verifyCollapse, verifySegment, as_type.
  cbn [SignedObject.object_type SignedObject.body SignedObject.sigset].
  rewrite !jsstring_eqb_refl, Hbt, Hid, Hintent, Hframes.
  cbn [negb push_when nonempty].
  match goal with
  | |- context [push_template ?c ?e ?m] =>
      destruct (push_template c e m) as [errors|e0]; cbn [bind]; [|left; reflexivity]
  end.
  destruct sigset as [s|]; [|left; reflexivity].
  destruct (verifySigset env s (extractBodyForSigning body) None) as [sr|e];
    [|left; reflexivity].
  cbn [bind].
  destruct (Js.truthy (Js.prop body (js "summary"))) eqn:Hsum.
  - rewrite (Get_truthy _ (js "frame_count") Hsum). cbn [bind negb].
    destruct (Js.prop body (js "summary")) as [summary|] eqn:Hs; [|discriminate Hsum].
    match goal with
    | |- context [push_template ?c ?e ?m] =>
        destruct (push_template c e m) as [warnings|e1] eqn:Hw; cbn [bind]
    end.
    + left.
      match goal with
      | |- verdict (if nonempty ?e then _ else _) = _ => destruct (nonempty e)
      end; reflexivity.
    + right. apply push_template_throws, frame_count_mismatch_throws in Hw.
      apply unconvertible_intro in Hw as [-> Hw].
      split; [reflexivity|]. split.
      * match goal with
        | |- exists r, (if nonempty ?e then _ else _) = _ => destruct (nonempty e)
        end; eexists; reflexivity.
      * exists summary. split; [reflexivity|exact Hw].
  - cbn [bind negb]. left.
    match goal with
    | |- verdict (if nonempty ?e then _ else _) = _ => destruct (nonempty e)
    end; reflexivity.
Qed.

Lemma collapse_and_segment_agree_witness :
  verdict (verifyCollapse Ex.env0
             (as_type (js "collapse") Sample.collapse_body
                (Some {| Sigset.threshold := Some 1%Z;
                         Sigset.signatures := [Some Ex.sig_alice] |})
                None) None)
  = verdict (verifySegment Ex.env0
               (as_type (js "segment") Sample.collapse_body
                  (Some {| Sigset.threshold := Some 1%Z;
                           Sigset.signatures := [Some Ex.sig_alice] |})
                  None))
  \/ (verifyCollapse Ex.env0
        (as_type (js "collapse") Sample.collapse_body
           (Some {| Sigset.threshold := Some 1%Z;
                    Sigset.signatures := [Some Ex.sig_alice] |})
           None) None
      = Throw TypeError
      /\ (exists r,
            verifySegment Ex.env0
              (as_type (js "segment") Sample.collapse_body
                 (Some {| Sigset.threshold := Some 1%Z;
                          Sigset.signatures := [Some Ex.sig_alice] |})
                 None) = Return r)
      /\ exists summary,
           Js.prop Sample.collapse_body (js "summary") = Some summary
           /\ unconvertible (Js.prop summary (js "frame_count"))).
Proof.
  apply (collapse_and_segment_agree Ex.env0 Sample.collapse_body [VStr Ex.zeros64]);
    reflexivity.
Defined.

(** The exception happens: a collapse whose summary counts its frames with
    an object that has a [toString] entry makes [verifyCollapse] throw, and
    the segment of the same body is verified to the end. *)
Example collapse_throws_where_segment_returns :
  let body := VObj [(js "id", VStr Ex.zeros64); (js "intent_id", VStr Ex.zeros64);
                    (js "frame_ids", VArr []);
                    (js "summary",
                     VObj [(js "frame_count", VObj [(js "toString", VNum 0)])])] in
  let sigset := Some {| Sigset.threshold := Some 0%Z; Sigset.signatures := [] |} in
  verifyCollapse Ex.env0 (as_type (js "collapse") body sigset None) None = Throw TypeError
  /\ exists r, verifySegment Ex.env0 (as_type (js "segment") body sigset None) = Return r.
Proof. split; [vm_compute; reflexivity|eexists; vm_compute; reflexivity]. Qed.

(** ** Reading a canonical string back *)

Lemma hex4_decodes (c : N) :
  (c < 65536)%N ->
  exists n1 n2 n3 n4,
    Canonical.hex4 c
    = [JsString.hex_digit n1; JsString.hex_digit n2; JsString.hex_digit n3;
       JsString.hex_digit n4]
    /\ (n1 < 16)%N /\ (n2 < 16)%N /\ (n3 < 16)%N /\ (n4 < 16)%N
    /\ (((n1 * 16 + n2) * 16 + n3) * 16 + n4 = c)%N.
Proof.
  intros Hc. unfold Canonical.hex4.
  exists ((c / 4096) mod 16)%N, ((c / 256) mod 16)%N, ((c / 16) mod 16)%N, (c mod 16)%N.
  split; [reflexivity|].
  repeat (split; [apply N.mod_lt; discriminate|]).
  assert (H1 : (c / 4096 < 16)%N) by (apply N.Div0.div_lt_upper_bound; lia).
  rewrite (N.mod_small (c / 4096) 16 H1).
  assert (D2 : (c / 256 = c / 16 / 16)%N)
    by (change 256%N with (16 * 16)%N; now rewrite N.Div0.div_div).
  assert (D3 : (c / 4096 = c / 256 / 16)%N)
    by (change 4096%N with (256 * 16)%N; now rewrite N.Div0.div_div).
  pose proof (N.div_mod c 16 ltac:(discriminate)) as E1.
  pose proof (N.div_mod (c / 16) 16 ltac:(discriminate)) as E2.
  pose proof (N.div_mod (c / 256) 16 ltac:(discriminate)) as E3.
  rewrite <- D2 in E2. rewrite <- D3 in E3. lia.
Qed.

Lemma unquote_escape (c : N) (rest : jsstring) :
  (c < 65536)%N ->
  unquote (Canonical.UnicodeEscape c ++ rest)
  = match unquote rest with
    | Some (s, r) => Some (c :: s, r)
    | None => None
    end.
Proof.
  intros Hc.
  destruct (hex4_decodes c Hc) as (n1 & n2 & n3 & n4 & Hh & H1 & H2 & H3 & H4 & E).
  unfold Canonical.UnicodeEscape. rewrite Hh.
  change (js "\u") with [92%N; 117%N]. cbn [app unquote N.eqb Pos.eqb].
  rewrite !asciiToBase16_hex_digit by assumption.
  rewrite E. reflexivity.
Qed.

Lemma unquote_raw (c : N) (rest : jsstring) :
  N.eqb c 34 = false -> N.eqb c 92 = false ->
  unquote (c :: rest)
  = match unquote rest with
    | Some (s, r) => Some (c :: s, r)
    | None => None
    end.
Proof. intros H1 H2. cbn [unquote]. now rewrite H1, H2. Qed.

Lemma unquote_short (x c : N) (rest : jsstring) :
  N.eqb x 117 = false -> unescape x = Some c ->
  unquote (92%N :: x :: rest)
  = match unquote rest with
    | Some (s, r) => Some (c :: s, r)
    | None => None
    end.
Proof.
  intros H1 H2. cbn [unquote N.eqb Pos.eqb]. rewrite H1, H2. reflexivity.
Qed.

(** [unquote] undoes [quote_units]. *)
Lemma unquote_quote_units (n : nat) :
  forall (s r : jsstring),
    (List.length s <= n)%nat ->
    unquote (Canonical.quote_units s ++ 34%N :: r) = Some (s, r).
Proof.
  induction n as [|n IH]; intros s r Hn.
  - destruct s; [reflexivity|cbn [List.length] in Hn; lia].
  - destruct s as [|c rest]; [reflexivity|].
    cbn [List.length] in Hn.
    assert (Hrest : forall r', unquote (Canonical.quote_units rest ++ 34%N :: r')
                               = Some (rest, r')) by (intros; apply IH; lia).
    cbn [Canonical.quote_units].
    destruct (N.eqb c 8) eqn:E8.
    { apply N.eqb_eq in E8. subst c. change (js "\b") with [92%N; 98%N].
      cbn [app]. rewrite (unquote_short 98 8) by reflexivity. now rewrite Hrest. }
    destruct (N.eqb c 9) eqn:E9.
    { apply N.eqb_eq in E9. subst c. change (js "\t") with [92%N; 116%N].
      cbn [app]. rewrite (unquote_short 116 9) by reflexivity. now rewrite Hrest. }
    destruct (N.eqb c 10) eqn:E10.
    { apply N.eqb_eq in E10. subst c. change (js "\n") with [92%N; 110%N].
      cbn [app]. rewrite (unquote_short 110 10) by reflexivity. now rewrite Hrest. }
    destruct (N.eqb c 12) eqn:E12.
    { apply N.eqb_eq in E12. subst c. change (js "\f") with [92%N; 102%N].
      cbn [app]. rewrite (unquote_short 102 12) by reflexivity. now rewrite Hrest. }
    destruct (N.eqb c 13) eqn:E13.
    { apply N.eqb_eq in E13. subst c. change (js "\r") with [92%N; 114%N].
      cbn [app]. rewrite (unquote_short 114 13) by reflexivity. now rewrite Hrest. }
    destruct (N.eqb c 34) eqn:E34.
    { apply N.eqb_eq in E34. subst c.
      cbn [app]. rewrite (unquote_short 34 34) by reflexivity. now rewrite Hrest. }
    destruct (N.eqb c 92) eqn:E92.
    { apply N.eqb_eq in E92. subst c.
      cbn [app]. rewrite (unquote_short 92 92) by reflexivity. now rewrite Hrest. }
    destruct (N.ltb_spec c 32) as [Hlt|Hge].
    { rewrite <- app_assoc, unquote_escape by lia. now rewrite Hrest. }
    unfold JsString.is_high_surrogate, JsString.is_low_surrogate.
    destruct (N.leb_spec 55296 c) as [Hh1|Hh1];
      destruct (N.leb_spec c 56319) as [Hh2|Hh2]; cbn [andb].
    + destruct rest as [|d rest'].
      * cbn [app]. rewrite <- (app_nil_r (Canonical.UnicodeEscape c)), <- app_assoc.
        rewrite unquote_escape by lia. reflexivity.
      * destruct (N.leb_spec 56320 d) as [Hl1|Hl1];
          destruct (N.leb_spec d 57343) as [Hl2|Hl2]; cbn [andb].
        -- cbn [app]. rewrite (unquote_raw c) by (apply N.eqb_neq; lia).
           rewrite (unquote_raw d) by (apply N.eqb_neq; lia).
           cbn [List.length] in Hn.
           rewrite (IH rest' r) by lia. reflexivity.
        -- rewrite <- app_assoc, unquote_escape by lia. now rewrite Hrest.
        -- rewrite <- app_assoc, unquote_escape by lia. now rewrite Hrest.
        -- rewrite <- app_assoc, unquote_escape by lia. now rewrite Hrest.
    + destruct (N.leb_spec 56320 c) as [Hl1|Hl1];
        destruct (N.leb_spec c 57343) as [Hl2|Hl2]; cbn [andb]; try lia.
      * rewrite <- app_assoc, unquote_escape by lia. now rewrite Hrest.
      * cbn [app]. rewrite (unquote_raw c) by assumption. now rewrite Hrest.
    + destruct (N.leb_spec 56320 c) as [Hl1|Hl1];
        destruct (N.leb_spec c 57343) as [Hl2|Hl2]; cbn [andb]; try lia.
      cbn [app]. rewrite (unquote_raw c) by assumption. now rewrite Hrest.
    + lia.
Qed.

(** A quoted string followed by anything determines the string and what
    follows. *)
Lemma QuoteJSONString_determines (s t r1 r2 : jsstring) :
  Canonical.QuoteJSONString s ++ r1 = Canonical.QuoteJSONString t ++ r2 ->
  s = t /\ r1 = r2.
Proof.
  unfold Canonical.QuoteJSONString. rewrite <- !app_assoc. cbn [app].
  intros H. injection H as H.
  apply (f_equal unquote) in H.
  rewrite (unquote_quote_units (List.length s) s r1 (le_n _)) in H.
  rewrite (unquote_quote_units (List.length t) t r2 (le_n _)) in H.
  now injection H.
Qed.
(** ** Numbers *)

Lemma js_String (c : ascii) (s : string) : js (String c s) = N_of_ascii c :: js s.
Proof. reflexivity. Qed.

Lemma string_of_uint_chars (d : Decimal.uint) :
  Forall is_num_char (js (NilEmpty.string_of_uint d)).
Proof.
  induction d; cbn [NilEmpty.string_of_uint]; [constructor|..];
    rewrite js_String; (constructor; [right; cbn; lia|exact IHd]).
Qed.

Lemma of_Z_chars (n : Z) :
  Forall is_num_char (JsString.of_Z n) /\ JsString.of_Z n <> [].
Proof.
  unfold JsString.of_Z. fold js.
  assert (Hu : forall d, Forall is_num_char (js (NilZero.string_of_uint d))
                         /\ js (NilZero.string_of_uint d) <> []).
  { intros d. destruct d; cbn [NilZero.string_of_uint];
      try (split; [apply string_of_uint_chars|cbn [NilEmpty.string_of_uint];
                   rewrite js_String; discriminate]).
    split; [|discriminate]. rewrite js_String. constructor; [right; cbn; lia|constructor]. }
  destruct (Z.to_int n) as [d|d]; cbn [NilZero.string_of_int].
  - apply Hu.
  - rewrite js_String. split; [|discriminate].
    constructor; [left; reflexivity|apply Hu].
Qed.

Lemma to_int_not_nil (n : Z) :
  Z.to_int n <> Decimal.Pos Decimal.Nil /\ Z.to_int n <> Decimal.Neg Decimal.Nil.
Proof.
  destruct n as [|p|p]; cbn [Z.to_int]; split; try discriminate;
    intros H; injection H as H; now apply Unsigned.to_uint_nonnil in H.
Qed.

Lemma lit_inj (s t : string) : js s = js t -> s = t.
Proof.
  unfold js, JsString.lit. intros H.
  assert (Hl : list_ascii_of_string s = list_ascii_of_string t).
  { revert H. generalize (list_ascii_of_string s) (list_ascii_of_string t).
    induction l as [|x l IH]; intros [|y l'] H; cbn [map] in H; try discriminate;
      [reflexivity|].
    injection H as Hxy Hl. f_equal; [|now apply IH].
    rewrite <- (ascii_N_embedding x), <- (ascii_N_embedding y). now rewrite Hxy. }
  rewrite <- (string_of_list_ascii_of_string s), <- (string_of_list_ascii_of_string t).
  now rewrite Hl.
Qed.

Lemma of_Z_inj (n m : Z) : JsString.of_Z n = JsString.of_Z m -> n = m.
Proof.
  unfold JsString.of_Z. fold js. intros H. apply lit_inj in H.
  apply DecimalZ.to_int_inj.
  apply (f_equal NilZero.int_of_string) in H.
  destruct (to_int_not_nil n) as [Hn1 Hn2]. destruct (to_int_not_nil m) as [Hm1 Hm2].
  rewrite !NilZero.isi in H by assumption. now injection H.
Qed.

(** Two runs of number characters, each followed by something delimited,
    are equal when the whole strings are. *)
Lemma num_chars_determined (l1 : jsstring) :
  forall l2 r1 r2,
    Forall is_num_char l1 -> Forall is_num_char l2 ->
    delimited r1 -> delimited r2 ->
    l1 ++ r1 = l2 ++ r2 ->
    l1 = l2 /\ r1 = r2.
Proof.
  induction l1 as [|c l1 IH]; intros [|d l2] r1 r2 H1 H2 D1 D2 H; cbn [app] in H.
  - auto.
  - exfalso. subst r1. cbn [delimited] in D1. inversion H2 as [|? ? Hd _]; subst.
    unfold is_num_char in Hd. lia.
  - exfalso. subst r2. cbn [delimited] in D2. inversion H1 as [|? ? Hc _]; subst.
    unfold is_num_char in Hc. lia.
  - injection H as -> H. inversion H1; inversion H2; subst.
    destruct (IH l2 r1 r2) as [-> ->]; auto.
Qed.

(** ** The canonical string determines the JSON *)

Lemma SerializeJSONProperty_head (v : value) :
  exists c rest, Canonical.SerializeJSONProperty v = c :: rest /\ head_kind c v.
Proof.
  destruct v as [ |[|]|n|s|items|props]; cbn [Canonical.SerializeJSONProperty head_kind].
  - exists 110%N, (js "ull"). split; reflexivity.
  - exists 116%N, (js "rue"). split; reflexivity.
  - exists 102%N, (js "alse"). split; reflexivity.
  - destruct (of_Z_chars n) as [Hc Hne].
    destruct (JsString.of_Z n) as [|c rest]; [contradiction|].
    exists c, rest. split; [reflexivity|]. now inversion Hc.
  - eexists 34%N, _. split; reflexivity.
  - eexists 91%N, _. split; reflexivity.
  - eexists 123%N, _. split; reflexivity.
Qed.

Lemma heads_agree (a b : value) (r1 r2 : jsstring) :
  Canonical.SerializeJSONProperty a ++ r1 = Canonical.SerializeJSONProperty b ++ r2 ->
  exists c, head_kind c a /\ head_kind c b.
Proof.
  destruct (SerializeJSONProperty_head a) as (c & ra & -> & Ha).
  destruct (SerializeJSONProperty_head b) as (d & rb & -> & Hb).
  cbn [app]. intros H. injection H as -> _. eauto.
Qed.

Ltac mismatch H :=
  exfalso;
  let c := fresh "c" in
  let Ha := fresh "Ha" in
  let Hb := fresh "Hb" in
  destruct (heads_agree _ _ _ _ H) as (c & Ha & Hb);
  cbn [head_kind] in Ha, Hb; unfold is_num_char in *; lia.

Lemma join_cons_app (sep x t : jsstring) (l : list jsstring) :
  JsString.join sep (x :: l) ++ t
  = x ++ match l with
         | [] => t
         | _ => sep ++ JsString.join sep l ++ t
         end.
Proof.
  destruct l; cbn [JsString.join]; [reflexivity|].
  now rewrite <- !app_assoc.
Qed.

(** A comma-separated sequence up to its closing bracket determines its
    elements one by one, when each element does. *)
Lemma sequence_determined {A} (f : A -> jsstring) (R : A -> A -> Prop)
    (good : A -> Prop) (close : N) :
  close = 93%N \/ close = 125%N ->
  (forall x, exists c rest,
      f x = c :: rest /\ c <> 44%N /\ c <> 93%N /\ c <> 125%N) ->
  forall l1,
    Forall (fun x => forall y t1 t2,
                good y -> f x ++ t1 = f y ++ t2 ->
                delimited t1 -> delimited t2 -> R x y /\ t1 = t2) l1 ->
    forall l2 r1 r2,
      Forall good l2 ->
      JsString.join (js ",") (map f l1) ++ close :: r1
      = JsString.join (js ",") (map f l2) ++ close :: r2 ->
      Forall2 R l1 l2 /\ r1 = r2.
Proof.
  intros Hclose Hhead. induction l1 as [|x l1 IH]; intros Hl1 l2 r1 r2 Hl2 H.
  - destruct l2 as [|y l2].
    + cbn in H. injection H as ->. split; [constructor|reflexivity].
    + exfalso. cbn [map] in H. rewrite join_cons_app in H.
      destruct (Hhead y) as (c & rest & Hfy & Hc). rewrite Hfy in H.
      cbn [app] in H. injection H as H _. lia.
  - destruct l2 as [|y l2].
    + exfalso. cbn [map] in H. rewrite join_cons_app in H.
      destruct (Hhead x) as (c & rest & Hfx & Hc). rewrite Hfx in H.
      cbn [app] in H. injection H as H _. lia.
    + cbn [map] in H. rewrite !join_cons_app in H.
      inversion Hl1 as [|? ? Hx Hl1']; subst. inversion Hl2 as [|? ? Hy Hl2']; subst.
      apply Hx in H; [|exact Hy| |].
      * destruct H as [HR H]. destruct l1 as [|x' l1]; destruct l2 as [|y' l2]; cbn [map] in H.
        -- injection H as ->. split; [repeat constructor; exact HR|reflexivity].
        -- exfalso. change (js ",") with [44%N] in H. cbn [app] in H.
           injection H as H _. lia.
        -- exfalso. change (js ",") with [44%N] in H. cbn [app] in H.
           injection H as H _. lia.
        -- change (js ",") with [44%N] in H. cbn [app] in H. injection H as H.
           destruct (IH Hl1' (y' :: l2) r1 r2 Hl2' H) as [HF ->].
           split; [constructor; assumption|reflexivity].
      * destruct l1; cbn [map delimited]; [destruct Hclose; auto|].
        change (js ",") with [44%N]. cbn [app delimited]. auto.
      * destruct l2; cbn [map delimited]; [destruct Hclose; auto|].
        change (js ",") with [44%N]. cbn [app delimited]. auto.
Qed.

Lemma flat_map_ext_in {A B} (f g : A -> list B) (l : list A) :
  (forall a, In a l -> f a = g a) -> flat_map f l = flat_map g l.
Proof.
  induction l as [|x l IH]; intros H; [reflexivity|].
  cbn [flat_map]. rewrite (H x (or_introl eq_refl)), IH; [reflexivity|].
  intros a Ha. apply H. now right.
Qed.

(** An object with distinct keys is its properties read under its keys. *)
Lemma properties_at_keys {A} (o : Obj.t A) :
  NoDup (Obj.keys o) -> properties_at o (Obj.keys o) = o.
Proof.
  induction o as [|[k v] o IH]; intros Hnd; [reflexivity|].
  cbn [Obj.keys map fst] in Hnd. inversion Hnd as [|? ? Hk Hnd']; subst.
  unfold properties_at. cbn [Obj.keys map fst flat_map Obj.lookup].
  rewrite jsstring_eqb_refl. cbn [app]. f_equal.
  rewrite <- (IH Hnd') at 2. unfold properties_at.
  apply flat_map_ext_in. intros k' Hk'.
  cbn [Obj.lookup].
  destruct (JsString.eqb k' k) eqn:E; [|reflexivity].
  apply jsstring_eqb_eq in E. subst. contradiction.
Qed.

Lemma properties_at_Permutation {A} (o : Obj.t A) (ks : list jsstring) :
  NoDup (Obj.keys o) -> Permutation ks (Obj.keys o) ->
  Permutation (properties_at o ks) o.
Proof.
  intros Hnd Hp. rewrite <- (properties_at_keys o Hnd) at 2.
  unfold properties_at. now apply Permutation_flat_map.
Qed.

(** Without [__proto__] the sorted copy holds the properties of the
    object, in another order. *)
Lemma sortedReplacer_Permutation_self {A} (o : Obj.t A) :
  NoDup (Obj.keys o) -> ~ In (js "__proto__") (Obj.keys o) ->
  Permutation (Canonical.sortedReplacer o) o.
Proof.
  intros Hnd Hnp.
  destruct (sortedReplacer_keys o Hnd) as (_ & Hnd' & _).
  rewrite <- (properties_at_keys _ Hnd').
  assert (Hsame : properties_at (Canonical.sortedReplacer o)
                    (Obj.keys (Canonical.sortedReplacer o))
                  = properties_at o (Obj.keys (Canonical.sortedReplacer o))).
  { unfold properties_at. apply flat_map_ext_in. intros k _.
    rewrite sortedReplacer_lookup.
    destruct (JsString.eqb k (js "__proto__")) eqn:E; [|reflexivity].
    apply jsstring_eqb_eq in E. subst k. now rewrite (lookup_not_in _ o Hnp). }
  rewrite Hsame. apply properties_at_Permutation; [exact Hnd|].
  unfold Canonical.sortedReplacer. cbv zeta.
  assert (Hperm : Permutation (Js.sort (Obj.OwnPropertyKeys o)) (Obj.keys o)).
  { rewrite sort_Permutation_self. apply OwnPropertyKeys_Permutation. }
  rewrite sortedReplacer_fold_keys.
  - exact Hperm.
  - cbn [Obj.keys map app]. eapply Permutation_NoDup; [symmetry; exact Hperm|exact Hnd].
  - intros k Hk. assert (Hin : In k (Obj.keys o)) by (eapply Permutation_in; eauto).
    split; [exact Hin|]. apply jsstring_eqb_neq. intros ->. contradiction.
Qed.

Lemma SerializeJSONObject_properties (o : Obj.t jsstring) (ks : list jsstring) :
  flat_map
    (fun k =>
       match Obj.lookup k o with
       | Some s => [Canonical.QuoteJSONString k ++ js ":" ++ s]
       | None => []
       end) ks
  = map (fun kv => Canonical.QuoteJSONString (fst kv) ++ js ":" ++ snd kv)
      (properties_at o ks).
Proof.
  induction ks as [|k ks IH]; [reflexivity|].
  change (properties_at o (k :: ks))
    with (match Obj.lookup k o with Some v => [(k, v)] | None => [] end
          ++ properties_at o ks).
  cbn [flat_map]. rewrite map_app.
  f_equal; [now destruct (Obj.lookup k o)|exact IH].
Qed.

(** The canonical string of an object without [__proto__] lists its
    properties, in some order. *)
Lemma SerializeJSONObject_entries (props : list (jsstring * value)) :
  NoDup (Obj.keys props) -> ~ In (js "__proto__") (Obj.keys props) ->
  exists emitted,
    Permutation props emitted
    /\ Canonical.SerializeJSONProperty (VObj props)
       = js "{" ++ JsString.join (js ",") (map entry emitted) ++ js "}".
Proof.
  intros Hnd Hnp. cbn [Canonical.SerializeJSONProperty].
  set (sp := fun kv : jsstring * value =>
               (fst kv, Canonical.SerializeJSONProperty (snd kv))).
  set (o := Canonical.sortedReplacer (map sp props)).
  assert (Hnd1 : NoDup (Obj.keys (map sp props))) by (unfold sp; now rewrite keys_map_values).
  assert (Hnp1 : ~ In (js "__proto__") (Obj.keys (map sp props)))
    by (unfold sp; now rewrite keys_map_values).
  destruct (sortedReplacer_keys (map sp props) Hnd1) as (_ & Hndo & _). fold o in Hndo.
  assert (Hperm : Permutation (properties_at o (Obj.OwnPropertyKeys o)) (map sp props)).
  { rewrite (properties_at_Permutation o _ Hndo (OwnPropertyKeys_Permutation o)).
    now apply sortedReplacer_Permutation_self. }
  apply Permutation_map_inv in Hperm as (emitted & He & Hp).
  exists emitted. split; [exact Hp|].
  unfold Canonical.SerializeJSONObject. rewrite SerializeJSONObject_properties, He.
  rewrite map_map. reflexivity.
Qed.

Lemma entry_head (kv : jsstring * value) :
  exists c rest, entry kv = c :: rest /\ c <> 44%N /\ c <> 93%N /\ c <> 125%N.
Proof.
  unfold entry, Canonical.QuoteJSONString. cbn [app].
  eexists 34%N, _. split; [reflexivity|lia].
Qed.

Lemma value_head (v : value) :
  exists c rest,
    Canonical.SerializeJSONProperty v = c :: rest
    /\ c <> 44%N /\ c <> 93%N /\ c <> 125%N.
Proof.
  destruct (SerializeJSONProperty_head v) as (c & rest & H & Hk).
  exists c, rest. split; [exact H|].
  destruct v as [ |[|]| | | | ]; cbn [head_kind] in Hk; unfold is_num_char in Hk; lia.
Qed.

Lemma determined_all (a : value) : determined a.
Proof.
  induction a as [ |b0|n|s|items IH|props IH] using value_nested_ind;
    intros b r1 r2 Ha Hb H D1 D2.
  - destruct b as [ |[|]|m|t|items'|props']; try mismatch H.
    cbn [Canonical.SerializeJSONProperty] in H. apply app_inv_head in H.
    split; [constructor|exact H].
  - destruct b0; destruct b as [ |[|]|m|t|items'|props']; try mismatch H;
      cbn [Canonical.SerializeJSONProperty] in H; apply app_inv_head in H;
      (split; [constructor|exact H]).
  - destruct b as [ |[|]|m|t|items'|props']; try mismatch H.
    cbn [Canonical.SerializeJSONProperty] in H.
    apply num_chars_determined in H as [Hn Hr]; try apply of_Z_chars; try assumption.
    apply of_Z_inj in Hn. subst. split; [constructor|reflexivity].
  - destruct b as [ |[|]|m|t|items'|props']; try mismatch H.
    cbn [Canonical.SerializeJSONProperty] in H.
    apply QuoteJSONString_determines in H as [-> ->]. split; [constructor|reflexivity].
  - destruct b as [ |[|]|m|t|items'|props']; try mismatch H.
    cbn [Canonical.SerializeJSONProperty] in H. unfold Canonical.SerializeJSONArray in H.
    change (js "[") with [91%N] in H. change (js "]") with [93%N] in H.
    rewrite <- !app_assoc in H. cbn [app] in H. injection H as H.
    inversion Ha as [ | | | |? Hitems| ]; subst. inversion Hb as [ | | | |? Hitems'| ]; subst.
    destruct (sequence_determined Canonical.SerializeJSONProperty same_json plain_json 93
                (or_introl eq_refl) value_head items) with (2 := Hitems') (3 := H)
      as [HF ->].
    + rewrite Forall_forall in IH, Hitems |- *. intros x Hx y t1 t2 Hy Ht T1 T2.
      exact (IH x Hx y t1 t2 (Hitems x Hx) Hy Ht T1 T2).
    + split; [now constructor|reflexivity].
  - destruct b as [ |[|]|m|t|items'|props']; try mismatch H.
    inversion Ha as [ | | | | |? Hnd Hnp Hprops]; subst.
    inversion Hb as [ | | | | |? Hnd' Hnp' Hprops']; subst.
    destruct (SerializeJSONObject_entries props Hnd Hnp) as (e1 & Hp1 & E1).
    destruct (SerializeJSONObject_entries props' Hnd' Hnp') as (e2 & Hp2 & E2).
    rewrite E1, E2 in H.
    change (js "{") with [123%N] in H. change (js "}") with [125%N] in H.
    rewrite <- !app_assoc in H. cbn [app] in H. injection H as H.
    destruct (sequence_determined entry
                (fun p q => fst p = fst q /\ same_json (snd p) (snd q))
                (fun q => plain_json (snd q)) 125
                (or_intror eq_refl) entry_head e1) with (l2 := e2) (r1 := r1) (r2 := r2)
      as [HF ->].
    + assert (IH1 : Forall (fun kv => determined (snd kv)) e1)
        by (eapply Permutation_Forall; [exact Hp1|exact IH]).
      assert (Hpl1 : Forall (fun kv => plain_json (snd kv)) e1)
        by (eapply Permutation_Forall; [exact Hp1|exact Hprops]).
      rewrite Forall_forall in IH1, Hpl1 |- *. intros x Hx y t1 t2 Hy Ht T1 T2.
      unfold entry in Ht. rewrite <- !app_assoc in Ht.
      apply QuoteJSONString_determines in Ht as [Hk Ht].
      change (js ":") with [58%N] in Ht. cbn [app] in Ht. injection Ht as Ht.
      destruct (IH1 x Hx (snd y) t1 t2 (Hpl1 x Hx) Hy Ht T1 T2) as [Hs ->].
      split; [split; assumption|reflexivity].
    + eapply Permutation_Forall; [exact Hp2|exact Hprops'].
    + exact H.
    + split; [|reflexivity].
      apply Forall2_flip in HF.
      destruct (Permutation_Forall2 (Permutation_sym Hp2) HF) as (e1' & Hp1' & HF').
      apply Forall2_flip in HF'.
      apply (same_obj props e1' props' Hnd).
      * now rewrite Hp1.
      * exact HF'.
Qed.

(** X24. The canonical string determines the JSON. For JSON whose
    numbers are safe integers, which are written with all their digits
    (the two zeros, written alike, are one number here), and whose objects
    have pairwise distinct keys, none of them [__proto__], two values that
    [canonicalEqual] takes for equal are the same JSON up to the order of
    properties: no two different values share a canonical string. *)
Theorem canonicalEqual_means_same_json :
  forall (a b : value),
    plain_json a -> plain_json b ->
    Canonical.canonicalEqual a b = true ->
    same_json a b.
Proof.
  intros a b Ha Hb H. unfold Canonical.canonicalEqual in H.
  apply jsstring_eqb_eq in H. unfold Canonical.toCanonical in H.
  destruct (determined_all a b [] [] Ha Hb) as [Hs _]; try exact I.
  - now rewrite !app_nil_r.
  - exact Hs.
Qed.

Ltac plain_json_tac :=
  repeat first
    [ apply plain_null | apply plain_bool | apply plain_str
    | apply plain_num; unfold safe_integer; cbn [Z.abs]; lia
    | apply plain_arr
    | apply plain_obj;
      [nodup_keys | cbn [Obj.keys map fst In]; intuition discriminate | ]
    | apply Forall_cons; cbn [snd]
    | apply Forall_nil ].

Lemma canonicalEqual_means_same_json_witness : same_json Ex.nested_a Ex.nested_b.
Proof.
  apply (canonicalEqual_means_same_json Ex.nested_a Ex.nested_b).
  - unfold Ex.nested_a. plain_json_tac.
  - unfold Ex.nested_b. plain_json_tac.
  - vm_compute. reflexivity.
Defined.

(** ** A single signature *)

(** X25. [verifySingleSignature] is the sigset check of one signature: its
    verdict is the verdict of [verifySigset] on a sigset of threshold 1
    that holds this signature alone, with no authorized set, and it throws
    exactly what that call throws. *)
Theorem verifySingleSignature_is_a_one_signature_sigset :
  forall (env : Env) (signature : Signature.t) (message : jsstring),
    match verifySingleSignature env signature message,
          verifySigset env
            {| Sigset.threshold := Some 1%Z; Sigset.signatures := [Some signature] |}
            message None
    with
    | Return r, Return sr => VerificationResult.valid r = SigsetResult.valid sr
    | Throw e, Throw e' => e = e'
    | _, _ => False
    end.
Proof.
  intros env signature message.
  unfold verifySingleSignature, verifySigset.
  cbn [Sigset.signatures Sigset.threshold verifySigset_loop].
  destruct (verifySignature env (Signature.pubkey signature) message
              (Signature.sig signature) (Signature.suite_id signature))
    as [[|]|e]; cbn; reflexivity.
Qed.

(** ** The 0x prefix *)

Lemma normalizeHex_0x env (hex : jsstring) :
  toLowerCase env (js "0x" ++ hex) = js "0x" ++ toLowerCase env hex ->
  normalizeHex env hex = toLowerCase env hex ->
  normalizeHex env (js "0x" ++ hex) = normalizeHex env hex.
Proof.
  intros Hpre Hhex. rewrite Hhex. unfold normalizeHex. rewrite Hpre. reflexivity.
Qed.

(** X26. One [0x] prefix is optional. For a key and a signature that are
    lower-cased after the prefix as they are without it (lower-casing
    depends on what comes before a letter for a few letters that are not
    hexadecimal digits), [verifySignature] gives the same answer for the
    two written with the prefix as for the two written without it. Only
    one prefix is removed: the key and the signature must not begin with
    [0x] themselves once lower-cased. *)
Theorem verifySignature_ignores_one_0x_prefix :
  forall (env : Env) (pubkey message sig suiteId : jsstring),
    toLowerCase env (js "0x" ++ pubkey) = js "0x" ++ toLowerCase env pubkey ->
    toLowerCase env (js "0x" ++ sig) = js "0x" ++ toLowerCase env sig ->
    normalizeHex env pubkey = toLowerCase env pubkey ->
    normalizeHex env sig = toLowerCase env sig ->
    verifySignature env (js "0x" ++ pubkey) message (js "0x" ++ sig) suiteId
    = verifySignature env pubkey message sig suiteId.
Proof.
  intros env pubkey message sig suiteId Hpk0 Hsig0 Hpk Hsig.
  unfold verifySignature, hexToUint8Array.
  now rewrite (normalizeHex_0x env pubkey Hpk0 Hpk), (normalizeHex_0x env sig Hsig0 Hsig).
Qed.

Lemma verifySignature_ignores_one_0x_prefix_witness :
  verifySignature Ex.env0 (js "0x" ++ Ex.alice) (js "m")
    (js "0x" ++ (Ex.alice ++ Ex.zeros64)) (js "ed25519-blake3")
  = verifySignature Ex.env0 Ex.alice (js "m") (Ex.alice ++ Ex.zeros64)
      (js "ed25519-blake3").
Proof.
  apply (verifySignature_ignores_one_0x_prefix Ex.env0 Ex.alice (js "m")
           (Ex.alice ++ Ex.zeros64) (js "ed25519-blake3")).
  - vm_compute. reflexivity.
  - vm_compute. reflexivity.
  - vm_compute. reflexivity.
  - vm_compute. reflexivity.
Defined.
